(** * cryptofeed: transport channels and the HitBTC adapter

    A shallow embedding of [cryptofeed/connection.py] and
    [cryptofeed/exchange/hitbtc.py], and the properties of both.

    - [Py] holds the fragment of Python's dynamic semantics the two files
      rely on: decoded JSON values, subscripting, the [in] operator,
      truthiness, iteration, hashing of dictionary keys, and a state and
      exception monad.
    - [Connection] embeds the channel classes of [connection.py]; what a
      channel does to the outside (requests, callback calls, sleeps, log
      records) is recorded in a trace, and what the outside supplies
      (responses, readings of the clock) is an argument.
    - [HitBTC] embeds the adapter of [hitbtc.py]; the collaborators it
      calls ([Decimal], the symbol table, [timestamp_normalize]) are an
      environment record.
    - [Sample], [HitBTCSpec] and [ConnectionSpec] hold sample inputs and the
      vocabulary of the statements; [PyProps], [HitBTCProps],
      [ConnectionProps], [HitBTCMore] and [ConnectionMore] hold the proofs.

    Python's [int] and [Decimal] values are rationals ([Qc]); comparison is
    exact and addition rounds as [Decimal] addition does ([Py.decimal_add]).
    Readings of [time.time()] are rationals ([Q]), request weights are
    natural numbers.  Non-finite decimals (NaN, Infinity) are outside the
    model. *)

From Stdlib Require Import ZArith QArith Qcanon Lia Lqa.
From stdpp Require Import base option list strings gmap fin_maps pretty.

Local Open Scope Z_scope.
Local Set Warnings "-register-all".

(* ===================================================================== *)
(** * Python values and effects *)
(* ===================================================================== *)

Module Py.

(** A decoded JSON document ([json.loads(msg, parse_float=Decimal)]).
    Integers and decimals share [JNum]: Python compares and adds them
    numerically.  An object lists each key once; lookup takes the first
    binding. *)
Inductive json : Type :=
| JNull
| JBool (b : bool)
| JNum (q : Qc)
| JStr (s : string)
| JList (l : list json)
| JDict (d : list (string * json)).

Inductive exn : Type :=
| KeyError
| TypeError
| ValueError
| MissingSequenceNumber
| ConnectionClosed
| HTTPError
| LibraryError (name : string).

Inductive res (A : Type) : Type :=
| Ok (a : A)
| Raise (e : exn).
Arguments Ok {A} a.
Arguments Raise {A} e.

(** Wall-clock readings and timestamps ([float] seconds). *)
Definition float : Type := Q.

Definition dec (z : Z) : Qc := Q2Qc (inject_Z z).

Fixpoint assoc {A} (k : string) (d : list (string * A)) : option A :=
  match d with
  | [] => None
  | (k', v) :: d' => if String.eqb k k' then Some v else assoc k d'
  end.

(** [s in t] on two strings: substring test. *)
Fixpoint is_substring (s t : string) : bool :=
  String.prefix s t ||
  match t with
  | EmptyString => false
  | String _ t' => is_substring s t'
  end.

(** [j == 'lit'] for a string literal. *)
Definition eq_str (j : json) (lit : string) : bool :=
  match j with
  | JStr s => String.eqb s lit
  | _ => false
  end.

(** [j[key]] for a string key. *)
Definition getitem (j : json) (key : string) : res json :=
  match j with
  | JDict d => match assoc key d with
               | Some v => Ok v
               | None => Raise KeyError
               end
  | _ => Raise TypeError
  end.

(** [key in j] for a string key. *)
Definition contains (key : string) (j : json) : res bool :=
  match j with
  | JDict d => Ok (bool_decide (is_Some (assoc key d)))
  | JList l => Ok (existsb (fun e => eq_str e key) l)
  | JStr s => Ok (is_substring key s)
  | _ => Raise TypeError
  end.

(** Truth value of [j] ([bool(j)]). *)
Definition truthy (j : json) : bool :=
  match j with
  | JNull => false
  | JBool b => b
  | JNum q => negb (bool_decide (q = 0%Qc))
  | JStr s => negb (String.eqb s "")
  | JList l => negb (bool_decide (l = []))
  | JDict d => negb (bool_decide (d = []))
  end.

Fixpoint chars (s : string) : list json :=
  match s with
  | EmptyString => []
  | String c s' => JStr (String c EmptyString) :: chars s'
  end.

(** [for x in j]: the items the loop visits. *)
Definition iter (j : json) : res (list json) :=
  match j with
  | JList l => Ok l
  | JDict d => Ok (map (fun kv => JStr (fst kv)) d)
  | JStr s => Ok (chars s)
  | _ => Raise TypeError
  end.

(** Dictionary keys: the hashable JSON values, up to Python's [==]
    ([True == 1], [False == 0]). *)
Inductive hashable : Type :=
| HNone
| HNum (q : Qc)
| HStr (s : string).

Definition hash_key (j : json) : res hashable :=
  match j with
  | JNull => Ok HNone
  | JBool b => Ok (HNum (if b then 1%Qc else 0%Qc))
  | JNum q => Ok (HNum q)
  | JStr s => Ok (HStr s)
  | JList _ | JDict _ => Raise TypeError
  end.

(** ** Decimal addition

    The decoder gives an [int] for an integer of 64 bits and a [Decimal]
    for every other number (longer integers go through [parse_float] as
    numbers with a fraction do).  [int] addition is exact; [Decimal]
    addition is the exact sum rounded to the 28 significant digits of the
    default context, ties to even.  Up to 28 digits the rounding changes
    nothing, so one addition serves both.  The bounds of the context on
    exponents are outside the model. *)

(** Number of decimal digits of a positive integer. *)
Fixpoint digits_fuel (fuel : nat) (n : Z) : Z :=
  match fuel with
  | O => 0
  | S fuel' => if n <? 10 then 1 else 1 + digits_fuel fuel' (n / 10)
  end.

Definition digits (n : Z) : Z := digits_fuel (S (Z.to_nat (Z.log2 n))) n.

(** The exponent of the leading digit of [n/d], for positive [n] and [d]:
    the [e] with [10^e <= n/d < 10^(e+1)]. *)
Definition adjusted (n d : Z) : Z :=
  let k := digits n - digits d in
  if (if 0 <=? k then d * 10 ^ k <=? n else d <=? n * 10 ^ (- k)) then k else k - 1.

(** [n/d] rounded to an integer, ties to even, for [0 <= n] and [0 < d]. *)
Definition round_half_even (n d : Z) : Z :=
  let q := n / d in
  let r := n mod d in
  if 2 * r <? d then q
  else if d <? 2 * r then q + 1
  else if Z.even q then q else q + 1.

(** [getcontext().prec] *)
Definition prec : Z := 28.

(** [n/d] rounded to [prec] significant digits, for positive [n] and [d]. *)
Definition round_pos (n d : Z) : Q :=
  let e := adjusted n d - (prec - 1) in
  if 0 <=? e then inject_Z (round_half_even n (d * 10 ^ e) * 10 ^ e)
  else Qmake (round_half_even (n * 10 ^ (- e)) d) (Z.to_pos (10 ^ (- e))).

Definition decimal_round (q : Q) : Q :=
  match Qnum q with
  | 0 => 0%Q
  | Zpos n => round_pos (Zpos n) (Zpos (Qden q))
  | Zneg n => (- round_pos (Zpos n) (Zpos (Qden q)))%Q
  end.

(** [a + b] on decoded numbers. *)
Definition decimal_add (a b : Qc) : Qc := Q2Qc (decimal_round (this a + this b)).

(** [j + 1]. *)
Definition add1 (j : json) : res Qc :=
  match j with
  | JNum q => Ok (decimal_add q 1)
  | JBool b => Ok ((if b then 1 else 0) + 1)%Qc
  | _ => Raise TypeError
  end.

(** [q != j] for a number [q]. *)
Definition num_ne (q : Qc) (j : json) : bool :=
  match j with
  | JNum r => negb (bool_decide (q = r))
  | JBool b => negb (bool_decide (q = if b then 1%Qc else 0%Qc))
  | _ => true
  end.

Global Instance hashable_eq_dec : EqDecision hashable := ltac:(solve_decision).

Definition hashable_to_sum (h : hashable) : () + (Qc + string) :=
  match h with
  | HNone => inl ()
  | HNum q => inr (inl q)
  | HStr s => inr (inr s)
  end.

Definition hashable_of_sum (x : () + (Qc + string)) : hashable :=
  match x with
  | inl _ => HNone
  | inr (inl q) => HNum q
  | inr (inr s) => HStr s
  end.

Global Instance hashable_countable : Countable hashable :=
  inj_countable' hashable_to_sum hashable_of_sum
    (fun h => match h with HNone | HNum _ | HStr _ => eq_refl end).

(** State and exception monad: a method mutates the object it runs on and
    either returns or raises; mutations made before a raise stay. *)
Definition M (S A : Type) : Type := S -> res A * S.

Definition ret {S A} (a : A) : M S A := fun s => (Ok a, s).
Definition raise {S A} (e : exn) : M S A := fun s => (Raise e, s).
Definition bind {S A B} (m : M S A) (k : A -> M S B) : M S B :=
  fun s => match m s with
           | (Ok a, s') => k a s'
           | (Raise e, s') => (Raise e, s')
           end.
Definition lift {S A} (r : res A) : M S A := fun s => (r, s).
Definition get {S} : M S S := fun s => (Ok s, s).
Definition modify {S} (f : S -> S) : M S unit := fun s => (Ok tt, f s).

(** [try: body finally: cleanup]: the cleanup runs whether the body returns
    or raises; what the cleanup raises replaces the body's outcome. *)
Definition try_finally {S A} (body : M S A) (cleanup : M S unit) : M S A :=
  fun s => match body s with
           | (r, s') => match cleanup s' with
                        | (Ok _, s'') => (r, s'')
                        | (Raise e, s'') => (Raise e, s'')
                        end
           end.

(** [len(j)] *)
Definition len (j : json) : res nat :=
  match j with
  | JStr s => Ok (String.length s)
  | JList l => Ok (length l)
  | JDict d => Ok (length d)
  | _ => Raise TypeError
  end.

(** [s[:n]] and [s[n:]] on a string, for [0 <= n]. *)
Fixpoint str_take (n : nat) (s : string) : string :=
  match n, s with
  | S n', String c s' => String c (str_take n' s')
  | _, _ => EmptyString
  end.

Fixpoint str_drop (n : nat) (s : string) : string :=
  match n, s with
  | S n', String _ s' => str_drop n' s'
  | _, _ => s
  end.

(** [for x in xs: acc = body x acc], stopping at the first raise. *)
Fixpoint for_each {S A B} (body : A -> B -> M S B) (xs : list A) (acc : B) : M S B :=
  match xs with
  | [] => ret acc
  | x :: xs' => bind (body x acc) (for_each body xs')
  end.

End Py.

Notation "'let*' x ':=' c 'in' k" := (Py.bind c (fun x => k))
  (at level 10, x name, c at level 100, k at level 200).
Notation "c ';;' k" := (Py.bind c (fun _ => k))
  (at level 100, k at level 200, right associativity).

(* ===================================================================== *)
(** * connection.py: the transport channels *)
(* ===================================================================== *)

Module Connection.
Import Py.

(** An HTTP response as the channels use it: [status], [text] (also the
    body [read()] returns), [headers], and what [json()] gives, the decoded
    body or nothing when the body does not decode. *)
Record response : Type := {
  status : Z;
  text : string;
  headers : list (string * string);
  decoded : option json
}.

(** Names of headers compare without regard to case: [response.headers] of
    aiohttp is a case-insensitive multidict. *)
Definition lower_ascii (c : Ascii.ascii) : Ascii.ascii :=
  let n := Ascii.nat_of_ascii c in
  if ((65 <=? n) && (n <=? 90))%nat then Ascii.ascii_of_nat (n + 32) else c.

Fixpoint lower (s : string) : string :=
  match s with
  | EmptyString => EmptyString
  | String c s' => String (lower_ascii c) (lower s')
  end.

(** [name in response.headers] *)
Definition has_header (name : string) (hs : list (string * string)) : bool :=
  existsb (fun h => String.eqb (lower name) (lower h.1)) hs.

(** The context keyword a raw-data callback is called with. *)
Inductive context : Type :=
| Endpoint (address : string) (header : option (list (string * string)))
| Send (address : string)
| Connect (address : string)
| NoContext.

Inductive level : Type := Debug | Info | Warning | Error.

(** What a channel does to the outside, in order: log records, sessions and
    sockets created and closed, requests, calls of the raw-data callback,
    frames sent, sleeps, items yielded by a generator. *)
Inductive io : Type :=
| Log (l : level) (text : string)
| NewSession (h : nat)
| WsConnect (address : string) (h : nat)
| CloseSession (h : nat)
| Get (h : nat) (address : string)
| Post (h : nat) (address : string) (data : string)
| WsSend (h : nat) (data : string)
| RawData (payload : option string) (timestamp : float) (conn_id : string) (ctx : context)
| Sleep (seconds : float)
| Yield (data : string).

(** The object behind [self.conn]: an [aiohttp.ClientSession] or a
    websocket, with its [closed] attribute. *)
Record session : Type := { handle : nat; closed : bool }.

(** What the channel objects share: the class attributes
    [AsyncConnection.conn_count] and [Connection.raw_data_callback] (set or
    [None]), the supply of transport handles, and the outside. *)
Record world : Type := {
  conn_count : N;
  raw_data_callback : bool;
  next_handle : nat;
  trace : list io
}.

(** The instance attributes set by [AsyncConnection.__init__]. *)
Record AsyncConnection : Type := {
  id : string;
  received : N;
  sent : N;
  last_message : option float;
  conn : option session
}.

Definition St : Type := AsyncConnection * world.

Definition do_io (e : io) : M St unit :=
  modify (fun s : St =>
    (s.1, {| conn_count := conn_count s.2; raw_data_callback := raw_data_callback s.2;
             next_handle := next_handle s.2; trace := trace s.2 ++ [e] |})).

Definition update (f : AsyncConnection -> AsyncConnection) : M St unit :=
  modify (fun s : St => (f s.1, s.2)).

Definition set_conn (c : option session) (self : AsyncConnection) : AsyncConnection :=
  {| id := id self; received := received self; sent := sent self;
     last_message := last_message self; conn := c |}.

Definition set_sent (n : N) (self : AsyncConnection) : AsyncConnection :=
  {| id := id self; received := received self; sent := n;
     last_message := last_message self; conn := conn self |}.

Definition set_received (n : N) (self : AsyncConnection) : AsyncConnection :=
  {| id := id self; received := n; sent := sent self;
     last_message := last_message self; conn := conn self |}.

Definition set_last_message (t : float) (self : AsyncConnection) : AsyncConnection :=
  {| id := id self; received := received self; sent := sent self;
     last_message := Some t; conn := conn self |}.

(** A fresh transport object: [aiohttp.ClientSession()] or the result of
    [websockets.connect]. *)
Definition fresh_session : M St session :=
  fun s : St =>
    (Ok {| handle := next_handle s.2; closed := false |},
     (s.1, {| conn_count := conn_count s.2; raw_data_callback := raw_data_callback s.2;
              next_handle := S (next_handle s.2); trace := trace s.2 |})).

(** [if self.raw_data_callback: await self.raw_data_callback(...)] *)
Definition raw_data (payload : option string) (timestamp : float) (conn_id : string)
    (ctx : context) : M St unit :=
  let* s := get in
  if raw_data_callback s.2 then do_io (RawData payload timestamp conn_id ctx) else ret tt.

(** [response.raise_for_status()]: aiohttp raises for a status of 400 and
    above. *)
Definition raise_for_status (r : response) : M St unit :=
  if 400 <=? status r then raise HTTPError else ret tt.

(** [is_open] of [HTTPAsyncConn] and of [WSAsyncConn]:
    [self.conn and not self.conn.closed]. *)
Definition is_open (self : AsyncConnection) : bool :=
  match conn self with
  | Some c => negb (closed c)
  | None => false
  end.

(** The transport a request goes through ([self.conn]). *)
Definition handle_of (self : AsyncConnection) : nat :=
  match conn self with Some c => handle c | None => 0%nat end.

(** [AsyncConnection.__init__] *)
Definition AsyncConnection_init (conn_id : string) (w : world) : AsyncConnection * world :=
  ({| id := conn_id; received := 0; sent := 0; last_message := None; conn := None |},
   {| conn_count := conn_count w + 1; raw_data_callback := raw_data_callback w;
      next_handle := next_handle w; trace := trace w |}).

(** [AsyncConnection.close] *)
Definition close : M St unit :=
  let* s := get in
  if is_open s.1 then
    let conn := handle_of s.1 in
    update (set_conn None) ;;
    do_io (CloseSession conn) ;;
    do_io (Log Info "closed connection")
  else ret tt.

(** [AsyncConnection.connect], the context manager: [_open] of the subclass,
    then the body of the [async with] block, then [close] whatever the body
    did. *)
Definition connect {A} (_open : M St unit) (body : M St A) : M St A :=
  _open ;;
  try_finally body close.

(** ** [HTTPSync] *)
Module HTTPSync.

Inductive result : Type :=
| AsJson (body : json)
| AsText (body : string)
| AsResponse (r : response).

(** [r.json()] *)
Definition json_of (r : response) : res json :=
  match decoded r with
  | Some body => Ok body
  | None => Raise (LibraryError "JSONDecodeError")
  end.

(** [str(uuid)] *)
Definition str (uuid : option string) : string :=
  match uuid with Some u => u | None => "None" end.

(** [r.raise_for_status()] of [requests]: raises for a status from 400 to
    599. *)
Definition raise_for_status (r : response) : M world unit :=
  if (400 <=? status r) && (status r <? 600) then raise HTTPError else ret tt.

Definition do_io (e : io) : M world unit :=
  modify (fun w => {| conn_count := conn_count w; raw_data_callback := raw_data_callback w;
                      next_handle := next_handle w; trace := trace w ++ [e] |}).

(** [process_response]; [now] is the reading of [time.time()]. *)
Definition process_response (r : response) (address : string) (json text : bool)
    (uuid : option string) (now : float) : M world result :=
  let* w := get in
  (if raw_data_callback w
   then do_io (RawData (Some (Connection.text r)) now (str uuid) (Endpoint address None))
   else ret tt) ;;
  raise_for_status r ;;
  if json then let* body := lift (json_of r) in ret (AsJson body)
  else if text then ret (AsText (Connection.text r))
  else ret (AsResponse r).

(** [read]; [r] is what [requests.get(address)] returns. *)
Definition read (address : string) (json text : bool) (uuid : option string)
    (r : response) (now : float) : M world result :=
  do_io (Log Debug "HTTPSync: requesting data") ;;
  do_io (Get 0 address) ;;
  process_response r address json text uuid now.

(** [write]; [r] is what [requests.post(address, data=data)] returns. *)
Definition write (address data : string) (json text : bool) (uuid : option string)
    (r : response) (now : float) : M world result :=
  do_io (Log Debug "HTTPSync: post") ;;
  do_io (Post 0 address data) ;;
  process_response r address json text uuid now.

End HTTPSync.

(** ** [HTTPAsyncConn] *)
Module HTTPAsyncConn.

(** [__init__]: the id is formatted before [AsyncConnection.__init__]
    increments the counter. *)
Definition init (conn_id : string) (w : world) : AsyncConnection * world :=
  AsyncConnection_init (conn_id +:+ ".http." +:+ pretty (conn_count w)) w.

(** [_open] *)
Definition _open : M St unit :=
  let* s := get in
  if is_open s.1 then do_io (Log Warning "HTTP session already created")
  else
    do_io (Log Debug "create HTTP session") ;;
    let* c := fresh_session in
    do_io (NewSession (handle c)) ;;
    update (set_conn (Some c)) ;;
    update (set_sent 0) ;;
    update (set_received 0).

(** Body of the loop over the rate-limit header names. *)
Definition log_weight_header (r : response) (name : string) (_ : unit) : M St unit :=
  if has_header name (headers r)
  then do_io (Log Debug "used weight") else ret tt.

(** [read]; [r] is the response to the GET and [now] the reading of
    [time.time()]. *)
Definition read (address : string) (return_headers : bool) (r : response) (now : float)
  : M St (string * option (list (string * string))) :=
  let* s := get in
  (if negb (is_open s.1) then _open else ret tt) ;;
  do_io (Log Debug "requesting data") ;;
  let* s := get in
  do_io (Get (handle_of s.1) address) ;;
  for_each (log_weight_header r)
    ["x-mbx-used-weight"; "x-mbx-used-weight-1m"; "X-MBX-USED-WEIGHT-1M"] tt ;;
  let data := text r in
  update (set_last_message now) ;;
  update (fun self => set_received (received self + 1) self) ;;
  let* s := get in
  raw_data (Some data) now (id s.1)
    (Endpoint address (if return_headers then Some (headers r) else None)) ;;
  raise_for_status r ;;
  if return_headers then ret (data, Some (headers r)) else ret (data, None).

(** [write]; [r] is the response to the POST and [now] the reading of
    [time.time()]. *)
Definition write (address msg : string) (r : response) (now : float) : M St string :=
  let* s := get in
  (if negb (is_open s.1) then _open else ret tt) ;;
  let* s := get in
  do_io (Post (handle_of s.1) address msg) ;;
  update (fun self => set_sent (sent self + 1) self) ;;
  let data := text r in
  let* s := get in
  raw_data (Some data) now (id s.1) (Send address) ;;
  raise_for_status r ;;
  ret data.

End HTTPAsyncConn.

(** ** [ThrottledHTTPAsyncConn] *)
Module ThrottledHTTPAsyncConn.

(** [throttle_limit]: a weight (a whole number of rate-limit units), or
    [float('inf')]. *)
Inductive limit : Type := Finite (n : N) | Infinity.

(** The attributes [__init__] adds to those of [HTTPAsyncConn]. *)
Record t : Type := {
  throttle_limit : limit;
  throttle_interval : Z;
  used_limit : N;
  next_reset : option Z
}.

Definition TSt : Type := t * St.

(** The readings of [time.time()] during one [read]: on entry, when the
    wait is computed, after the sleep, and in the delegated read. *)
Record clock : Type := { now : float; t_wait : float; t_wake : float; t_read : float }.

Definition init (conn_id : string) (throttle_limit : limit) (throttle_interval : Z)
    (w : world) : t * (AsyncConnection * world) :=
  ({| throttle_limit := throttle_limit; throttle_interval := throttle_interval;
      used_limit := 0; next_reset := None |},
   HTTPAsyncConn.init conn_id w).

(** [(int(now) // 60 + 1) * 60]: [int] truncates, [//] rounds down. *)
Definition next_minute (now : float) : Z :=
  ((Qnum now ÷ Zpos (Qden now)) / 60 + 1) * 60.

Definition set_used_limit (n : N) (self : t) : t :=
  {| throttle_limit := throttle_limit self; throttle_interval := throttle_interval self;
     used_limit := n; next_reset := next_reset self |}.

Definition set_next_reset (z : Z) (self : t) : t :=
  {| throttle_limit := throttle_limit self; throttle_interval := throttle_interval self;
     used_limit := used_limit self; next_reset := Some z |}.

Definition tupdate (f : t -> t) : M TSt unit :=
  modify (fun s : TSt => (f s.1, s.2)).

(** A method of the base class run on this object. *)
Definition super {A} (m : M St A) : M TSt A :=
  fun s : TSt => let (r, s') := m s.2 in (r, (s.1, s')).

(** [not self.next_reset] *)
Definition unset (r : option Z) : bool :=
  match r with
  | None => true
  | Some z => z =? 0
  end.

(** [self.next_reset] where the code uses it as a number. *)
Definition reset_value : M TSt Z :=
  let* s := get in
  match next_reset s.1 with
  | Some z => ret z
  | None => raise TypeError
  end.

(** [self.used_limit >= self.throttle_limit] *)
Definition limit_reached (used : N) (l : limit) : bool :=
  match l with
  | Finite n => (n <=? used)%N
  | Infinity => false
  end.

Definition Qltb (a b : Q) : bool := negb (Qle_bool b a).

(** The first statements of [read]: the weight is added, a window is
    started if none is, and an expired window is replaced. *)
Definition account (weight : N) (now : float) : M TSt unit :=
  tupdate (fun self => set_used_limit (used_limit self + weight) self) ;;
  let* s := get in
  (if unset (next_reset s.1) then tupdate (set_next_reset (next_minute now))
   else ret tt) ;;
  let* reset := reset_value in
  if Qltb (inject_Z reset) now then
    super (do_io (Log Debug "Reset expired throttle")) ;;
    tupdate (set_next_reset (next_minute now)) ;;
    tupdate (set_used_limit weight)
  else ret tt.

(** The statements of [read] before the delegation to [HTTPAsyncConn.read];
    the result is [wait_time] when the call slept. *)
Definition admission (weight : N) (clk : clock) : M TSt (option float) :=
  account weight (now clk) ;;
  let* s := get in
  if limit_reached (used_limit s.1) (throttle_limit s.1) then
    let* reset := reset_value in
    let wait_time := (inject_Z reset - t_wait clk)%Q in
    super (do_io (Log Info "Throttling kicked in")) ;;
    super (do_io (Sleep wait_time)) ;;
    tupdate (set_next_reset (next_minute (t_wake clk))) ;;
    tupdate (set_used_limit weight) ;;
    ret (Some wait_time)
  else ret None.

(** [read] *)
Definition read (address : string) (return_headers : bool) (weight : N)
    (r : response) (clk : clock) : M TSt (string * option (list (string * string))) :=
  admission weight clk ;;
  super (HTTPAsyncConn.read address return_headers r (t_read clk)).

(** [write] is the one [HTTPAsyncConn] defines: the class does not override
    it, and it goes round the throttle. *)
Definition write (address msg : string) (r : response) (now : float) : M TSt string :=
  super (HTTPAsyncConn.write address msg r now).

End ThrottledHTTPAsyncConn.

(** ** [HTTPPoll] *)
Module HTTPPoll.

(** The attributes [__init__] adds to those of [HTTPAsyncConn]. *)
Record t : Type := { address : list string; sleep : float; delay : float }.

(** [__init__]: the formatted id goes through [HTTPAsyncConn.__init__],
    which formats it again. *)
Definition init (address : list string) (conn_id : string) (delay sleep : float)
    (w : world) : t * (AsyncConnection * world) :=
  ({| address := address; sleep := sleep; delay := delay |},
   HTTPAsyncConn.init (conn_id +:+ ".http." +:+ pretty (conn_count w)) w).

(** Body of [for addr in self.address]; [serve addr] is the response to the
    GET and the reading of [time.time()]. *)
Definition poll (self : t) (serve : string -> response * float) (addr : string) (_ : unit)
  : M St unit :=
  let* s := get in
  if negb (is_open s.1) then
    do_io (Log Error "connection closed in read()") ;;
    raise ConnectionClosed
  else
    do_io (Log Debug "polling") ;;
    do_io (Get (handle_of s.1) addr) ;;
    let data := text (serve addr).1 in
    update (fun self => set_received (received self + 1) self) ;;
    update (set_last_message (serve addr).2) ;;
    let* s := get in
    raw_data (Some data) (serve addr).2 (id s.1) (Endpoint addr None) ;;
    raise_for_status (serve addr).1 ;;
    do_io (Yield data) ;;
    do_io (Sleep (sleep self)).

(** [read]: the generator run for [cycles] rounds of its [while True]. *)
Fixpoint read (self : t) (serve : string -> response * float) (cycles : nat) : M St unit :=
  match cycles with
  | O => ret tt
  | S n =>
      for_each (poll self serve) (address self) tt ;;
      do_io (Sleep (delay self)) ;;
      read self serve n
  end.

(** [write] is the one [HTTPAsyncConn] defines: the class does not override
    it. *)
Definition write (address msg : string) (r : response) (now : float) : M St string :=
  HTTPAsyncConn.write address msg r now.

End HTTPPoll.

(** ** [WSAsyncConn] *)
Module WSAsyncConn.

(** [__init__] *)
Definition init (address conn_id : string) (w : world) : res (string * (AsyncConnection * world)) :=
  if negb (String.prefix "wss://" address) then Raise ValueError
  else Ok (address, AsyncConnection_init (conn_id +:+ ".ws." +:+ pretty (conn_count w)) w).

(** [_open]; [now] is the reading of [time.time()]. *)
Definition _open (address : string) (now : float) : M St unit :=
  let* s := get in
  (if is_open s.1 then do_io (Log Warning "websocket already open")
   else
     do_io (Log Debug "connecting") ;;
     raw_data None now (id s.1) (Connect address) ;;
     let* c := fresh_session in
     do_io (WsConnect address (handle c)) ;;
     update (set_conn (Some c))) ;;
  update (set_sent 0) ;;
  update (set_received 0).

(** Body of [async for data in self.conn]. *)
Definition receive (frame : string * float) (_ : unit) : M St unit :=
  update (fun self => set_received (received self + 1) self) ;;
  update (set_last_message frame.2) ;;
  let* s := get in
  raw_data (Some frame.1) frame.2 (id s.1) NoContext ;;
  do_io (Yield frame.1).

(** [read]; [frames] are the frames the socket delivers, each with the
    reading of [time.time()] at its arrival. *)
Definition read (frames : list (string * float)) : M St unit :=
  let* s := get in
  if negb (is_open s.1) then
    do_io (Log Error "connection closed in read()") ;;
    raise ConnectionClosed
  else for_each receive frames tt.

(** [write]; [now] is the reading of [time.time()]. *)
Definition write (address data : string) (now : float) : M St unit :=
  let* s := get in
  if negb (is_open s.1) then
    do_io (Log Error "connection closed in write()") ;;
    raise ConnectionClosed
  else
    raw_data (Some data) now (id s.1) (Send address) ;;
    let* s := get in
    do_io (WsSend (handle_of s.1) data) ;;
    update (fun self => set_sent (sent self + 1) self).

End WSAsyncConn.

End Connection.

(* ===================================================================== *)
(** * hitbtc.py: the exchange adapter *)
(* ===================================================================== *)

Module HitBTC.
Import Py.

(** [BID] and [ASK]: the two sides of a book, which are also the frame
    members that list a side's entries. *)
Inductive side : Type := BID | ASK.

Global Instance side_eq_dec : EqDecision side := ltac:(solve_decision).

(** Modelled from the spec: the values of [BID] and [ASK] are set in
    [cryptofeed.defines], which is not among the sources; the spec writes
    the two sides of a frame and of a book [bid] and [ask]. *)
Definition side_key (sd : side) : string :=
  match sd with BID => "bid" | ASK => "ask" end.

(** [BUY] and [SELL] of [cryptofeed.defines]. *)
Inductive trade_side : Type := BUY | SELL.

(** [self.l2_book[pair]]: [{ASK: sd(), BID: sd()}], two sorted maps from
    price to size. *)
Record book : Type := { bids : gmap Qc Qc; asks : gmap Qc Qc }.

Definition empty_book : book := {| bids := ∅; asks := ∅ |}.

Definition levels (sd : side) (b : book) : gmap Qc Qc :=
  match sd with BID => bids b | ASK => asks b end.

Definition set_levels (sd : side) (m : gmap Qc Qc) (b : book) : book :=
  match sd with
  | BID => {| bids := m; asks := asks b |}
  | ASK => {| bids := bids b; asks := m |}
  end.

(** [delta = {BID: [], ASK: []}] *)
Record delta : Type := { delta_bid : list (Qc * Qc); delta_ask : list (Qc * Qc) }.

Definition empty_delta : delta := {| delta_bid := []; delta_ask := [] |}.

Definition delta_of (sd : side) (d : delta) : list (Qc * Qc) :=
  match sd with BID => delta_bid d | ASK => delta_ask d end.

Definition delta_append (sd : side) (e : Qc * Qc) (d : delta) : delta :=
  match sd with
  | BID => {| delta_bid := delta_bid d ++ [e]; delta_ask := delta_ask d |}
  | ASK => {| delta_bid := delta_bid d; delta_ask := delta_ask d ++ [e] |}
  end.

(** What reaches the normalized-event sink: [self.callback(TICKER, ...)],
    [self.callback(TRADES, ...)] and [self.book_callback(...)].  A book
    event records the value of the book at the call. *)
Inductive event : Type :=
| Ticker (symbol : string) (bid ask : json) (timestamp receipt_timestamp : float)
| Trade (symbol : string) (sd : trade_side) (amount price : Qc) (order_id : json)
        (timestamp receipt_timestamp : float)
| BookUpdate (b : book) (symbol : string) (forced : bool) (d : option delta)
             (timestamp receipt_timestamp : float).

Inductive log_record : Type :=
| LogWarning (text : string)
| LogError (text : string).

(** The adapter object: [self.seq_no], [self.l2_book], and the two output
    streams it appends to (events handed to the callbacks, log records). *)
Record t : Type := {
  seq_no : gmap hashable json;
  l2_book : gmap string book;
  emitted : list event;
  log : list log_record
}.

Definition init : t :=
  {| seq_no := ∅; l2_book := ∅; emitted := []; log := [] |}.

(** Collaborators defined outside the two files: the symbol table of
    [Feed] ([exchange_symbol_to_std_symbol], second argument
    [allow_missing]), [Feed.maybe_decimal], [timestamp_normalize] of
    [cryptofeed.standards] at this exchange, and the [Decimal]
    constructor.  Each may raise. *)
Record env : Type := {
  exchange_symbol_to_std_symbol : json -> bool -> res string;
  maybe_decimal : json -> res json;
  timestamp_normalize : json -> res float;
  Decimal : json -> res Qc
}.

Definition book_of (pair : string) : M t book :=
  fun st => match l2_book st !! pair with
            | Some b => (Ok b, st)
            | None => (Raise KeyError, st)
            end.

Definition set_book (pair : string) (b : book) : M t unit :=
  modify (fun st => {| seq_no := seq_no st; l2_book := <[pair := b]> (l2_book st);
                       emitted := emitted st; log := log st |}).

Definition emit (e : event) : M t unit :=
  modify (fun st => {| seq_no := seq_no st; l2_book := l2_book st;
                       emitted := emitted st ++ [e]; log := log st |}).

Definition write_log (r : log_record) : M t unit :=
  modify (fun st => {| seq_no := seq_no st; l2_book := l2_book st;
                       emitted := emitted st; log := log st ++ [r] |}).

Definition set_seq_no (k : hashable) (v : json) : M t unit :=
  modify (fun st => {| seq_no := <[k := v]> (seq_no st); l2_book := l2_book st;
                       emitted := emitted st; log := log st |}).

(** [_ticker] *)
Definition _ticker (E : env) (msg : json) (timestamp : float) : M t unit :=
  let* sym := lift (getitem msg "symbol") in
  let* symbol := lift (exchange_symbol_to_std_symbol E sym true) in
  let* b := lift (getitem msg "bid") in
  let* bid := lift (maybe_decimal E b) in
  let* a := lift (getitem msg "ask") in
  let* ask := lift (maybe_decimal E a) in
  let* ts := lift (getitem msg "timestamp") in
  let* ts' := lift (timestamp_normalize E ts) in
  emit (Ticker symbol bid ask ts' timestamp).

(** Body of the inner loop of [_book]: one [entry] of [msg[side]]. *)
Definition book_entry (E : env) (pair : string) (sd : side) (entry : json) (d : delta)
  : M t delta :=
  let* p := lift (getitem entry "price") in
  let* price := lift (Decimal E p) in
  let* s := lift (getitem entry "size") in
  let* size := lift (Decimal E s) in
  if bool_decide (size = 0%Qc) then
    let* b := book_of pair in
    (if bool_decide (is_Some (levels sd b !! price))
     then set_book pair (set_levels sd (delete price (levels sd b)) b)
     else ret tt) ;;
    ret (delta_append sd (price, 0%Qc) d)
  else
    let* b := book_of pair in
    set_book pair (set_levels sd (<[price := size]> (levels sd b)) b) ;;
    ret (delta_append sd (price, size) d).

(** Body of the outer loop of [_book]: [for entry in msg[side]]. *)
Definition book_side (E : env) (pair : string) (msg : json) (sd : side) (d : delta)
  : M t delta :=
  let* es := lift (getitem msg (side_key sd)) in
  let* entries := lift (iter es) in
  for_each (book_entry E pair sd) entries d.

(** [_book] *)
Definition _book (E : env) (msg : json) (timestamp : float) : M t unit :=
  let* sym := lift (getitem msg "symbol") in
  let* pair := lift (exchange_symbol_to_std_symbol E sym true) in
  let* d := for_each (book_side E pair msg) [BID; ASK] empty_delta in
  let* b := book_of pair in
  emit (BookUpdate b pair false (Some d) timestamp timestamp).

(** Body of the inner loop of [_snapshot]. *)
Definition snapshot_entry (E : env) (pair : string) (sd : side) (entry : json) (_ : unit)
  : M t unit :=
  let* p := lift (getitem entry "price") in
  let* price := lift (Decimal E p) in
  let* s := lift (getitem entry "size") in
  let* size := lift (Decimal E s) in
  let* b := book_of pair in
  set_book pair (set_levels sd (<[price := size]> (levels sd b)) b).

Definition snapshot_side (E : env) (pair : string) (msg : json) (sd : side) (_ : unit)
  : M t unit :=
  let* es := lift (getitem msg (side_key sd)) in
  let* entries := lift (iter es) in
  for_each (snapshot_entry E pair sd) entries tt.

(** [_snapshot] *)
Definition _snapshot (E : env) (msg : json) (timestamp : float) : M t unit :=
  let* sym := lift (getitem msg "symbol") in
  let* pair := lift (exchange_symbol_to_std_symbol E sym false) in
  set_book pair empty_book ;;
  for_each (snapshot_side E pair msg) [BID; ASK] tt ;;
  let* b := book_of pair in
  emit (BookUpdate b pair true None timestamp timestamp).

(** Body of the loop of [_trades].  The loop variable [timestamp] is the
    function's parameter, reassigned by each iteration. *)
Definition trade_entry (E : env) (pair : string) (update : json) (timestamp : float)
  : M t float :=
  let* p := lift (getitem update "price") in
  let* price := lift (Decimal E p) in
  let* q := lift (getitem update "quantity") in
  let* quantity := lift (Decimal E q) in
  let* s := lift (getitem update "side") in
  let sd := if eq_str s "buy" then BUY else SELL in
  let* order_id := lift (getitem update "id") in
  let* ts := lift (getitem update "timestamp") in
  let* timestamp := lift (timestamp_normalize E ts) in
  emit (Trade pair sd quantity price order_id timestamp timestamp) ;;
  ret timestamp.

(** [_trades] *)
Definition _trades (E : env) (msg : json) (timestamp : float) : M t unit :=
  let* sym := lift (getitem msg "symbol") in
  let* pair := lift (exchange_symbol_to_std_symbol E sym true) in
  let* data := lift (getitem msg "data") in
  let* updates := lift (iter data) in
  for_each (trade_entry E pair) updates timestamp ;;
  ret tt.

(** The first [if] of [message_handler]: the sequence check. *)
Definition carries_sequence (msg : json) : res bool :=
  match contains "params" msg with
  | Ok true => match getitem msg "params" with
               | Ok params => contains "sequence" params
               | Raise e => Raise e
               end
  | r => r
  end.

Definition check_sequence (msg : json) : M t unit :=
  let* c := lift (carries_sequence msg) in
  if c : bool then
    let* params := lift (getitem msg "params") in
    let* pair := lift (getitem params "symbol") in
    let* k := lift (hash_key pair) in
    let* st := get in
    (match seq_no st !! k with
     | Some last =>
         let* next := lift (add1 last) in
         let* s := lift (getitem params "sequence") in
         if num_ne next s then
           write_log (LogWarning "Missing sequence number detected") ;;
           raise MissingSequenceNumber
         else ret tt
     | None => ret tt
     end) ;;
    let* s := lift (getitem params "sequence") in
    set_seq_no k s
  else ret tt.

(** The dispatch of [message_handler] on the frame's discriminator. *)
Definition dispatch (E : env) (msg : json) (timestamp : float) : M t unit :=
  let* has_method := lift (contains "method" msg) in
  if has_method : bool then
    let* m := lift (getitem msg "method") in
    if eq_str m "ticker" then
      let* params := lift (getitem msg "params") in _ticker E params timestamp
    else if eq_str m "snapshotOrderbook" then
      let* params := lift (getitem msg "params") in _snapshot E params timestamp
    else if eq_str m "updateOrderbook" then
      let* params := lift (getitem msg "params") in _book E params timestamp
    else if eq_str m "updateTrades" || eq_str m "snapshotTrades" then
      let* params := lift (getitem msg "params") in _trades E params timestamp
    else write_log (LogWarning "Invalid message received")
  else
    let* has_channel := lift (contains "channel" msg) in
    if has_channel : bool then
      let* c := lift (getitem msg "channel") in
      if eq_str c "ticker" then
        let* data := lift (getitem msg "data") in _ticker E data timestamp
      else write_log (LogWarning "Invalid message received")
    else
      let* has_error := lift (contains "error" msg) in
      let* bad :=
        (if has_error : bool then ret true
         else let* r := lift (getitem msg "result") in ret (negb (truthy r))) in
      if bad : bool then write_log (LogError "Received error from server")
      else ret tt.

(** [message_handler], on the decoded frame. *)
Definition message_handler (E : env) (msg : json) (timestamp : float) : M t unit :=
  check_sequence msg ;;
  dispatch E msg timestamp.

(** What [_parse_symbol_data] builds: [ret], from normalized symbol to
    exchange id, and [info], a [defaultdict(dict)] whose ['tick_size'] entry
    maps normalized symbols to tick sizes. *)
Definition symbols : Type := gmap string string * gmap string (gmap string json).

(** Body of the loop of [_parse_symbol_data].  Lengths and slices count
    characters of one byte. *)
Definition parse_symbol (symbol_separator : string) (symbol : json) (_ : unit)
  : M symbols unit :=
  let* bc := lift (getitem symbol "baseCurrency") in
  let* split := lift (len bc) in
  let* id := lift (getitem symbol "id") in
  match id with
  | JStr s =>
      let normalized := str_take split s +:+ symbol_separator +:+ str_drop split s in
      modify (fun acc : symbols => (<[normalized := s]> acc.1, acc.2)) ;;
      let* tick := lift (getitem symbol "tickSize") in
      modify (fun acc : symbols =>
                (acc.1,
                 <["tick_size" := <[normalized := tick]> (default ∅ (acc.2 !! "tick_size"))]>
                   acc.2))
  | _ => raise TypeError
  end.

(** [_parse_symbol_data] *)
Definition _parse_symbol_data (data : json) (symbol_separator : string) : res symbols :=
  match iter data with
  | Ok entries =>
      match for_each (parse_symbol symbol_separator) entries tt (∅, ∅) with
      | (Ok _, acc) => Ok acc
      | (Raise e, _) => Raise e
      end
  | Raise e => Raise e
  end.

(** The frame [subscribe] writes for one channel and one symbol. *)
Definition subscription_frame (chan pair uuid : string) : json :=
  JDict [("method", JStr chan); ("params", JDict [("symbol", JStr pair)]);
         ("id", JStr uuid)].

(** [subscribe], on the websocket connection of the feed.  [subscription]
    is [self.subscription], each channel once, in the order the dictionary
    lists them; [dumps] is [json.dumps] and [now] the reading of
    [time.time()] in each write. *)
Definition subscribe (subscription : list (string * list string)) (dumps : json -> string)
    (address : string) (now : float) : M Connection.St unit :=
  for_each
    (fun (entry : string * list string) (_ : unit) =>
       for_each
         (fun (pair : string) (_ : unit) =>
            let* s := get in
            Connection.WSAsyncConn.write address
              (dumps (subscription_frame entry.1 pair (Connection.id s.1))) now)
         entry.2 tt)
    subscription tt.

End HitBTC.

(* ===================================================================== *)
(** * Sample collaborators and frames *)
(* ===================================================================== *)

Module Sample.
Import Py HitBTC.

(** Modelled from the spec: [Feed.exchange_symbol_to_std_symbol] is not
    among the sources.  The adapter translates exchange symbol ids through a
    table supplied from outside; in pass-through mode ([allow_missing]) an
    unknown id is returned as it is, otherwise a known mapping is required. *)
Definition table_lookup (table : list (string * string)) (sym : json) (allow_missing : bool)
  : res string :=
  match sym with
  | JStr s => match assoc s table with
              | Some std => Ok std
              | None => if allow_missing then Ok s
                        else Raise (LibraryError "UnsupportedSymbol")
              end
  | _ => Raise TypeError
  end.

(** A [Decimal] constructor restricted to JSON numbers. *)
Definition decimal_of_number (j : json) : res Qc :=
  match j with
  | JNum q => Ok q
  | _ => Raise (LibraryError "InvalidOperation")
  end.

(** A [timestamp_normalize] for numeric exchange timestamps in milliseconds. *)
Definition millis (j : json) : res float :=
  match j with
  | JNum q => Ok (Qred (this q / 1000))
  | _ => Raise TypeError
  end.

Definition E : env :=
  {| exchange_symbol_to_std_symbol := table_lookup [("BTCUSD", "BTC-USD")];
     maybe_decimal := fun j => Ok j;
     timestamp_normalize := millis;
     Decimal := decimal_of_number |}.

Definition level (price size : Z) : json :=
  JDict [("price", JNum (dec price)); ("size", JNum (dec size))].

Definition params (sequence : Z) (bid ask : list json) : json :=
  JDict [("ask", JList ask); ("bid", JList bid); ("symbol", JStr "BTCUSD");
         ("sequence", JNum (dec sequence))].

Definition frame (method : string) (sequence : Z) (bid ask : list json) : json :=
  JDict [("jsonrpc", JStr "2.0"); ("method", JStr method);
         ("params", params sequence bid ask)].

End Sample.

(* ===================================================================== *)
(** * Vocabulary of the adapter's properties *)
(* ===================================================================== *)

Module HitBTCSpec.
Import Py HitBTC.


(** The (price, size) an entry of a book frame decodes to. *)
Definition decode_entry (E : env) (entry : json) : res (Qc * Qc) :=
  match getitem entry "price" with
  | Ok p =>
      match Decimal E p with
      | Ok price =>
          match getitem entry "size" with
          | Ok s => match Decimal E s with
                    | Ok size => Ok (price, size)
                    | Raise e => Raise e
                    end
          | Raise e => Raise e
          end
      | Raise e => Raise e
      end
  | Raise e => Raise e
  end.

(** The entries of side [sd] of a frame decode to [pss]. *)
Definition side_decodes (E : env) (msg : json) (sd : side) (pss : list (Qc * Qc)) : Prop :=
  exists es entries,
    getitem msg (side_key sd) = Ok es /\
    iter es = Ok entries /\
    Forall2 (fun entry ps => decode_entry E entry = Ok ps) entries pss.

(** A delta entry on a price-to-size map: size 0 deletes, any other size
    upserts. *)
Definition apply_level (ps : Qc * Qc) (m : gmap Qc Qc) : gmap Qc Qc :=
  if bool_decide (ps.2 = 0%Qc) then delete ps.1 m else <[ps.1 := ps.2]> m.

Definition apply_levels (pss : list (Qc * Qc)) (m : gmap Qc Qc) : gmap Qc Qc :=
  fold_left (fun m ps => apply_level ps m) pss m.

(** No price level of size 0 in any book. *)
Definition no_empty_level (st : t) : Prop :=
  forall pair b sd price,
    l2_book st !! pair = Some b -> levels sd b !! price <> Some 0%Qc.

(** Every entry of [params] that decodes a size decodes a non-zero one. *)
Definition side_sizes_nonzero (E : env) (params : json) (sd : side) : bool :=
  match getitem params (side_key sd) with
  | Ok es =>
      match iter es with
      | Ok entries =>
          forallb (fun entry =>
                     match getitem entry "size" with
                     | Ok s => match Decimal E s with
                               | Ok size => negb (bool_decide (size = 0%Qc))
                               | Raise _ => true
                               end
                     | Raise _ => true
                     end) entries
      | Raise _ => true
      end
  | Raise _ => true
  end.

Definition sizes_nonzero (E : env) (params : json) : bool :=
  side_sizes_nonzero E params BID && side_sizes_nonzero E params ASK.

(** A frame is admissible when, if it is a snapshot frame, none of its
    entries has size 0. *)
Definition admissible (E : env) (msg : json) : bool :=
  match getitem msg "method", getitem msg "params" with
  | Ok m, Ok params => negb (eq_str m "snapshotOrderbook") || sizes_nonzero E params
  | _, _ => true
  end.

(** The adapter fed a sequence of frames, each with its receipt time; the
    adapter object lives on whatever a frame's handling returns or raises. *)
Fixpoint feed (E : env) (frames : list (json * float)) (st : t) : t :=
  match frames with
  | [] => st
  | (msg, timestamp) :: frames' => feed E frames' (message_handler E msg timestamp st).2
  end.

Definition known_method (m : json) : bool :=
  eq_str m "ticker" || eq_str m "snapshotOrderbook" || eq_str m "updateOrderbook"
  || eq_str m "updateTrades" || eq_str m "snapshotTrades".

(** The frames the dispatch of [message_handler] logs and drops, with the
    log record each leaves. *)
Inductive dropped (msg : json) : log_record -> Prop :=
| dropped_method m :
    contains "method" msg = Ok true ->
    getitem msg "method" = Ok m ->
    known_method m = false ->
    dropped msg (LogWarning "Invalid message received")
| dropped_channel c :
    contains "method" msg = Ok false ->
    contains "channel" msg = Ok true ->
    getitem msg "channel" = Ok c ->
    eq_str c "ticker" = false ->
    dropped msg (LogWarning "Invalid message received")
| dropped_error :
    contains "method" msg = Ok false ->
    contains "channel" msg = Ok false ->
    contains "error" msg = Ok true ->
    dropped msg (LogError "Received error from server")
| dropped_empty_result r :
    contains "method" msg = Ok false ->
    contains "channel" msg = Ok false ->
    contains "error" msg = Ok false ->
    getitem msg "result" = Ok r ->
    truthy r = false ->
    dropped msg (LogError "Received error from server").

(** The values [in] cannot be asked of: null, booleans and numbers. *)
Definition scalar (p : json) : bool :=
  match p with
  | JNull | JBool _ | JNum _ => true
  | _ => false
  end.

(** A frame whose [params] is null, a boolean or a number. *)
Definition scalar_params (msg : json) : Prop :=
  exists p, contains "params" msg = Ok true /\ getitem msg "params" = Ok p /\
            scalar p = true.

(** The sequence test of [message_handler] is false: no [params] member,
    or one that does not hold [sequence]. *)
Definition no_sequence (msg : json) : Prop :=
  contains "params" msg = Ok false \/
  exists p, contains "params" msg = Ok true /\ getitem msg "params" = Ok p /\
            contains "sequence" p = Ok false.

(** A frame of an unknown method whose [params] is null. *)
Definition pong_null : json := JDict [("method", JStr "pong"); ("params", JNull)].

(** The trade event an entry of a trade batch is reported as. *)
Definition trade_of (E : env) (pair : string) (update : json) (e : event) : Prop :=
  exists p price q quantity s order_id ts timestamp,
    getitem update "price" = Ok p /\ Decimal E p = Ok price /\
    getitem update "quantity" = Ok q /\ Decimal E q = Ok quantity /\
    getitem update "side" = Ok s /\
    getitem update "id" = Ok order_id /\
    getitem update "timestamp" = Ok ts /\ timestamp_normalize E ts = Ok timestamp /\
    e = Trade pair (if eq_str s "buy" then BUY else SELL) quantity price order_id
          timestamp timestamp.

Definition receipt_timestamp_of (e : event) : float :=
  match e with
  | Ticker _ _ _ _ r => r
  | Trade _ _ _ _ _ _ r => r
  | BookUpdate _ _ _ _ _ r => r
  end.

Definition with_log (st : t) (l : list log_record) : t :=
  {| seq_no := seq_no st; l2_book := l2_book st; emitted := emitted st; log := l |}.

Definition with_emitted (st : t) (evs : list event) : t :=
  {| seq_no := seq_no st; l2_book := l2_book st; emitted := evs; log := log st |}.

(** A method keeps a property of the adapter object, whether it returns or
    raises. *)
Definition preserves {A} (P : t -> Prop) (m : M t A) : Prop :=
  forall st, P st -> P (m st).2.

(** Scenario A of the specification. *)
Definition snapshot_A : json :=
  Sample.frame "snapshotOrderbook" 1 [Sample.level 100 1] [Sample.level 101 2].
Definition delta_A : json :=
  Sample.frame "updateOrderbook" 2 [] [Sample.level 101 0].

(** A snapshot that lists a level of size 0. *)
Definition snapshot_zero : json :=
  Sample.frame "snapshotOrderbook" 1 [Sample.level 100 1] [Sample.level 101 0].


(** A frame of an unknown method that carries a sequence number. *)
Definition heartbeat : json := Sample.frame "heartbeat" 7 [] [].

(** A frame of an unknown method without parameters. *)
Definition pong : json := JDict [("jsonrpc", JStr "2.0"); ("method", JStr "pong")].

(** A frame that skips sequence numbers 2 to 4 after [snapshot_A]. *)
Definition delta_gap : json :=
  Sample.frame "updateOrderbook" 5 [] [Sample.level 101 0].

(** A trade batch of two entries. *)
Definition trades_params : json :=
  JDict [("symbol", JStr "BTCUSD");
         ("data", JList [
            JDict [("id", JNum (dec 1)); ("price", JNum (dec 100));
                   ("quantity", JNum (dec 2)); ("side", JStr "buy");
                   ("timestamp", JNum (dec 5000))];
            JDict [("id", JNum (dec 2)); ("price", JNum (dec 101));
                   ("quantity", JNum (dec 3)); ("side", JStr "sell");
                   ("timestamp", JNum (dec 7000))]])].

Definition trades_frame : json :=
  JDict [("method", JStr "updateTrades"); ("params", trades_params)].

(** ** Further vocabulary *)

(** A snapshot entry on a price-to-size map: the size is stored as given. *)
Definition store_levels (pss : list (Qc * Qc)) (m : gmap Qc Qc) : gmap Qc Qc :=
  fold_left (fun m ps => <[ps.1 := ps.2]> m) pss m.

(** The size of the last entry for [price] in a list of entries. *)
Fixpoint last_size (price : Qc) (pss : list (Qc * Qc)) : option Qc :=
  match pss with
  | [] => None
  | ps :: pss' =>
      match last_size price pss' with
      | Some s => Some s
      | None => if bool_decide (ps.1 = price) then Some ps.2 else None
      end
  end.


(** A frame with no method, channel or error member. *)
Definition plain_envelope (msg : json) : Prop :=
  contains "method" msg = Ok false /\
  contains "channel" msg = Ok false /\
  contains "error" msg = Ok false.

(** What the accumulators of [_parse_symbol_data] satisfy after every symbol. *)
Definition well_keyed (sep : string) (acc : symbols) : Prop :=
  (forall k v, acc.1 !! k = Some v ->
               exists n, k = str_take n v +:+ sep +:+ str_drop n v) /\
  (forall k, is_Some (acc.1 !! k) <->
             exists ticks, acc.2 !! "tick_size" = Some ticks /\ is_Some (ticks !! k)) /\
  (forall k, k <> "tick_size" -> acc.2 !! k = None).

(** The symbol list of the exchange, as [_parse_symbol_data] reads it. *)
Definition symbol_data : json :=
  JList [ JDict [("id", JStr "BTCUSD"); ("baseCurrency", JStr "BTC");
                 ("quoteCurrency", JStr "USD"); ("tickSize", JStr "0.01")];
          JDict [("id", JStr "DOGEBTC"); ("baseCurrency", JStr "DOGE");
                 ("quoteCurrency", JStr "BTC"); ("tickSize", JStr "0.0000000001")] ].

(** Scenario C of the specification. *)
Definition scenario_C : list (string * list string) :=
  [("subscribeTrades", ["BTCUSD"; "ETHUSD"]); ("subscribeTicker", ["BTCUSD"])].

(** The (channel, symbol) pairs of a subscription, in the order [subscribe]
    visits them. *)
Definition requests (subscription : list (string * list string)) : list (string * string) :=
  flat_map (fun entry => map (fun pair => (entry.1, pair)) entry.2) subscription.

(** A ticker frame in each of the two wire shapes. *)
Definition ticker_params : json :=
  JDict [("ask", JStr "101"); ("bid", JStr "100"); ("symbol", JStr "BTCUSD");
         ("timestamp", JNum (dec 5000))].
Definition ticker_method_frame : json :=
  JDict [("method", JStr "ticker"); ("params", ticker_params)].
Definition ticker_channel_frame : json :=
  JDict [("channel", JStr "ticker"); ("data", ticker_params)].

(** A subscription acknowledgement. *)
Definition ack_frame : json := JDict [("result", JBool true); ("id", JStr "hitbtc.ws.0")].

End HitBTCSpec.

(* ===================================================================== *)
(** * Vocabulary of the channels' properties *)
(* ===================================================================== *)

Module ConnectionSpec.
Import Py Connection.

(** A process that has built no connection yet. *)
Definition world0 (callback : bool) : world :=
  {| conn_count := 0; raw_data_callback := callback; next_handle := 0; trace := [] |}.

Definition with_trace (w : world) (tr : list io) : world :=
  {| conn_count := conn_count w; raw_data_callback := raw_data_callback w;
     next_handle := next_handle w; trace := tr |}.

(** The debug records of the rate-limit headers a response carries. *)
Definition weight_logs (r : response) : list io :=
  flat_map (fun name => if has_header name (headers r)
                        then [Log Debug "used weight"] else [])
    ["x-mbx-used-weight"; "x-mbx-used-weight-1m"; "X-MBX-USED-WEIGHT-1M"].

(** The call of the raw-data callback, when one is set. *)
Definition sink (w : world) (e : io) : list io :=
  if raw_data_callback w then [e] else [].

(** The channel after a read that arrived at [now]. *)
Definition after_read (now : float) (self : AsyncConnection) : AsyncConnection :=
  {| id := id self; received := received self + 1; sent := sent self;
     last_message := Some now; conn := conn self |}.

Definition after_write (self : AsyncConnection) : AsyncConnection :=
  {| id := id self; received := received self; sent := sent self + 1;
     last_message := last_message self; conn := conn self |}.

(** The channel and the process after [HTTPAsyncConn._open] on a closed
    channel. *)
Definition opened (self : AsyncConnection) (w : world) : St :=
  ({| id := id self; received := 0; sent := 0; last_message := last_message self;
      conn := Some {| handle := next_handle w; closed := false |} |},
   {| conn_count := conn_count w; raw_data_callback := raw_data_callback w;
      next_handle := S (next_handle w);
      trace := trace w ++ [Log Debug "create HTTP session"; NewSession (next_handle w)] |}).

(** ** Construction *)

Inductive kind : Type :=
| Http
| Throttled
| Poll
| Ws (address : string).

(** A connection of kind [k] built with base [conn_id]. *)
Definition construct (k : kind) (conn_id : string) (w : world) : res (AsyncConnection * world) :=
  match k with
  | Http => Ok (HTTPAsyncConn.init conn_id w)
  | Throttled =>
      Ok (ThrottledHTTPAsyncConn.init conn_id ThrottledHTTPAsyncConn.Infinity 60 w).2
  | Poll => Ok (HTTPPoll.init [] conn_id 60%Q 1%Q w).2
  | Ws address =>
      match WSAsyncConn.init address conn_id w with
      | Ok x => Ok x.2
      | Raise e => Raise e
      end
  end.

(** The ids of the connections built one after the other. *)
Fixpoint construct_all (reqs : list (kind * string)) (w : world) : list (res string) :=
  match reqs with
  | [] => []
  | (k, conn_id) :: reqs' =>
      match construct k conn_id w with
      | Ok (self, w') => Ok (id self) :: construct_all reqs' w'
      | Raise e => Raise e :: construct_all reqs' w
      end
  end.

Definition buildable (k : kind) : bool :=
  match k with
  | Ws address => String.prefix "wss://" address
  | _ => true
  end.

(** The id of a connection of kind [k] built when the shared counter is [n]. *)
Definition id_at (k : kind) (conn_id : string) (n : N) : string :=
  match k with
  | Http | Throttled => conn_id +:+ ".http." +:+ pretty n
  | Poll => (conn_id +:+ ".http." +:+ pretty n) +:+ ".http." +:+ pretty n
  | Ws _ => conn_id +:+ ".ws." +:+ pretty n
  end.

(** ** Throttling *)

Record call : Type := {
  c_weight : N;
  c_clock : ThrottledHTTPAsyncConn.clock;
  c_response : response
}.

(** What a throttled read did: its weight and, if it slept, for how long it
    asked to. *)
Record outcome : Type := {
  o_weight : N;
  o_wait : option float;
  o_clock : ThrottledHTTPAsyncConn.clock
}.

(** Reads issued one after the other on one channel. *)
Fixpoint outcomes (address : string) (calls : list call) (s : ThrottledHTTPAsyncConn.TSt)
  : list outcome :=
  match calls with
  | [] => []
  | c :: calls' =>
      {| o_weight := c_weight c;
         o_wait := match (ThrottledHTTPAsyncConn.admission (c_weight c) (c_clock c) s).1 with
                   | Ok w => w
                   | Raise _ => None
                   end;
         o_clock := c_clock c |}
      :: outcomes address calls'
           (ThrottledHTTPAsyncConn.read address false (c_weight c) (c_response c)
              (c_clock c) s).2
  end.

Fixpoint final (address : string) (calls : list call) (s : ThrottledHTTPAsyncConn.TSt)
  : ThrottledHTTPAsyncConn.TSt :=
  match calls with
  | [] => s
  | c :: calls' =>
      final address calls'
        (ThrottledHTTPAsyncConn.read address false (c_weight c) (c_response c)
           (c_clock c) s).2
  end.

(** Total weight of the reads that went through without sleeping. *)
Fixpoint accepted (out : list outcome) : N :=
  match out with
  | [] => 0
  | o :: out' => match o_wait o with Some _ => 0 | None => o_weight o end + accepted out'
  end.

(** All reads enter in the minute that ends at [boundary]. *)
Definition same_minute (boundary : Z) (calls : list call) : Prop :=
  Forall (fun c => ThrottledHTTPAsyncConn.next_minute
                     (ThrottledHTTPAsyncConn.now (c_clock c)) = boundary) calls.

(** [asyncio.sleep(d)] returns no earlier than [d] after the reading taken
    for it, and the delegated read comes after the sleep. *)
Definition slept_long_enough (o : outcome) : Prop :=
  forall d, o_wait o = Some d ->
    (ThrottledHTTPAsyncConn.t_wait (o_clock o) + d
       <= ThrottledHTTPAsyncConn.t_wake (o_clock o))%Q /\
    (ThrottledHTTPAsyncConn.t_wake (o_clock o)
       <= ThrottledHTTPAsyncConn.t_read (o_clock o))%Q.

(** A read begins after the one before it has ended. *)
Fixpoint in_order (calls : list call) : Prop :=
  match calls with
  | c :: calls' =>
      match calls' with
      | c' :: _ => (ThrottledHTTPAsyncConn.t_read (c_clock c)
                      <= ThrottledHTTPAsyncConn.now (c_clock c'))%Q
      | [] => True
      end /\ in_order calls'
  | [] => True
  end.

(** The channel's window as the first of [calls] finds it: unset, ending at
    [boundary], or ended before that read enters. *)
Definition window_fits (boundary : Z) (calls : list call) (th : ThrottledHTTPAsyncConn.t)
  : Prop :=
  match ThrottledHTTPAsyncConn.next_reset th with
  | None => True
  | Some r =>
      r = boundary \/
      match calls with
      | c :: _ => (inject_Z r < ThrottledHTTPAsyncConn.now (c_clock c))%Q
      | [] => True
      end
  end.

Definition ok_response : response :=
  {| status := 200; text := "{}"; headers := []; decoded := Some (JDict []) |}.
Definition error_response : response :=
  {| status := 503; text := "Service Unavailable"; headers := []; decoded := None |}.

(** What [process_response] returns for a status that does not raise. *)
Definition sync_result (js tx : bool) (r : response) : res HTTPSync.result :=
  if js then
    match HTTPSync.json_of r with
    | Ok body => Ok (HTTPSync.AsJson body)
    | Raise e => Raise e
    end
  else Ok (if tx then HTTPSync.AsText (text r) else HTTPSync.AsResponse r).

Definition at_second (t : Z) : ThrottledHTTPAsyncConn.clock :=
  {| ThrottledHTTPAsyncConn.now := inject_Z t;
     ThrottledHTTPAsyncConn.t_wait := inject_Z t;
     ThrottledHTTPAsyncConn.t_wake := inject_Z t;
     ThrottledHTTPAsyncConn.t_read := inject_Z t |}.

(** Scenario B of the specification, with the minute boundary T = 600 s: the
    third read wakes at the next boundary, 660 s. *)
Definition scenario_B : list call :=
  [ {| c_weight := 4; c_clock := at_second 601; c_response := ok_response |};
    {| c_weight := 4; c_clock := at_second 602; c_response := ok_response |};
    {| c_weight := 4;
       c_clock := {| ThrottledHTTPAsyncConn.now := 603%Q;
                     ThrottledHTTPAsyncConn.t_wait := 603%Q;
                     ThrottledHTTPAsyncConn.t_wake := 660%Q;
                     ThrottledHTTPAsyncConn.t_read := 660%Q |};
       c_response := ok_response |} ].

Definition throttled_10 : ThrottledHTTPAsyncConn.TSt :=
  ThrottledHTTPAsyncConn.init "rest" (ThrottledHTTPAsyncConn.Finite 10) 60 (world0 false).

(** A read of weight 4 in the minute that ends at T = 600 s, and then two
    reads in the minute that begins there, of weights 5 and 9, the first of
    them at T sharp. *)
Definition before_T : list call :=
  [ {| c_weight := 4; c_clock := at_second 590; c_response := ok_response |} ].

Definition from_T : list call :=
  [ {| c_weight := 5; c_clock := at_second 600; c_response := ok_response |};
    {| c_weight := 9; c_clock := at_second 601; c_response := ok_response |} ].

(** ** Sample channels *)

Definition closed_channel (conn_id : string) : AsyncConnection :=
  {| id := conn_id; received := 0; sent := 0; last_message := None; conn := None |}.

(** An open channel that has sent 3 messages and received 5. *)
Definition busy_channel (conn_id : string) : AsyncConnection :=
  {| id := conn_id; received := 5; sent := 3; last_message := Some 100%Q;
     conn := Some {| handle := 0; closed := false |} |}.

Definition one_address : HTTPPoll.t :=
  {| HTTPPoll.address := ["https://api.example/book"]; HTTPPoll.sleep := 1%Q;
     HTTPPoll.delay := 60%Q |}.

(** ** Further vocabulary *)

(** The items a generator has yielded, and the addresses requested, in order. *)
Definition yields (tr : list io) : list string :=
  omap (fun e => match e with Yield data => Some data | _ => None end) tr.

Definition requested (tr : list io) : list string :=
  omap (fun e => match e with Get _ address => Some address | _ => None end) tr.

(** The frames sent over a websocket, in order. *)
Definition frames_sent (tr : list io) : list string :=
  omap (fun e => match e with WsSend _ data => Some data | _ => None end) tr.

(** How many of the requests can be built. *)
Fixpoint built (reqs : list (kind * string)) : nat :=
  match reqs with
  | [] => 0
  | r :: reqs' => (if buildable r.1 then 1 else 0) + built reqs'
  end.

Definition set_counters (received sent : N) (last : option float) (self : AsyncConnection)
  : AsyncConnection :=
  {| id := id self; received := received; sent := sent; last_message := last;
     conn := conn self |}.

(** A poll of two addresses whose second answers with an error. *)
Definition two_addresses : HTTPPoll.t :=
  {| HTTPPoll.address := ["https://api.example/book"; "https://api.example/down"];
     HTTPPoll.sleep := 1%Q; HTTPPoll.delay := 60%Q |}.

Definition serve_two (address : string) : response * float :=
  if String.eqb address "https://api.example/down" then (error_response, 2%Q)
  else (ok_response, 1%Q).

Definition no_address : HTTPPoll.t :=
  {| HTTPPoll.address := []; HTTPPoll.sleep := 1%Q; HTTPPoll.delay := 60%Q |}.

Definition unthrottled : ThrottledHTTPAsyncConn.TSt :=
  ThrottledHTTPAsyncConn.init "rest" ThrottledHTTPAsyncConn.Infinity 60 (world0 false).

(** The sleeps a generator asked for, in order. *)
Definition slept (tr : list io) : list float :=
  omap (fun e => match e with Sleep d => Some d | _ => None end) tr.

(** What one write on an open websocket does to the outside. *)
Definition ws_send_io (w : world) (self : AsyncConnection) (address : string) (now : float)
    (data : string) : list io :=
  sink w (RawData (Some data) now (id self) (Send address)) ++ [WsSend (handle_of self) data].

(** What the arrival of one frame on an open websocket does to the outside. *)
Definition ws_receive_io (w : world) (self : AsyncConnection) (frame : string * float)
  : list io :=
  sink w (RawData (Some frame.1) frame.2 (id self) NoContext) ++ [Yield frame.1].

(** The arrival time of the last of [frames], or [before] if there is none. *)
Definition last_arrival (frames : list (string * float)) (before : option float)
  : option float :=
  match last frames with Some f => Some f.2 | None => before end.

(** What the poll of one address that answers below 400 does to the outside. *)
Definition poll_io (p : HTTPPoll.t) (serve : string -> response * float) (w : world)
    (self : AsyncConnection) (addr : string) : list io :=
  [Log Debug "polling"; Get (handle_of self) addr]
  ++ sink w (RawData (Some (text (serve addr).1)) (serve addr).2 (id self) (Endpoint addr None))
  ++ [Yield (text (serve addr).1); Sleep (HTTPPoll.sleep p)].

(** What [WSAsyncConn._open] on a closed channel does to the outside. *)
Definition ws_connect_io (w : world) (self : AsyncConnection) (address : string) (now : float)
  : list io :=
  [Log Debug "connecting"] ++ sink w (RawData None now (id self) (Connect address))
  ++ [WsConnect address (next_handle w)].

Definition total_weight (calls : list call) : N :=
  foldr (fun c n => (c_weight c + n)%N) 0%N calls.

End ConnectionSpec.

(* ===================================================================== *)
(** * Properties of the Python vocabulary *)
(* ===================================================================== *)

Module PyProps.
Import Py.

(** A loop over a concatenation runs the first part and, unless that raised,
    goes on with the second. *)
Lemma for_each_app {S A B} (body : A -> B -> M S B) (xs ys : list A) (acc : B) (s : S) :
  for_each body (xs ++ ys) acc s
  = match for_each body xs acc s with
    | (Ok b, s') => for_each body ys b s'
    | (Raise e, s') => (Raise e, s')
    end.
Proof.
  revert acc s. induction xs as [|x xs IH]; intros acc s; [done|].
  cbn [app for_each]. unfold bind. destruct (body x acc s) as [[b|e] s']; [|done].
  apply IH.
Qed.

(** ** Decimal addition *)










End PyProps.

(* ===================================================================== *)
(** * Properties of the adapter *)
(* ===================================================================== *)

Module HitBTCProps.
Import Py HitBTC HitBTCSpec PyProps.

#[local] Arguments decimal_add : simpl never.

Ltac munfold :=
  unfold emit, write_log, set_book, set_seq_no, book_of;
  unfold bind, lift, ret, raise, modify, get.

Lemma bind_lift_ok {S A B} (r : res A) (a : A) (k : A -> M S B) (st : S) :
  r = Ok a -> bind (lift r) k st = k a st.
Proof. intros ->. reflexivity. Qed.

Lemma bind_lift_raise {S A B} (r : res A) (e : exn) (k : A -> M S B) (st : S) :
  r = Raise e -> bind (lift r) k st = (Raise e, st).
Proof. intros ->. reflexivity. Qed.




Lemma levels_set_levels sd m b : levels sd (set_levels sd m b) = m.
Proof. by destruct sd. Qed.

Lemma set_levels_set_levels sd m m' b :
  set_levels sd m' (set_levels sd m b) = set_levels sd m' b.
Proof. by destruct sd. Qed.

Lemma set_levels_levels sd b : set_levels sd (levels sd b) b = b.
Proof. by destruct sd, b. Qed.

Lemma levels_set_levels_other sd sd' m b :
  sd <> sd' -> levels sd' (set_levels sd m b) = levels sd' b.
Proof. by destruct sd, sd'. Qed.

(** One entry of an incremental frame, when it decodes and the symbol has a
    book. *)
Lemma book_entry_decoded (E : env) (pair : string) (sd : side) (entry : json)
    (ps : Qc * Qc) (d : delta) (b : book) (st : t) :
  decode_entry E entry = Ok ps ->
  l2_book st !! pair = Some b ->
  exists st',
    book_entry E pair sd entry d st = (Ok (delta_append sd ps d), st') /\
    l2_book st' = <[pair := set_levels sd (apply_level ps (levels sd b)) b]> (l2_book st) /\
    seq_no st' = seq_no st /\ emitted st' = emitted st /\ log st' = log st.
Proof.
  unfold decode_entry, book_entry. intros Hd Hb. munfold.
  destruct (getitem entry "price") as [p|]; [|done]. cbn.
  destruct (Decimal E p) as [price|]; [|done]. cbn.
  destruct (getitem entry "size") as [s|]; [|done]. cbn.
  destruct (Decimal E s) as [size|]; [|done]. cbn.
  injection Hd as <-. unfold apply_level. cbn.
  case_bool_decide as Hz.
  - subst size. rewrite Hb. case_bool_decide as Hin; cbn.
    + eexists. split; [reflexivity|]. done.
    + eexists. split; [reflexivity|]. repeat split.
      rewrite delete_id, set_levels_levels, insert_id; try done.
      destruct (levels sd b !! price) eqn:Hl; [|done]. destruct Hin. by eexists.
  - rewrite Hb. cbn. eexists. split; [reflexivity|]. done.
Qed.

Lemma book_entries_decoded (E : env) (pair : string) (sd : side) (entries : list json)
    (pss : list (Qc * Qc)) :
  Forall2 (fun entry ps => decode_entry E entry = Ok ps) entries pss ->
  forall (d : delta) (b : book) (st : t),
  l2_book st !! pair = Some b ->
  exists st',
    for_each (book_entry E pair sd) entries d st
      = (Ok (fold_left (fun d ps => delta_append sd ps d) pss d), st') /\
    l2_book st' = <[pair := set_levels sd (apply_levels pss (levels sd b)) b]> (l2_book st) /\
    seq_no st' = seq_no st /\ emitted st' = emitted st /\ log st' = log st.
Proof.
  induction 1 as [|entry ps entries pss Hd _ IH]; intros d b st Hb.
  - exists st. cbn. rewrite set_levels_levels, insert_id by done. done.
  - destruct (book_entry_decoded E pair sd entry ps d b st Hd Hb)
      as (st1 & Hrun & Hbook & Hseq & Hem & Hlog).
    destruct (IH (delta_append sd ps d) (set_levels sd (apply_level ps (levels sd b)) b) st1)
      as (st' & Hrun' & Hbook' & Hseq' & Hem' & Hlog').
    { rewrite Hbook. apply lookup_insert_eq. }
    exists st'. split.
    + cbn. unfold bind at 1. rewrite Hrun. exact Hrun'.
    + rewrite Hbook', Hbook, insert_insert_eq, levels_set_levels, set_levels_set_levels.
      repeat split; congruence.
Qed.






(** ** Preservation of a property of the adapter object *)

Lemma preserves_ret {A} P (a : A) : preserves P (ret a).
Proof. by intros st. Qed.

Lemma preserves_raise {A} P e : preserves P (@raise t A e).
Proof. by intros st. Qed.

Lemma preserves_lift {A} P (r : res A) : preserves P (lift r).
Proof. by intros st. Qed.

Lemma preserves_get P : preserves P get.
Proof. by intros st. Qed.

Lemma preserves_bind {A B} P (m : M t A) (k : A -> M t B) :
  preserves P m -> (forall a, preserves P (k a)) -> preserves P (bind m k).
Proof.
  intros Hm Hk st HP. unfold bind. specialize (Hm st HP).
  destruct (m st) as [[a|e] st']; cbn in *; [by apply Hk | done].
Qed.

Lemma preserves_for_each {A B} P (body : A -> B -> M t B) (xs : list A) :
  (forall x acc, x ∈ xs -> preserves P (body x acc)) ->
  forall acc, preserves P (for_each body xs acc).
Proof.
  induction xs as [|x xs IH]; intros Hbody acc; cbn.
  - apply preserves_ret.
  - apply preserves_bind.
    + apply Hbody. left.
    + intros a. apply IH. intros y acc' Hy. apply Hbody. by right.
Qed.

Lemma preserves_book_of {B} P pair (k : book -> M t B) :
  (forall b st, l2_book st !! pair = Some b -> P st -> P (k b st).2) ->
  preserves P (bind (book_of pair) k).
Proof.
  intros Hk st HP. unfold bind, book_of.
  destruct (l2_book st !! pair) as [b|] eqn:Hb; [by apply Hk | done].
Qed.

Lemma no_empty_level_other st st' :
  l2_book st' = l2_book st -> no_empty_level st -> no_empty_level st'.
Proof. unfold no_empty_level. intros ->. done. Qed.

Lemma no_empty_level_set_book pair b st :
  (forall sd price, levels sd b !! price <> Some 0%Qc) ->
  no_empty_level st -> no_empty_level (set_book pair b st).2.
Proof.
  intros Hb Hst pair' b' sd price. cbn.
  destruct (decide (pair = pair')) as [<-|Hne].
  - rewrite lookup_insert_eq. intros [= <-]. apply Hb.
  - rewrite lookup_insert_ne by done. apply Hst.
Qed.

Lemma levels_delete_nonzero sd sd' b price price' :
  (forall sd price, levels sd b !! price <> Some 0%Qc) ->
  levels sd' (set_levels sd (delete price (levels sd b)) b) !! price' <> Some 0%Qc.
Proof.
  intros Hb. destruct (decide (sd = sd')) as [<-|Hne].
  - rewrite levels_set_levels. destruct (decide (price = price')) as [<-|Hp].
    + by rewrite lookup_delete_eq.
    + rewrite lookup_delete_ne by done. apply Hb.
  - rewrite levels_set_levels_other by done. apply Hb.
Qed.

Lemma levels_insert_nonzero sd sd' b price size price' :
  size <> 0%Qc ->
  (forall sd price, levels sd b !! price <> Some 0%Qc) ->
  levels sd' (set_levels sd (<[price := size]> (levels sd b)) b) !! price' <> Some 0%Qc.
Proof.
  intros Hs Hb. destruct (decide (sd = sd')) as [<-|Hne].
  - rewrite levels_set_levels. destruct (decide (price = price')) as [<-|Hp].
    + rewrite lookup_insert_eq. congruence.
    + rewrite lookup_insert_ne by done. apply Hb.
  - rewrite levels_set_levels_other by done. apply Hb.
Qed.

(** Whatever the entry holds, the body of the incremental loop keeps books
    free of levels of size 0. *)
Lemma book_entry_no_empty_level E pair sd entry d :
  preserves no_empty_level (book_entry E pair sd entry d).
Proof.
  unfold book_entry.
  apply preserves_bind; [apply preserves_lift | intros p].
  apply preserves_bind; [apply preserves_lift | intros price].
  apply preserves_bind; [apply preserves_lift | intros s].
  apply preserves_bind; [apply preserves_lift | intros size].
  case_bool_decide as Hz; apply preserves_book_of; intros b st Hb Hst.
  - case_bool_decide; cbn; [|done].
    apply (no_empty_level_set_book pair _ st); [|done].
    intros sd' price'. apply levels_delete_nonzero. intros ??. by eapply Hst.
  - cbn. apply (no_empty_level_set_book pair _ st); [|done].
    intros sd' price'. apply levels_insert_nonzero; [done|]. intros ??. by eapply Hst.
Qed.

Lemma preserves_emit P e :
  (forall st st', l2_book st' = l2_book st -> P st -> P st') -> preserves P (emit e).
Proof. intros HP st Hst. eapply HP; [|exact Hst]. reflexivity. Qed.

Lemma preserves_write_log P r :
  (forall st st', l2_book st' = l2_book st -> P st -> P st') -> preserves P (write_log r).
Proof. intros HP st Hst. eapply HP; [|exact Hst]. reflexivity. Qed.

Lemma book_no_empty_level E msg timestamp :
  preserves no_empty_level (_book E msg timestamp).
Proof.
  unfold _book.
  apply preserves_bind; [apply preserves_lift | intros sym].
  apply preserves_bind; [apply preserves_lift | intros pair].
  apply preserves_bind.
  - apply preserves_for_each. intros sd d _. unfold book_side.
    apply preserves_bind; [apply preserves_lift | intros es].
    apply preserves_bind; [apply preserves_lift | intros entries].
    apply preserves_for_each. intros entry d' _. apply book_entry_no_empty_level.
  - intros d. apply preserves_bind.
    + intros st Hst. unfold book_of. by destruct (l2_book st !! pair).
    + intros b. apply preserves_emit, no_empty_level_other.
Qed.

Lemma forallb_elem_of {A} (f : A -> bool) (l : list A) (x : A) :
  forallb f l = true -> x ∈ l -> f x = true.
Proof.
  intros H Hx. rewrite forallb_forall in H. apply H. by apply list_elem_of_In.
Qed.

Lemma snapshot_side_no_empty_level E pair msg sd u :
  side_sizes_nonzero E msg sd = true ->
  preserves no_empty_level (snapshot_side E pair msg sd u).
Proof.
  unfold side_sizes_nonzero, snapshot_side. intros Hnz st Hst. unfold bind at 1, lift at 1.
  destruct (getitem msg (side_key sd)) as [es|]; [|done].
  unfold bind at 1, lift at 1.
  destruct (iter es) as [entries|]; [|done].
  revert st Hst. apply preserves_for_each. intros entry [] Hin.
  pose proof (forallb_elem_of _ _ _ Hnz Hin) as Hentry. cbn beta in Hentry.
  unfold snapshot_entry.
  apply preserves_bind; [apply preserves_lift | intros p].
  apply preserves_bind; [apply preserves_lift | intros price].
  intros st Hst. unfold bind at 1, lift at 1.
  destruct (getitem entry "size") as [s|]; [|done].
  unfold bind at 1, lift at 1.
  destruct (Decimal E s) as [size|]; [|done].
  apply negb_true_iff, bool_decide_eq_false in Hentry.
  revert st Hst. apply preserves_book_of. intros b st Hb Hst.
  apply (no_empty_level_set_book pair _ st); [|done].
  intros sd' price'. apply levels_insert_nonzero; [done|]. intros ??. by eapply Hst.
Qed.

Lemma snapshot_no_empty_level E msg timestamp :
  sizes_nonzero E msg = true ->
  preserves no_empty_level (_snapshot E msg timestamp).
Proof.
  unfold sizes_nonzero. intros [Hb Ha]%andb_true_iff. unfold _snapshot.
  apply preserves_bind; [apply preserves_lift | intros sym].
  apply preserves_bind; [apply preserves_lift | intros pair].
  apply preserves_bind.
  { intros st Hst. apply (no_empty_level_set_book pair _ st); [|done].
    intros [] price; cbn; by rewrite lookup_empty. }
  intros _. apply preserves_bind.
  - apply preserves_for_each. intros sd [] _.
    destruct sd; by apply snapshot_side_no_empty_level.
  - intros _. apply preserves_bind.
    + intros st Hst. unfold book_of. by destruct (l2_book st !! pair).
    + intros b. apply preserves_emit, no_empty_level_other.
Qed.

Lemma ticker_keeps_books P E msg timestamp :
  (forall st st', l2_book st' = l2_book st -> P st -> P st') ->
  preserves P (_ticker E msg timestamp).
Proof.
  intros HP. unfold _ticker.
  repeat (apply preserves_bind; [apply preserves_lift | intros ?]).
  by apply preserves_emit.
Qed.

Lemma trades_keeps_books P E msg timestamp :
  (forall st st', l2_book st' = l2_book st -> P st -> P st') ->
  preserves P (_trades E msg timestamp).
Proof.
  intros HP. unfold _trades.
  repeat (apply preserves_bind; [apply preserves_lift | intros ?]).
  apply preserves_bind; [|intros; apply preserves_ret].
  apply preserves_for_each. intros update ts _. unfold trade_entry.
  repeat (apply preserves_bind; [apply preserves_lift | intros ?]).
  apply preserves_bind; [by apply preserves_emit | intros; apply preserves_ret].
Qed.

Lemma check_sequence_keeps_books msg st :
  l2_book (check_sequence msg st).2 = l2_book st /\
  emitted (check_sequence msg st).2 = emitted st.
Proof.
  unfold check_sequence. munfold.
  destruct (carries_sequence msg) as [[]|]; cbn; [|done..].
  destruct (getitem msg "params") as [params|]; cbn; [|done].
  destruct (getitem params "symbol") as [pair|]; cbn; [|done].
  destruct (hash_key pair) as [k|]; cbn; [|done].
  destruct (seq_no st !! k) as [last|]; cbn.
  - destruct (add1 last) as [next|]; cbn; [|done].
    destruct (getitem params "sequence") as [s|]; cbn; [|done].
    destruct (num_ne next s); cbn; done.
  - destruct (getitem params "sequence") as [s|]; cbn; done.
Qed.

Lemma message_handler_no_empty_level E msg timestamp :
  admissible E msg = true ->
  preserves no_empty_level (message_handler E msg timestamp).
Proof.
  intros Hadm. unfold message_handler. apply preserves_bind.
  { intros st. apply no_empty_level_other, check_sequence_keeps_books. }
  intros _. unfold dispatch, admissible in *.
  apply preserves_bind; [apply preserves_lift | intros [|]].
  - intros st Hst. unfold bind at 1, lift at 1.
    destruct (getitem msg "method") as [m|]; [|done].
    destruct (eq_str m "ticker").
    { revert st Hst. apply preserves_bind; [apply preserves_lift | intros params].
      apply ticker_keeps_books, no_empty_level_other. }
    destruct (eq_str m "snapshotOrderbook").
    { unfold bind at 1, lift at 1. destruct (getitem msg "params") as [params|]; [|done].
      by apply snapshot_no_empty_level. }
    destruct (eq_str m "updateOrderbook").
    { revert st Hst. apply preserves_bind; [apply preserves_lift | intros params].
      apply book_no_empty_level. }
    destruct (eq_str m "updateTrades" || eq_str m "snapshotTrades").
    { revert st Hst. apply preserves_bind; [apply preserves_lift | intros params].
      apply trades_keeps_books, no_empty_level_other. }
    revert st Hst. apply preserves_write_log, no_empty_level_other.
  - apply preserves_bind; [apply preserves_lift | intros [|]].
    + apply preserves_bind; [apply preserves_lift | intros c].
      destruct (eq_str c "ticker").
      * apply preserves_bind; [apply preserves_lift | intros data].
        apply ticker_keeps_books, no_empty_level_other.
      * apply preserves_write_log, no_empty_level_other.
    + apply preserves_bind; [apply preserves_lift | intros has_error].
      apply preserves_bind.
      * destruct has_error; [apply preserves_ret|].
        apply preserves_bind; [apply preserves_lift | intros; apply preserves_ret].
      * intros [|]; [apply preserves_write_log, no_empty_level_other | apply preserves_ret].
Qed.

Lemma feed_no_empty_level E frames :
  forall st,
  forallb (fun f => admissible E f.1) frames = true ->
  no_empty_level st -> no_empty_level (feed E frames st).
Proof.
  induction frames as [|[msg ts] frames IH]; intros st Hadm Hst; [done|].
  cbn in Hadm. apply andb_true_iff in Hadm as [Hmsg Hrest]. cbn.
  apply IH; [done|]. by apply message_handler_no_empty_level.
Qed.

Lemma no_empty_level_init : no_empty_level init.
Proof.
  intros pair b sd price H. unfold init in H. cbn [l2_book] in H.
  by rewrite lookup_empty in H.
Qed.


(** C4, amended.  The incremental handler keeps every book free of levels of
    size 0 whatever the frame holds; the snapshot handler does so when no
    entry of the snapshot decodes to size 0; hence so does any sequence of
    frames through [message_handler] whose snapshots list no size 0. *)
Theorem no_empty_level_invariant (E : env) (frames : list (json * float)) (st : t) :
  no_empty_level st ->
  forallb (fun f => admissible E f.1) frames = true ->
  (forall msg timestamp, no_empty_level (_book E msg timestamp st).2) /\
  (forall msg timestamp,
     sizes_nonzero E msg = true -> no_empty_level (_snapshot E msg timestamp st).2) /\
  no_empty_level (feed E frames st).
Proof.
  intros Hst Hadm. split; [|split].
  - intros msg ts. by apply book_no_empty_level.
  - intros msg ts Hnz. by apply snapshot_no_empty_level.
  - by apply feed_no_empty_level.
Qed.

(** C4 fails as stated: a snapshot that lists a level of size 0 stores it. *)
Lemma snapshot_stores_empty_level :
  no_empty_level init /\
  (message_handler Sample.E snapshot_zero 0%Q init).1 = Ok tt /\
  ~ no_empty_level (message_handler Sample.E snapshot_zero 0%Q init).2.
Proof.
  split; [apply no_empty_level_init|]. split; [by vm_compute|].
  intros H.
  apply (H "BTC-USD" {| bids := {[dec 100 := dec 1]}; asks := {[dec 101 := 0%Qc]} |}
           ASK (dec 101)); by vm_compute.
Qed.

(** The handler is the sequence check and then, unless that raised, the
    dispatch. *)
Lemma after_check (E : env) (msg : json) (timestamp : float) (st : t) :
  message_handler E msg timestamp st
  = match check_sequence msg st with
    | (Ok _, st1) => dispatch E msg timestamp st1
    | (Raise e, st1) => (Raise e, st1)
    end.
Proof. reflexivity. Qed.

Lemma check_sequence_absent (msg : json) (st : t) :
  carries_sequence msg = Ok false -> check_sequence msg st = (Ok tt, st).
Proof. intros H. unfold check_sequence. by rewrite (bind_lift_ok _ _ _ _ H). Qed.

Lemma check_sequence_fails (msg : json) (e : exn) (st : t) :
  carries_sequence msg = Raise e -> check_sequence msg st = (Raise e, st).
Proof. intros H. unfold check_sequence. by rewrite (bind_lift_raise _ _ _ _ H). Qed.

Lemma carries_sequence_scalar (msg : json) :
  scalar_params msg -> carries_sequence msg = Raise TypeError.
Proof.
  intros (p & Hp & Hg & Hs). unfold carries_sequence. rewrite Hp, Hg.
  by destruct p.
Qed.

Lemma carries_sequence_false (msg : json) :
  carries_sequence msg = Ok false <-> no_sequence msg.
Proof.
  unfold carries_sequence, no_sequence. split.
  - destruct (contains "params" msg) as [[]|] eqn:Hp; [|by left|done].
    destruct (getitem msg "params") as [p|] eqn:Hg; [|done].
    intros Hs. right. by exists p.
  - intros [-> | (p & -> & -> & Hs)]; done.
Qed.

Lemma dispatch_dropped (E : env) (msg : json) (timestamp : float) (r : log_record) (st : t) :
  dropped msg r -> dispatch E msg timestamp st = (Ok tt, with_log st (log st ++ [r])).
Proof.
  intros Hdrop. unfold dispatch.
  destruct Hdrop as [m Hm Hget Hk | c Hm Hc Hget Hk | Hm Hc He | r Hm Hc He Hget Hr];
    rewrite (bind_lift_ok _ _ _ _ Hm).
  - rewrite (bind_lift_ok _ _ _ _ Hget). unfold known_method in Hk.
    repeat (apply orb_false_iff in Hk as [Hk ?]).
    repeat match goal with H : eq_str m _ = false |- _ => rewrite H; clear H end.
    reflexivity.
  - rewrite (bind_lift_ok _ _ _ _ Hc), (bind_lift_ok _ _ _ _ Hget), Hk. reflexivity.
  - rewrite (bind_lift_ok _ _ _ _ Hc), (bind_lift_ok _ _ _ _ He). reflexivity.
  - rewrite (bind_lift_ok _ _ _ _ Hc), (bind_lift_ok _ _ _ _ He).
    unfold bind at 1. unfold bind at 1. unfold lift at 1. rewrite Hget.
    unfold ret at 1. rewrite Hr. reflexivity.
Qed.

(** C5, amended.  For a frame the dispatch drops (unknown method, unknown
    channel, server error, empty result), what happens is decided by the
    sequence test that runs first.  If the test is false, that is the frame
    has no [params] member or one that does not hold [sequence], the handler
    returns without raising and leaves the adapter as it was, but for one
    log record.  If [params] is null, a boolean or a number, the test raises
    [TypeError] and nothing is logged or changed.  In every case the frame
    is logged exactly when the sequence check returns, on the state the
    check left. *)
Theorem dropped_frame_is_logged (E : env) (msg : json) (timestamp : float)
    (r : log_record) (st : t) :
  dropped msg r ->
  (no_sequence msg ->
   message_handler E msg timestamp st = (Ok tt, with_log st (log st ++ [r]))) /\
  (scalar_params msg ->
   message_handler E msg timestamp st = (Raise TypeError, st)) /\
  message_handler E msg timestamp st
  = match check_sequence msg st with
    | (Ok _, st1) => (Ok tt, with_log st1 (log st1 ++ [r]))
    | (Raise e, st1) => (Raise e, st1)
    end.
Proof.
  intros Hdrop. split; [|split].
  - intros Hseq%carries_sequence_false.
    by rewrite after_check, (check_sequence_absent _ _ Hseq), (dispatch_dropped _ _ _ _ _ Hdrop).
  - intros Hseq%carries_sequence_scalar.
    by rewrite after_check, (check_sequence_fails _ _ _ Hseq).
  - rewrite after_check. destruct (check_sequence msg st) as [[[]|e] st1]; [|done].
    by apply dispatch_dropped.
Qed.

(** A dropped frame whose [params] is null is not logged: the handler raises. *)
Lemma null_params_raise :
  dropped pong_null (LogWarning "Invalid message received") /\
  message_handler Sample.E pong_null 0%Q init = (Raise TypeError, init).
Proof.
  split; [|by vm_compute].
  apply (dropped_method pong_null (JStr "pong")); reflexivity.
Qed.

(** C5 fails as stated: a frame of an unknown method that carries a sequence
    number is recorded by the sequence check, and raises when its number
    does not follow the last one. *)
Lemma unknown_method_touches_sequence :
  dropped heartbeat (LogWarning "Invalid message received") /\
  (let r := message_handler Sample.E heartbeat 0%Q init in
   r.1 = Ok tt /\ seq_no r.2 <> seq_no init /\
   seq_no r.2 !! HStr "BTCUSD" = Some (JNum (dec 7))) /\
  (let st3 := (message_handler Sample.E (Sample.frame "heartbeat" 3 [] []) 0%Q init).2 in
   (message_handler Sample.E heartbeat 0%Q st3).1 = Raise MissingSequenceNumber).
Proof.
  split; [|split].
  - by eapply dropped_method.
  - assert (seq_no (message_handler Sample.E heartbeat 0%Q init).2 !! HStr "BTCUSD"
            = Some (JNum (dec 7))) as Hl by (by vm_compute).
    cbv zeta. split; [by vm_compute|]. split; [|done].
    intros Heq. rewrite Heq in Hl. by vm_compute in Hl.
  - by vm_compute.
Qed.


Lemma trade_entry_cases (E : env) (pair : string) (update : json) (timestamp : float) (st : t) :
  (exists e timestamp',
      trade_of E pair update e /\
      trade_entry E pair update timestamp st
        = (Ok timestamp', with_emitted st (emitted st ++ [e]))) \/
  (exists e, trade_entry E pair update timestamp st = (Raise e, st)).
Proof.
  unfold trade_entry, trade_of. munfold.
  destruct (getitem update "price") as [p|] eqn:H1; cbn; [|right; by eexists].
  destruct (Decimal E p) as [price|] eqn:H2; cbn; [|right; by eexists].
  destruct (getitem update "quantity") as [q|] eqn:H3; cbn; [|right; by eexists].
  destruct (Decimal E q) as [quantity|] eqn:H4; cbn; [|right; by eexists].
  destruct (getitem update "side") as [s|] eqn:H5; cbn; [|right; by eexists].
  destruct (getitem update "id") as [order_id|] eqn:H6; cbn; [|right; by eexists].
  destruct (getitem update "timestamp") as [ts|] eqn:H7; cbn; [|right; by eexists].
  destruct (timestamp_normalize E ts) as [ts'|] eqn:H8; cbn; [|right; by eexists].
  left. eexists _, ts'. split; [|reflexivity].
  exists p, price, q, quantity, s, order_id, ts, ts'. by rewrite H2, H4, H8.
Qed.

Lemma trade_entries (E : env) (pair : string) (updates : list json) :
  forall (timestamp : float) (st : t),
  exists reported evs,
    reported `prefix_of` updates /\
    Forall2 (trade_of E pair) reported evs /\
    (for_each (trade_entry E pair) updates timestamp st).2
      = with_emitted st (emitted st ++ evs) /\
    (forall ts', (for_each (trade_entry E pair) updates timestamp st).1 = Ok ts' ->
                 reported = updates).
Proof.
  induction updates as [|u us IH]; intros ts st.
  - exists [], []. cbn. rewrite app_nil_r. by destruct st.
  - cbn [for_each]. unfold bind.
    destruct (trade_entry_cases E pair u ts st) as [(e & ts1 & He & ->)|(e & ->)].
    + destruct (IH ts1 (with_emitted st (emitted st ++ [e])))
        as (reported & evs & Hpre & Hall & Hst & Hok).
      exists (u :: reported), (e :: evs). repeat split.
      * by apply prefix_cons.
      * by constructor.
      * rewrite Hst. cbn. by rewrite <- app_assoc.
      * intros ts' Hts'. f_equal. by eapply Hok.
    + exists [], []. cbn. rewrite app_nil_r. repeat split.
      * apply prefix_nil.
      * constructor.
      * by destruct st.
      * done.
Qed.

(** C10. The events a trade batch emits are, in order, those of the entries
    processed ([trade_of]); each carries the normalized exchange timestamp
    of its own entry both as [timestamp] and as [receipt_timestamp].  The
    receipt time handed to [_trades] has no influence on what it does. *)
Theorem trade_receipt_is_exchange_timestamp (E : env) (msg sym data : json)
    (pair : string) (updates : list json) (timestamp : float) (st : t) :
  getitem msg "symbol" = Ok sym ->
  exchange_symbol_to_std_symbol E sym true = Ok pair ->
  getitem msg "data" = Ok data ->
  iter data = Ok updates ->
  (exists reported evs,
     reported `prefix_of` updates /\
     ((_trades E msg timestamp st).1 = Ok tt -> reported = updates) /\
     (_trades E msg timestamp st).2 = with_emitted st (emitted st ++ evs) /\
     Forall2 (trade_of E pair) reported evs /\
     Forall2 (fun update e =>
                exists ts t, getitem update "timestamp" = Ok ts /\
                             timestamp_normalize E ts = Ok t /\
                             receipt_timestamp_of e = t) reported evs) /\
  (forall timestamp', _trades E msg timestamp' st = _trades E msg timestamp st).
Proof.
  intros Hsym Hpair Hdata Hiter. unfold _trades.
  rewrite (bind_lift_ok _ _ _ _ Hsym). split.
  - rewrite (bind_lift_ok _ _ _ _ Hpair), (bind_lift_ok _ _ _ _ Hdata),
      (bind_lift_ok _ _ _ _ Hiter).
    destruct (trade_entries E pair updates timestamp st)
      as (reported & evs & Hpre & Hall & Hst & Hok).
    exists reported, evs. unfold bind.
    destruct (for_each (trade_entry E pair) updates timestamp st) as [[ts'|e] st'];
      cbn in *.
    + repeat split; try done.
      * intros _. by eapply Hok.
      * eapply Forall2_impl; [exact Hall|].
        intros u e (p & price & q & quantity & s & oid & ts & t & ? & ? & ? & ? & ? & ? & ? & ? & ->).
        by exists ts, t.
    + repeat split; try done.
      eapply Forall2_impl; [exact Hall|].
      intros u e' (p & price & q & quantity & s & oid & ts & t & ? & ? & ? & ? & ? & ? & ? & ? & ->).
      by exists ts, t.
  - intros ts'.
    rewrite ?(bind_lift_ok _ _ _ _ Hsym), !(bind_lift_ok _ _ _ _ Hpair),
      !(bind_lift_ok _ _ _ _ Hdata), !(bind_lift_ok _ _ _ _ Hiter).
    by destruct updates.
Qed.

(** ** The theorems at the sample frames *)



Lemma no_empty_level_invariant_witness :
  no_empty_level (feed Sample.E [(snapshot_A, 0%Q); (delta_A, 1%Q)] init).
Proof.
  refine (proj2 (proj2 (no_empty_level_invariant Sample.E
            [(snapshot_A, 0%Q); (delta_A, 1%Q)] init _ _))).
  - intros pair b sd price H. unfold init in H. cbn [l2_book] in H.
    rewrite lookup_empty in H. discriminate H.
  - vm_compute. reflexivity.
Defined.

Lemma dropped_frame_is_logged_witness :
  message_handler Sample.E pong 0%Q init
  = (Ok tt, with_log init [LogWarning "Invalid message received"]).
Proof.
  refine (proj1 (dropped_frame_is_logged Sample.E pong 0%Q
                   (LogWarning "Invalid message received") init _) _).
  - apply (dropped_method pong (JStr "pong")); reflexivity.
  - by left.
Defined.

Lemma trade_receipt_is_exchange_timestamp_witness :
  _trades Sample.E trades_params 9%Q init = _trades Sample.E trades_params 0%Q init.
Proof.
  refine (proj2 (trade_receipt_is_exchange_timestamp Sample.E trades_params
            (JStr "BTCUSD") _ "BTC-USD" _ 0%Q init _ _ _ _) 9%Q); reflexivity.
Defined.

(** The two trades of the sample batch are reported with their exchange
    timestamps, 5 s and 7 s, whatever the receipt time (here 9 s). *)
Example trades_frame_receipts :
  map receipt_timestamp_of (emitted (message_handler Sample.E trades_frame 9%Q init).2)
  = [5%Q; 7%Q].
Proof. vm_compute. reflexivity. Qed.

End HitBTCProps.

(* ===================================================================== *)
(** * Properties of the channels *)
(* ===================================================================== *)

Module ConnectionProps.
Import Py Connection ConnectionSpec.

Ltac cunfold :=
  unfold raw_data, raise_for_status, do_io, update, fresh_session;
  unfold bind, lift, ret, raise, modify, get.

Lemma is_open_closed_channel conn_id : is_open (closed_channel conn_id) = false.
Proof. reflexivity. Qed.

(** ** Opening *)

(** [HTTPAsyncConn._open] on an open channel only logs a warning. *)
Lemma http_open_when_open (self : AsyncConnection) (w : world) :
  is_open self = true ->
  HTTPAsyncConn._open (self, w)
  = (Ok tt, (self, with_trace w (trace w ++ [Log Warning "HTTP session already created"]))).
Proof. intros H. unfold HTTPAsyncConn._open. cunfold. cbn. by rewrite H. Qed.

(** [HTTPAsyncConn._open] on a closed channel creates one session. *)
Lemma http_open_when_closed (self : AsyncConnection) (w : world) :
  is_open self = false ->
  HTTPAsyncConn._open (self, w)
  = (Ok tt,
     ({| id := id self; received := 0; sent := 0; last_message := last_message self;
         conn := Some {| handle := next_handle w; closed := false |} |},
      {| conn_count := conn_count w; raw_data_callback := raw_data_callback w;
         next_handle := S (next_handle w);
         trace := trace w ++ [Log Debug "create HTTP session"; NewSession (next_handle w)] |})).
Proof.
  intros H. unfold HTTPAsyncConn._open. cunfold. cbn. rewrite H. cbn.
  by rewrite <- app_assoc.
Qed.

(** [open()] twice in a row on a closed HTTP channel: one session, and a
    warning from the second call. *)
Lemma http_open_twice (self : AsyncConnection) (w : world) :
  is_open self = false ->
  (HTTPAsyncConn._open ;; HTTPAsyncConn._open) (self, w)
  = (Ok tt,
     ((opened self w).1,
      with_trace (opened self w).2
        (trace w ++ [Log Debug "create HTTP session"; NewSession (next_handle w);
                     Log Warning "HTTP session already created"]))).
Proof.
  intros H. unfold bind. rewrite (http_open_when_closed self w H).
  fold (opened self w). destruct (opened self w) as [self' w'] eqn:Ho.
  rewrite http_open_when_open.
  - injection Ho as <- <-. cbn. by rewrite <- app_assoc.
  - by injection Ho as <- <-.
Qed.

(** [close()] on a closed channel does nothing. *)
Lemma close_when_closed (self : AsyncConnection) (w : world) :
  is_open self = false -> close (self, w) = (Ok tt, (self, w)).
Proof. intros H. unfold close. cunfold. cbn. by rewrite H. Qed.

(** [WSAsyncConn._open] on an open channel keeps the socket and logs a
    warning, and sets both counters to 0. *)
Lemma ws_open_when_open (address : string) (now : float) (self : AsyncConnection) (w : world) :
  is_open self = true ->
  WSAsyncConn._open address now (self, w)
  = (Ok tt,
     ({| id := id self; received := 0; sent := 0; last_message := last_message self;
         conn := conn self |},
      with_trace w (trace w ++ [Log Warning "websocket already open"]))).
Proof. intros H. unfold WSAsyncConn._open. cunfold. cbn. by rewrite H. Qed.

(** C9, at the failing input: [_open] on an open websocket channel that has
    sent 3 messages and received 5 creates no second socket, but it resets
    both counters, where [HTTPAsyncConn._open] leaves the channel as it is. *)
Theorem ws_open_resets_counters :
  let r := WSAsyncConn._open "wss://api.hitbtc.com/api/2/ws" 101%Q
             (busy_channel "hitbtc.ws.0", world0 false) in
  let h := HTTPAsyncConn._open (busy_channel "hitbtc.http.0", world0 false) in
  r.1 = Ok tt /\
  conn r.2.1 = conn (busy_channel "hitbtc.ws.0") /\
  trace r.2.2 = [Log Warning "websocket already open"] /\
  sent (busy_channel "hitbtc.ws.0") = 3%N /\ sent r.2.1 = 0%N /\
  received (busy_channel "hitbtc.ws.0") = 5%N /\ received r.2.1 = 0%N /\
  h.1 = Ok tt /\ h.2.1 = busy_channel "hitbtc.http.0" /\
  trace h.2.2 = [Log Warning "HTTP session already created"].
Proof. vm_compute. repeat split; reflexivity. Qed.

(** ** Reads and writes *)

Lemma http_read_open (address : string) (return_headers : bool) (r : response)
    (now : float) (self : AsyncConnection) (w : world) :
  is_open self = true ->
  HTTPAsyncConn.read address return_headers r now (self, w)
  = (if 400 <=? status r then Raise HTTPError
     else Ok (text r, if return_headers then Some (headers r) else None),
     (after_read now self,
      with_trace w
        (trace w ++ [Log Debug "requesting data"; Get (handle_of self) address]
           ++ weight_logs r
           ++ sink w (RawData (Some (text r)) now (id self)
                        (Endpoint address
                           (if return_headers then Some (headers r) else None)))))).
Proof.
  intros H. unfold HTTPAsyncConn.read, HTTPAsyncConn.log_weight_header, weight_logs, sink,
    with_trace, after_read.
  cunfold. cbn. rewrite H. cbn.
  destruct (has_header "x-mbx-used-weight" (headers r)),
    (has_header "x-mbx-used-weight-1m" (headers r)),
    (has_header "X-MBX-USED-WEIGHT-1M" (headers r));
    cbn; destruct (raw_data_callback w); cbn;
    destruct (400 <=? status r); destruct return_headers; cbn;
    rewrite <- ?app_assoc; reflexivity.
Qed.

Lemma is_open_opened (self : AsyncConnection) (w : world) : is_open (opened self w).1 = true.
Proof. reflexivity. Qed.

Lemma http_read_open_at (address : string) (return_headers : bool) (r : response)
    (now : float) (s : St) :
  is_open s.1 = true ->
  HTTPAsyncConn.read address return_headers r now s
  = (if 400 <=? status r then Raise HTTPError
     else Ok (text r, if return_headers then Some (headers r) else None),
     (after_read now s.1,
      with_trace s.2
        (trace s.2 ++ [Log Debug "requesting data"; Get (handle_of s.1) address]
           ++ weight_logs r
           ++ sink s.2 (RawData (Some (text r)) now (id s.1)
                          (Endpoint address
                             (if return_headers then Some (headers r) else None)))))).
Proof. destruct s as [self w]. apply http_read_open. Qed.

Lemma http_read_closed (address : string) (return_headers : bool) (r : response)
    (now : float) (self : AsyncConnection) (w : world) :
  is_open self = false ->
  HTTPAsyncConn.read address return_headers r now (self, w)
  = HTTPAsyncConn.read address return_headers r now (opened self w).
Proof.
  intros H. unfold HTTPAsyncConn.read at 1. unfold bind at 1, get at 1. cbn [fst].
  rewrite H. cbn [negb]. unfold bind at 1.
  rewrite (http_open_when_closed self w H). fold (opened self w).
  unfold HTTPAsyncConn.read, opened. cunfold. cbn. reflexivity.
Qed.

Lemma http_write_open (address msg : string) (r : response) (now : float)
    (self : AsyncConnection) (w : world) :
  is_open self = true ->
  HTTPAsyncConn.write address msg r now (self, w)
  = (if 400 <=? status r then Raise HTTPError else Ok (text r),
     (after_write self,
      with_trace w
        (trace w ++ [Post (handle_of self) address msg]
           ++ sink w (RawData (Some (text r)) now (id self) (Send address))))).
Proof.
  intros H. unfold HTTPAsyncConn.write, sink, with_trace, after_write.
  cunfold. cbn. rewrite H. cbn.
  destruct (raw_data_callback w); cbn; destruct (400 <=? status r); cbn;
    rewrite <- ?app_assoc; reflexivity.
Qed.

Lemma http_write_open_at (address msg : string) (r : response) (now : float) (s : St) :
  is_open s.1 = true ->
  HTTPAsyncConn.write address msg r now s
  = (if 400 <=? status r then Raise HTTPError else Ok (text r),
     (after_write s.1,
      with_trace s.2
        (trace s.2 ++ [Post (handle_of s.1) address msg]
           ++ sink s.2 (RawData (Some (text r)) now (id s.1) (Send address))))).
Proof. destruct s as [self w]. apply http_write_open. Qed.

Lemma http_write_closed (address msg : string) (r : response) (now : float)
    (self : AsyncConnection) (w : world) :
  is_open self = false ->
  HTTPAsyncConn.write address msg r now (self, w)
  = HTTPAsyncConn.write address msg r now (opened self w).
Proof.
  intros H. unfold HTTPAsyncConn.write at 1. unfold bind at 1, get at 1. cbn [fst].
  rewrite H. cbn [negb]. unfold bind at 1.
  rewrite (http_open_when_closed self w H). fold (opened self w).
  unfold HTTPAsyncConn.write, opened. cunfold. cbn. reflexivity.
Qed.

Lemma ws_read_closed (frames : list (string * float)) (self : AsyncConnection) (w : world) :
  is_open self = false ->
  WSAsyncConn.read frames (self, w)
  = (Raise ConnectionClosed,
     (self, with_trace w (trace w ++ [Log Error "connection closed in read()"]))).
Proof. intros H. unfold WSAsyncConn.read. cunfold. cbn. by rewrite H. Qed.

Lemma ws_write_closed (address data : string) (now : float) (self : AsyncConnection)
    (w : world) :
  is_open self = false ->
  WSAsyncConn.write address data now (self, w)
  = (Raise ConnectionClosed,
     (self, with_trace w (trace w ++ [Log Error "connection closed in write()"]))).
Proof. intros H. unfold WSAsyncConn.write. cunfold. cbn. by rewrite H. Qed.

(** A poll generator resumed on a closed channel raises at its first
    address; it does not open a session. *)
Lemma poll_read_closed (p : HTTPPoll.t) (serve : string -> response * float)
    (addr : string) (rest : list string) (cycles : nat) (self : AsyncConnection) (w : world) :
  HTTPPoll.address p = addr :: rest ->
  is_open self = false ->
  HTTPPoll.read p serve (S cycles) (self, w)
  = (Raise ConnectionClosed,
     (self, with_trace w (trace w ++ [Log Error "connection closed in read()"]))).
Proof.
  intros Ha H. cbn [HTTPPoll.read]. rewrite Ha. cbn [for_each].
  unfold HTTPPoll.poll. cunfold. cbn. by rewrite H.
Qed.

(** The admission control of a throttled read always returns; it leaves the
    channel's transport alone and creates no session. *)
Lemma admission_runs (weight : N) (clk : ThrottledHTTPAsyncConn.clock)
    (th : ThrottledHTTPAsyncConn.t) (self : AsyncConnection) (w : world) :
  exists wait th' pre,
    ThrottledHTTPAsyncConn.admission weight clk (th, (self, w))
    = (Ok wait, (th', (self, with_trace w (trace w ++ pre)))) /\
    Forall (fun e => match e with Log _ _ | Sleep _ => True | _ => False end) pre.
Proof.
  destruct w as [cc cb nh tr].
  unfold ThrottledHTTPAsyncConn.admission, ThrottledHTTPAsyncConn.account,
    ThrottledHTTPAsyncConn.reset_value, ThrottledHTTPAsyncConn.tupdate,
    ThrottledHTTPAsyncConn.super, with_trace.
  cunfold. cbn.
  destruct (ThrottledHTTPAsyncConn.unset (ThrottledHTTPAsyncConn.next_reset th)) eqn:Hu; cbn;
    [|destruct (ThrottledHTTPAsyncConn.next_reset th) as [z|] eqn:Hz; [|done]; cbn];
    destruct (ThrottledHTTPAsyncConn.Qltb _ _); cbn;
    destruct (ThrottledHTTPAsyncConn.limit_reached _ _); cbn; rewrite ?Hz; cbn;
    first [ eexists _, _, []; rewrite app_nil_r; split; [reflexivity | constructor]
          | eexists _, _, _; split; [rewrite <- ?app_assoc; reflexivity|];
            cbn; repeat constructor ].
Qed.

Lemma sync_process_response (r : response) (address : string) (js tx : bool)
    (uuid : option string) (now : float) (w : world) :
  HTTPSync.process_response r address js tx uuid now w
  = (if (400 <=? status r) && (status r <? 600) then Raise HTTPError
     else sync_result js tx r,
     with_trace w
       (trace w ++ sink w (RawData (Some (text r)) now (HTTPSync.str uuid)
                             (Endpoint address None)))).
Proof.
  unfold HTTPSync.process_response, HTTPSync.raise_for_status, HTTPSync.do_io, sink,
    with_trace.
  unfold sync_result, HTTPSync.json_of.
  cunfold. cbn.
  destruct (raw_data_callback w) eqn:Hcb; cbn;
    destruct ((400 <=? status r) && (status r <? 600)); cbn;
    destruct js, tx, (decoded r); cbn; rewrite ?app_nil_r; try reflexivity;
    destruct w; cbn in *; by subst.
Qed.

Lemma sync_read (address : string) (js tx : bool) (uuid : option string) (r : response)
    (now : float) (w : world) :
  HTTPSync.read address js tx uuid r now w
  = (if (400 <=? status r) && (status r <? 600) then Raise HTTPError
     else sync_result js tx r,
     with_trace w
       (trace w ++ [Log Debug "HTTPSync: requesting data"; Get 0 address]
          ++ sink w (RawData (Some (text r)) now (HTTPSync.str uuid)
                       (Endpoint address None)))).
Proof.
  unfold HTTPSync.read, HTTPSync.do_io. unfold bind at 1, modify at 1.
  unfold bind at 1, modify at 1. rewrite sync_process_response.
  unfold with_trace, sink. cbn. by rewrite <- !app_assoc.
Qed.

Lemma sync_write (address data : string) (js tx : bool) (uuid : option string)
    (r : response) (now : float) (w : world) :
  HTTPSync.write address data js tx uuid r now w
  = (if (400 <=? status r) && (status r <? 600) then Raise HTTPError
     else sync_result js tx r,
     with_trace w
       (trace w ++ [Log Debug "HTTPSync: post"; Post 0 address data]
          ++ sink w (RawData (Some (text r)) now (HTTPSync.str uuid)
                       (Endpoint address None)))).
Proof.
  unfold HTTPSync.write, HTTPSync.do_io. unfold bind at 1, modify at 1.
  unfold bind at 1, modify at 1. rewrite sync_process_response.
  unfold with_trace, sink. cbn. by rewrite <- !app_assoc.
Qed.

(** One address polled on an open channel. *)
Lemma poll_open (p : HTTPPoll.t) (serve : string -> response * float) (addr : string)
    (self : AsyncConnection) (w : world) :
  is_open self = true ->
  HTTPPoll.poll p serve addr tt (self, w)
  = (if 400 <=? status (serve addr).1 then Raise HTTPError else Ok tt,
     (after_read (serve addr).2 self,
      with_trace w
        (trace w ++ [Log Debug "polling"; Get (handle_of self) addr]
           ++ sink w (RawData (Some (text (serve addr).1)) (serve addr).2 (id self)
                        (Endpoint addr None))
           ++ (if 400 <=? status (serve addr).1 then []
               else [Yield (text (serve addr).1); Sleep (HTTPPoll.sleep p)])))).
Proof.
  intros H. unfold HTTPPoll.poll, sink, with_trace, after_read. cunfold. cbn. rewrite H. cbn.
  destruct (raw_data_callback w); cbn; destruct (400 <=? status (serve addr).1); cbn;
    rewrite <- ?app_assoc; reflexivity.
Qed.

(** A throttled read is the admission control followed by the read of
    [HTTPAsyncConn]. *)
Lemma throttled_read_runs (address : string) (return_headers : bool) (weight : N)
    (r : response) (clk : ThrottledHTTPAsyncConn.clock) (th : ThrottledHTTPAsyncConn.t)
    (self : AsyncConnection) (w : world) :
  exists th' pre,
    Forall (fun e => match e with Log _ _ | Sleep _ => True | _ => False end) pre /\
    ThrottledHTTPAsyncConn.read address return_headers weight r clk (th, (self, w))
    = ((HTTPAsyncConn.read address return_headers r (ThrottledHTTPAsyncConn.t_read clk)
          (self, with_trace w (trace w ++ pre))).1,
       (th', (HTTPAsyncConn.read address return_headers r
                (ThrottledHTTPAsyncConn.t_read clk)
                (self, with_trace w (trace w ++ pre))).2)).
Proof.
  destruct (admission_runs weight clk th self w) as (wait & th' & pre & Hrun & Hpre).
  exists th', pre. split; [done|].
  unfold ThrottledHTTPAsyncConn.read. unfold bind at 1. rewrite Hrun.
  unfold ThrottledHTTPAsyncConn.super. cbn [fst snd].
  by destruct (HTTPAsyncConn.read _ _ _ _ _).
Qed.

Lemma status_error_iff {A} (a : A) (c : bool) :
  (if c then Raise HTTPError else Ok a) = Raise HTTPError <-> c = true.
Proof. by destruct c. Qed.

Lemma sync_error_iff (js tx : bool) (r : response) (c : bool) :
  (if c then Raise HTTPError else sync_result js tx r) = Raise HTTPError <-> c = true.
Proof.
  unfold sync_result, HTTPSync.json_of. by destruct c, js, tx, (decoded r).
Qed.

(** C6. With a raw-data callback set, an HTTP read or write (synchronous,
    asynchronous, throttled, or one address of a poll) hands the raw payload,
    a timestamp, the connection id and the endpoint or send address to the
    callback, and that call is the last thing it does before
    [raise_for_status] raises: a status error (400 and above; 400 to 599 for
    the synchronous channel) is never raised with the payload undelivered. *)
Theorem raw_data_before_status_error (self : AsyncConnection) (w : world)
    (address msg : string) (return_headers js tx : bool) (uuid : option string)
    (r : response) (now : float) (weight : N) (clk : ThrottledHTTPAsyncConn.clock)
    (th : ThrottledHTTPAsyncConn.t) (p : HTTPPoll.t) (serve : string -> response * float) :
  raw_data_callback w = true ->
  (let res := HTTPAsyncConn.read address return_headers r now (self, w) in
   (res.1 = Raise HTTPError <-> 400 <= status r) /\
   exists pre,
     trace res.2.2 = trace w ++ pre ++
       [RawData (Some (text r)) now (id self)
          (Endpoint address (if return_headers then Some (headers r) else None))]) /\
  (let res := HTTPAsyncConn.write address msg r now (self, w) in
   (res.1 = Raise HTTPError <-> 400 <= status r) /\
   exists pre,
     trace res.2.2 = trace w ++ pre ++
       [RawData (Some (text r)) now (id self) (Send address)]) /\
  (let res := HTTPSync.process_response r address js tx uuid now w in
   (res.1 = Raise HTTPError <-> 400 <= status r < 600) /\
   trace res.2 = trace w ++
     [RawData (Some (text r)) now (HTTPSync.str uuid) (Endpoint address None)]) /\
  (let res := HTTPSync.read address js tx uuid r now w in
   (res.1 = Raise HTTPError <-> 400 <= status r < 600) /\
   exists pre,
     trace res.2 = trace w ++ pre ++
       [RawData (Some (text r)) now (HTTPSync.str uuid) (Endpoint address None)]) /\
  (let res := HTTPSync.write address msg js tx uuid r now w in
   (res.1 = Raise HTTPError <-> 400 <= status r < 600) /\
   exists pre,
     trace res.2 = trace w ++ pre ++
       [RawData (Some (text r)) now (HTTPSync.str uuid) (Endpoint address None)]) /\
  (let res := ThrottledHTTPAsyncConn.read address return_headers weight r clk (th, (self, w)) in
   (res.1 = Raise HTTPError <-> 400 <= status r) /\
   exists pre,
     trace res.2.2.2 = trace w ++ pre ++
       [RawData (Some (text r)) (ThrottledHTTPAsyncConn.t_read clk) (id self)
          (Endpoint address (if return_headers then Some (headers r) else None))]) /\
  (is_open self = true ->
   let res := HTTPPoll.poll p serve address tt (self, w) in
   (res.1 = Raise HTTPError <-> 400 <= status (serve address).1) /\
   (res.1 = Raise HTTPError ->
    exists pre,
      trace res.2.2 = trace w ++ pre ++
        [RawData (Some (text (serve address).1)) (serve address).2 (id self)
           (Endpoint address None)])).
Proof.
  intros Hcb.
  assert (forall (now' : float) (w' : world),
            raw_data_callback w' = true ->
            let res := HTTPAsyncConn.read address return_headers r now' (self, w') in
            (res.1 = Raise HTTPError <-> 400 <= status r) /\
            exists pre,
              trace res.2.2 = trace w' ++ pre ++
                [RawData (Some (text r)) now' (id self)
                   (Endpoint address (if return_headers then Some (headers r) else None))])
    as Hread.
  { intros now' w' Hcb'. cbv zeta. destruct (is_open self) eqn:Ho.
    + rewrite http_read_open by done. cbn [fst snd]. split.
      * rewrite status_error_iff. apply Z.leb_le.
      * unfold sink. rewrite Hcb'. cbn [trace with_trace].
        exists ([Log Debug "requesting data"; Get (handle_of self) address] ++ weight_logs r).
        by rewrite <- !app_assoc.
    + rewrite http_read_closed, http_read_open_at by done. cbn [fst snd]. split.
      * rewrite status_error_iff. apply Z.leb_le.
      * unfold sink, opened. cbn [fst snd trace with_trace raw_data_callback id].
        rewrite Hcb'.
        exists ([Log Debug "create HTTP session"; NewSession (next_handle w');
                 Log Debug "requesting data"; Get (next_handle w') address]
                ++ weight_logs r).
        by rewrite <- !app_assoc. }
  split; [by apply Hread|].
  split; [|split; [|split; [|split; [|split]]]]; cbv zeta.
  - destruct (is_open self) eqn:Ho.
    + rewrite http_write_open by done. cbn [fst snd]. split.
      * rewrite status_error_iff. apply Z.leb_le.
      * unfold sink. rewrite Hcb. cbn [trace with_trace]. eexists. reflexivity.
    + rewrite http_write_closed, http_write_open_at by done. cbn [fst snd]. split.
      * rewrite status_error_iff. apply Z.leb_le.
      * unfold sink, opened. cbn [fst snd trace with_trace raw_data_callback id].
        rewrite Hcb.
        exists [Log Debug "create HTTP session"; NewSession (next_handle w);
                Post (next_handle w) address msg].
        by rewrite <- !app_assoc.
  - rewrite sync_process_response. cbn [fst snd]. split.
    + rewrite sync_error_iff, andb_true_iff, Z.leb_le, Z.ltb_lt. done.
    + unfold sink. by rewrite Hcb.
  - rewrite sync_read. cbn [fst snd]. split.
    + rewrite sync_error_iff, andb_true_iff, Z.leb_le, Z.ltb_lt. done.
    + unfold sink. cbn [trace with_trace raw_data_callback]. rewrite Hcb.
      by exists [Log Debug "HTTPSync: requesting data"; Get 0 address].
  - rewrite sync_write. cbn [fst snd]. split.
    + rewrite sync_error_iff, andb_true_iff, Z.leb_le, Z.ltb_lt. done.
    + unfold sink. cbn [trace with_trace raw_data_callback]. rewrite Hcb.
      by exists [Log Debug "HTTPSync: post"; Post 0 address msg].
  - destruct (throttled_read_runs address return_headers weight r clk th self w)
      as (th' & pre & Hpre & ->). cbn [fst snd].
    destruct (Hread (ThrottledHTTPAsyncConn.t_read clk) (with_trace w (trace w ++ pre)) Hcb)
      as [Hiff [pre' Htr]].
    split; [done|]. exists (pre ++ pre'). rewrite Htr. cbn [trace with_trace].
    by rewrite <- !app_assoc.
  - intros Ho. rewrite poll_open by done. cbn [fst snd]. split.
    + rewrite status_error_iff. apply Z.leb_le.
    + intros Herr. apply status_error_iff in Herr. rewrite Herr.
      unfold sink. rewrite Hcb. cbn [trace with_trace].
      exists [Log Debug "polling"; Get (handle_of self) address].
      by rewrite app_nil_r.
Qed.

(** C7, amended.  On a closed channel: a websocket read or write raises
    [ConnectionClosed] and does nothing but log; a read or write of
    [HTTPAsyncConn] and of [ThrottledHTTPAsyncConn], and a write of
    [HTTPPoll], first create a session and then send the request through
    it; the read of [HTTPPoll], a poll generator, with at least one address
    raises [ConnectionClosed] and opens nothing. *)
Theorem closed_channel_access (self : AsyncConnection) (w : world)
    (address msg : string) (return_headers : bool) (r : response) (now : float)
    (frames : list (string * float)) (weight : N) (clk : ThrottledHTTPAsyncConn.clock)
    (th : ThrottledHTTPAsyncConn.t) (p : HTTPPoll.t) (serve : string -> response * float)
    (cycles : nat) :
  is_open self = false ->
  HTTPPoll.address p <> [] ->
  let fresh := Some {| handle := next_handle w; closed := false |} in
  WSAsyncConn.read frames (self, w)
    = (Raise ConnectionClosed,
       (self, with_trace w (trace w ++ [Log Error "connection closed in read()"]))) /\
  WSAsyncConn.write address msg now (self, w)
    = (Raise ConnectionClosed,
       (self, with_trace w (trace w ++ [Log Error "connection closed in write()"]))) /\
  (let res := HTTPAsyncConn.read address return_headers r now (self, w) in
   conn res.2.1 = fresh /\
   exists tail,
     trace res.2.2 = trace w ++
       [Log Debug "create HTTP session"; NewSession (next_handle w);
        Log Debug "requesting data"; Get (next_handle w) address] ++ tail) /\
  (let res := HTTPAsyncConn.write address msg r now (self, w) in
   conn res.2.1 = fresh /\
   exists tail,
     trace res.2.2 = trace w ++
       [Log Debug "create HTTP session"; NewSession (next_handle w);
        Post (next_handle w) address msg] ++ tail) /\
  (let res := ThrottledHTTPAsyncConn.read address return_headers weight r clk (th, (self, w)) in
   conn res.2.2.1 = fresh /\
   exists pre tail,
     Forall (fun e => match e with Log _ _ | Sleep _ => True | _ => False end) pre /\
     trace res.2.2.2 = trace w ++ pre ++
       [Log Debug "create HTTP session"; NewSession (next_handle w);
        Log Debug "requesting data"; Get (next_handle w) address] ++ tail) /\
  (let res := ThrottledHTTPAsyncConn.write address msg r now (th, (self, w)) in
   conn res.2.2.1 = fresh /\ res.2.1 = th /\
   exists tail,
     trace res.2.2.2 = trace w ++
       [Log Debug "create HTTP session"; NewSession (next_handle w);
        Post (next_handle w) address msg] ++ tail) /\
  (let res := HTTPPoll.write address msg r now (self, w) in
   conn res.2.1 = fresh /\
   exists tail,
     trace res.2.2 = trace w ++
       [Log Debug "create HTTP session"; NewSession (next_handle w);
        Post (next_handle w) address msg] ++ tail) /\
  HTTPPoll.read p serve (S cycles) (self, w)
    = (Raise ConnectionClosed,
       (self, with_trace w (trace w ++ [Log Error "connection closed in read()"]))).
Proof.
  intros H Hp fresh.
  assert (let res := HTTPAsyncConn.write address msg r now (self, w) in
          conn res.2.1 = fresh /\
          exists tail,
            trace res.2.2 = trace w ++
              [Log Debug "create HTTP session"; NewSession (next_handle w);
               Post (next_handle w) address msg] ++ tail) as Hwrite.
  { cbv zeta. rewrite http_write_closed, http_write_open_at by done. split; [done|].
    eexists. unfold opened. cbn [fst snd trace with_trace handle_of conn handle].
    rewrite <- ?app_assoc. reflexivity. }
  cbv zeta in *. split; [|split; [|split; [|split; [|split; [|split; [|split]]]]]].
  - by apply ws_read_closed.
  - by apply ws_write_closed.
  - rewrite http_read_closed, http_read_open_at by done. split; [done|].
    eexists. unfold opened. cbn [fst snd trace with_trace handle_of conn handle].
    rewrite <- ?app_assoc. reflexivity.
  - exact Hwrite.
  - destruct (throttled_read_runs address return_headers weight r clk th self w)
      as (th' & pre & Hpre & ->).
    rewrite http_read_closed, http_read_open_at by done. cbn [fst snd]. split; [done|].
    exists pre. eexists. split; [done|].
    unfold opened. cbn [fst snd trace with_trace handle_of conn handle next_handle].
    rewrite <- ?app_assoc. reflexivity.
  - unfold ThrottledHTTPAsyncConn.write, ThrottledHTTPAsyncConn.super. cbn [snd fst].
    destruct (HTTPAsyncConn.write address msg r now (self, w)) as [res s'].
    cbn [fst snd] in *. destruct Hwrite as [Hconn Htail]. done.
  - exact Hwrite.
  - destruct (HTTPPoll.address p) as [|addr rest] eqn:Ha; [done|].
    by eapply poll_read_closed.
Qed.

(** C7 fails as stated for the polling channel: its read on a closed channel
    raises [ConnectionClosed]; no session is created. *)
Lemma poll_read_does_not_open :
  let res := HTTPPoll.read one_address (fun _ => (ok_response, 0%Q)) 1
               (closed_channel "feed.http.0.http.0", world0 false) in
  is_open (closed_channel "feed.http.0.http.0") = false /\
  res.1 = Raise ConnectionClosed /\
  conn res.2.1 = None /\
  trace res.2.2 = [Log Error "connection closed in read()"].
Proof. vm_compute. repeat split; reflexivity. Qed.

(** ** Construction *)

Lemma construct_buildable (k : kind) (conn_id : string) (w : world) :
  buildable k = true ->
  exists self w',
    construct k conn_id w = Ok (self, w') /\
    id self = id_at k conn_id (conn_count w) /\
    conn_count w' = (conn_count w + 1)%N.
Proof.
  intros Hb. destruct k as [| | |address]; cbn in *.
  - by eexists _, _.
  - by eexists _, _.
  - by eexists _, _.
  - unfold WSAsyncConn.init. rewrite Hb. cbn. by eexists _, _.
Qed.

(** C8, amended.  The id of a constructed connection is the base, the tag
    of its transport, and the value of the one counter all asynchronous
    connections share; the i-th connection built, of whatever kind, has the
    counter's starting value plus i as its suffix. *)
Theorem ids_follow_shared_counter (reqs : list (kind * string)) (w : world)
    (i : nat) (k : kind) (conn_id : string) :
  Forall (fun r => buildable r.1 = true) reqs ->
  reqs !! i = Some (k, conn_id) ->
  construct_all reqs w !! i = Some (Ok (id_at k conn_id (conn_count w + N.of_nat i))).
Proof.
  intros Hall. revert w i. induction Hall as [|[k' c'] reqs Hb _ IH]; intros w i Hi.
  - by rewrite lookup_nil in Hi.
  - cbn in Hb. destruct (construct_buildable k' c' w Hb) as (self & w' & Hc & Hid & Hn).
    cbn [construct_all]. rewrite Hc. rewrite lookup_cons in Hi. rewrite lookup_cons.
    destruct i as [|i].
    + injection Hi as -> ->. by rewrite Hid, N.add_0_r.
    + rewrite (IH w' i Hi), Hn. do 3 f_equal. lia.
Qed.

(** C8 fails as stated: between two HTTP connections another kind was built,
    and the HTTP suffixes are 0 and 2. *)
Lemma http_suffixes_skip :
  construct_all [(Http, "a"); (Ws "wss://x", "b"); (Http, "c")] (world0 false)
  = [Ok "a.http.0"; Ok "b.ws.1"; Ok "c.http.2"].
Proof. vm_compute. reflexivity. Qed.

(** ** Throttling *)

Import ThrottledHTTPAsyncConn.

(** The minute boundary computed from a reading lies after the reading. *)
Lemma next_minute_gt (now : float) : (now < inject_Z (next_minute now))%Q.
Proof.
  destruct now as [n d]. unfold next_minute, Qlt. cbn [Qnum Qden inject_Z].
  set (q := n ÷ Z.pos d).
  assert (n < Z.pos d * (q + 1)) as Hn.
  { pose proof (Z.quot_rem' n (Z.pos d)) as Hqr. fold q in Hqr.
    pose proof (Z.rem_bound_abs n (Z.pos d) ltac:(lia)). lia. }
  assert (q + 1 <= (q / 60 + 1) * 60) as Hq.
  { pose proof (Z.div_mod q 60 ltac:(lia)). pose proof (Z.mod_pos_bound q 60 ltac:(lia)).
    lia. }
  nia.
Qed.

Lemma Qltb_false (a b : Q) : (b <= a)%Q -> Qltb a b = false.
Proof. intros H. unfold Qltb. apply negb_false_iff. by apply Qle_bool_iff. Qed.

Lemma Qltb_true (a b : Q) : (a < b)%Q -> Qltb a b = true.
Proof.
  intros H. unfold Qltb. apply negb_true_iff. apply not_true_is_false.
  rewrite Qle_bool_iff. by apply Qlt_not_le.
Qed.

(** The admission control only reads and writes the throttle attributes. *)
Lemma read_throttle_state (address : string) (return_headers : bool) (weight : N)
    (r : response) (clk : clock) (s : TSt) :
  (read address return_headers weight r clk s).2.1 = (admission weight clk s).2.1.
Proof.
  unfold read, bind, super.
  destruct (admission weight clk s) as [[wait|e] s1]; [|done].
  by destruct (HTTPAsyncConn.read _ _ _ _ _).
Qed.

(** One read that enters in the minute ending at [boundary], on a channel
    whose window is unset or ends at [boundary]. *)
Lemma admission_in_minute (weight : N) (clk : clock) (th : t) (st : St)
    (boundary : Z) (L : N) :
  next_minute (now clk) = boundary ->
  unset (next_reset th) = true \/ next_reset th = Some boundary ->
  throttle_limit th = Finite L ->
  let res := admission weight clk (th, st) in
  if (L <=? used_limit th + weight)%N
  then res.1 = Ok (Some (inject_Z boundary - t_wait clk)%Q) /\
       res.2.1 = {| throttle_limit := Finite L; throttle_interval := throttle_interval th;
                    used_limit := weight;
                    next_reset := Some (next_minute (t_wake clk)) |}
  else res.1 = Ok None /\
       res.2.1 = {| throttle_limit := Finite L; throttle_interval := throttle_interval th;
                    used_limit := used_limit th + weight;
                    next_reset := Some boundary |}.
Proof.
  intros HB Hreset HL. pose proof (next_minute_gt (now clk)) as Hgt. rewrite HB in Hgt.
  destruct th as [lim itv used reset]. cbn in *. subst lim.
  unfold admission, account, reset_value, tupdate, super. cunfold. cbn.
  assert (Qltb (inject_Z boundary) (now clk) = false) as Hlt
    by (apply Qltb_false; by apply Qlt_le_weak).
  assert (unset reset = true \/ (unset reset = false /\ reset = Some boundary)) as Hcase.
  { destruct (unset reset) eqn:Hu; [by left|]. right. split; [done|].
    by destruct Hreset. }
  destruct Hcase as [Hu | [Hu ->]]; rewrite Hu; cbn; rewrite ?HB, Hlt; cbn;
    destruct (L <=? used + weight)%N; cbn; done.
Qed.

(** One read that enters in the minute ending at [boundary], after the
    channel's window has ended: the window is replaced and only this read's
    weight is counted. *)
Lemma admission_expired (weight : N) (clk : clock) (th : t) (st : St)
    (boundary r : Z) (L : N) :
  next_minute (now clk) = boundary ->
  next_reset th = Some r ->
  unset (Some r) = false ->
  (inject_Z r < now clk)%Q ->
  throttle_limit th = Finite L ->
  let res := admission weight clk (th, st) in
  if (L <=? weight)%N
  then res.1 = Ok (Some (inject_Z boundary - t_wait clk)%Q) /\
       res.2.1 = {| throttle_limit := Finite L; throttle_interval := throttle_interval th;
                    used_limit := weight;
                    next_reset := Some (next_minute (t_wake clk)) |}
  else res.1 = Ok None /\
       res.2.1 = {| throttle_limit := Finite L; throttle_interval := throttle_interval th;
                    used_limit := weight;
                    next_reset := Some boundary |}.
Proof.
  intros HB Hreset Hu Hexp HL.
  destruct th as [lim itv used reset]. cbn in *. subst lim reset.
  unfold admission, account, reset_value, tupdate, super. cunfold. cbn.
  cbn in Hu. rewrite Hu. cbn. rewrite (Qltb_true _ _ Hexp). cbn. rewrite HB.
  destruct (L <=? weight)%N; cbn; done.
Qed.

(** After a read that slept to the end of the minute, no further read
    enters in that minute. *)
Lemma no_read_after_sleep (boundary : Z) (c c' : call) (calls : list call) :
  in_order (c :: c' :: calls) ->
  same_minute boundary (c' :: calls) ->
  slept_long_enough {| o_weight := c_weight c;
                       o_wait := Some (inject_Z boundary - t_wait (c_clock c))%Q;
                       o_clock := c_clock c |} ->
  False.
Proof.
  intros [Hnext _] Hmin Ho. inversion_clear Hmin as [|? ? Hc' _].
  pose proof (next_minute_gt (now (c_clock c'))) as Hgt. rewrite Hc' in Hgt.
  destruct (Ho _ eq_refl) as [Hw1 Hw2]. cbn [o_clock] in Hw1, Hw2.
  clear -Hnext Hgt Hw1 Hw2. remember (inject_Z boundary) as b. clear Heqb.
  unfold float in *. lra.
Qed.

Lemma accepted_bound (address : string) (boundary : Z) (L : N) (calls : list call) :
  forall (th : t) (st : St),
  same_minute boundary calls ->
  in_order calls ->
  Forall slept_long_enough (outcomes address calls (th, st)) ->
  unset (next_reset th) = true \/ next_reset th = Some boundary ->
  throttle_limit th = Finite L ->
  (accepted (outcomes address calls (th, st)) <= L - used_limit th)%N.
Proof.
  induction calls as [|c calls IH]; intros th st Hmin Hord Hsleep Hreset HL.
  - cbn. lia.
  - inversion_clear Hmin as [|? ? Hc Hmin'].
    pose proof (admission_in_minute (c_weight c) (c_clock c) th st boundary L Hc Hreset HL)
      as Hstep. cbv zeta in Hstep.
    cbn [outcomes] in Hsleep |- *.
    pose proof (read_throttle_state address false (c_weight c) (c_response c) (c_clock c)
                  (th, st)) as Hst.
    destruct (read address false (c_weight c) (c_response c) (c_clock c) (th, st))
      as [res [th2 st2]].
    cbn [fst snd] in Hst |- *. inversion_clear Hsleep as [|? ? Ho Hsleep'].
    cbn [accepted o_wait o_weight].
    destruct (L <=? used_limit th + c_weight c)%N eqn:Hle; destruct Hstep as [Hwait Hth].
    + rewrite Hwait in Ho |- *. cbn iota. destruct calls as [|c' calls'].
      * cbn. lia.
      * exfalso. by eapply no_read_after_sleep.
    + rewrite Hwait. cbn iota. apply N.leb_gt in Hle.
      assert (accepted (outcomes address calls (th2, st2)) <= L - used_limit th2)%N as Hrec.
      { destruct Hord as [_ Hord']. apply IH; try done.
        - rewrite Hst, Hth. by right.
        - by rewrite Hst, Hth. }
      rewrite Hst, Hth in Hrec |- *. cbn [used_limit] in Hrec. lia.
Qed.

(** The reads of one minute on a channel whose window fits that minute. *)
Lemma accepted_le_limit (address : string) (boundary : Z) (L : N) (calls : list call)
    (th : t) (st : St) :
  same_minute boundary calls ->
  in_order calls ->
  Forall slept_long_enough (outcomes address calls (th, st)) ->
  window_fits boundary calls th ->
  throttle_limit th = Finite L ->
  (accepted (outcomes address calls (th, st)) <= L)%N.
Proof.
  intros Hmin Hord Hsleep Hfit HL.
  assert (unset (next_reset th) = true \/ next_reset th = Some boundary \/
          exists r, next_reset th = Some r /\ unset (Some r) = false /\
                    match calls with
                    | c :: _ => (inject_Z r < now (c_clock c))%Q
                    | [] => True
                    end) as Hcase.
  { unfold window_fits in Hfit. destruct (next_reset th) as [r|]; [|by left].
    destruct (unset (Some r)) eqn:Hu; [by left|]. right.
    destruct Hfit as [->|Hexp]; [by left|]. right. by exists r. }
  destruct Hcase as [Hu | [Hb | (r & Hr & Hu & Hexp)]].
  - pose proof (accepted_bound address boundary L calls th st Hmin Hord Hsleep
                  (or_introl Hu) HL). lia.
  - pose proof (accepted_bound address boundary L calls th st Hmin Hord Hsleep
                  (or_intror Hb) HL). lia.
  - destruct calls as [|c calls]; [cbn; lia|].
    inversion_clear Hmin as [|? ? Hc Hmin'].
    pose proof (admission_expired (c_weight c) (c_clock c) th st boundary r L Hc Hr Hu
                  Hexp HL) as Hstep. cbv zeta in Hstep.
    cbn [outcomes] in Hsleep |- *.
    pose proof (read_throttle_state address false (c_weight c) (c_response c) (c_clock c)
                  (th, st)) as Hst.
    destruct (read address false (c_weight c) (c_response c) (c_clock c) (th, st))
      as [res [th2 st2]].
    cbn [fst snd] in Hst |- *. inversion_clear Hsleep as [|? ? Ho Hsleep'].
    cbn [accepted o_wait o_weight].
    destruct (L <=? c_weight c)%N eqn:Hle; destruct Hstep as [Hwait Hth].
    + rewrite Hwait in Ho |- *. cbn iota. destruct calls as [|c' calls'].
      * cbn. lia.
      * exfalso. by eapply no_read_after_sleep.
    + rewrite Hwait. cbn iota. apply N.leb_gt in Hle.
      assert (accepted (outcomes address calls (th2, st2)) <= L - used_limit th2)%N as Hrec.
      { destruct Hord as [_ Hord']. apply accepted_bound with (boundary := boundary);
          try done.
        - rewrite Hst, Hth. by right.
        - by rewrite Hst, Hth. }
      rewrite Hst, Hth in Hrec |- *. cbn [used_limit] in Hrec. lia.
Qed.

(** The accounting always returns and leaves a window set. *)
Lemma account_runs (weight : N) (now : float) (s : TSt) :
  exists reset,
    (account weight now s).1 = Ok tt /\
    next_reset (account weight now s).2.1 = Some reset /\
    throttle_limit (account weight now s).2.1 = throttle_limit s.1.
Proof.
  destruct s as [[lim itv used reset] st].
  unfold account, reset_value, tupdate, super. cunfold. cbn.
  destruct (unset reset) eqn:Hu; cbn.
  - destruct (Qltb _ _); cbn; by eexists.
  - destruct reset as [z|]; [|done]. cbn.
    destruct (Qltb _ _); cbn; by eexists.
Qed.

(** After the accounting, a read that has reached the limit sleeps for the
    time left to [next_reset] and starts a new window. *)
Lemma admission_sleeps (weight : N) (clk : clock) (s : TSt) (reset : Z) :
  let s1 := (account weight (now clk) s).2 in
  let d := (inject_Z reset - t_wait clk)%Q in
  (account weight (now clk) s).1 = Ok tt ->
  next_reset s1.1 = Some reset ->
  limit_reached (used_limit s1.1) (throttle_limit s1.1) = true ->
  admission weight clk s
  = (Ok (Some d),
     ({| throttle_limit := throttle_limit s1.1; throttle_interval := throttle_interval s1.1;
         used_limit := weight; next_reset := Some (next_minute (t_wake clk)) |},
      (s1.2.1,
       with_trace s1.2.2
         (trace s1.2.2 ++ [Log Info "Throttling kicked in"; Sleep d])))).
Proof.
  intros s1 d Hok Hreset Hlim. unfold admission. unfold bind at 1.
  destruct (account weight (now clk) s) as [[[]|e] [th1 [self1 w1]]] eqn:Hacc; [|done].
  subst s1. cbn [fst snd] in *.
  unfold reset_value, tupdate, super, with_trace. cunfold. cbn.
  rewrite Hlim. cbn. rewrite Hreset. cbn. by rewrite <- app_assoc.
Qed.

(** After the accounting, a read below the limit goes on at once. *)
Lemma admission_passes (weight : N) (clk : clock) (s : TSt) :
  let s1 := (account weight (now clk) s).2 in
  (account weight (now clk) s).1 = Ok tt ->
  limit_reached (used_limit s1.1) (throttle_limit s1.1) = false ->
  admission weight clk s = (Ok None, s1).
Proof.
  intros s1 Hok Hlim. unfold admission. unfold bind at 1.
  destruct (account weight (now clk) s) as [[[]|e] [th1 [self1 w1]]] eqn:Hacc; [|done].
  subst s1. cbn [fst snd] in *. cunfold. cbn. by rewrite Hlim.
Qed.

(** C2, amended.  (1) On a channel with limit [L] whose window is unset,
    ends at this minute's boundary or has ended before the first read, for
    reads that all enter in one wall-clock minute, one after the other, with
    every sleep lasting at least what it was asked for, the weights of the
    reads that did not sleep add up to at most [L].  (2) In any state, a read
    whose accumulated [used_limit] reaches the limit sleeps for the time left
    to [next_reset], hence wakes at or after that boundary, and then holds
    [used_limit = weight] and the minute boundary after its wake-up as
    [next_reset]; a read below the limit does not sleep.  (3) With limit 10
    and three reads of weight 4 the third one sleeps and goes on with
    [used_limit = 4]. *)
Theorem throttle_bounds_minute (address : string) (L : N) (boundary : Z)
    (calls : list call) (th : t) (st : St) :
  throttle_limit th = Finite L ->
  window_fits boundary calls th ->
  same_minute boundary calls ->
  in_order calls ->
  Forall slept_long_enough (outcomes address calls (th, st)) ->
  (accepted (outcomes address calls (th, st)) <= L)%N /\
  (forall (weight : N) (clk : clock) (s : TSt),
     exists reset,
       let s1 := (account weight (now clk) s).2 in
       let res := admission weight clk s in
       let d := (inject_Z reset - t_wait clk)%Q in
       (account weight (now clk) s).1 = Ok tt /\
       next_reset s1.1 = Some reset /\
       (limit_reached (used_limit s1.1) (throttle_limit s1.1) = true ->
        res.1 = Ok (Some d) /\
        trace res.2.2.2 = trace s1.2.2 ++ [Log Info "Throttling kicked in"; Sleep d] /\
        used_limit res.2.1 = weight /\
        next_reset res.2.1 = Some (next_minute (t_wake clk)) /\
        ((t_wait clk + d <= t_wake clk)%Q ->
         (inject_Z reset <= t_wake clk)%Q /\
         (t_wake clk < inject_Z (next_minute (t_wake clk)))%Q)) /\
       (limit_reached (used_limit s1.1) (throttle_limit s1.1) = false ->
        res = (Ok None, s1))) /\
  (map o_wait (outcomes "https://api.example/depth" scenario_B throttled_10)
     = [None; None; Some 57%Q] /\
   used_limit (final "https://api.example/depth" scenario_B throttled_10).1 = 4%N /\
   next_reset (final "https://api.example/depth" scenario_B throttled_10).1 = Some 720 /\
   trace (final "https://api.example/depth" scenario_B throttled_10).2.2
     = [Log Debug "create HTTP session"; NewSession 0;
        Log Debug "requesting data"; Get 0 "https://api.example/depth";
        Log Debug "requesting data"; Get 0 "https://api.example/depth";
        Log Info "Throttling kicked in"; Sleep 57%Q;
        Log Debug "requesting data"; Get 0 "https://api.example/depth"]).
Proof.
  intros HL Hfit Hmin Hord Hsleep. split; [|split].
  - by eapply accepted_le_limit.
  - intros weight clk s.
    destruct (account_runs weight (now clk) s) as (reset & Hok & Hreset & Hlim).
    exists reset. cbv zeta. split; [done|]. split; [done|].
    split; [|by apply admission_passes].
    intros Hreached. rewrite (admission_sleeps weight clk s reset Hok Hreset Hreached).
    cbn [fst snd used_limit next_reset trace with_trace].
    do 4 (split; [reflexivity|]). intros Hd. split.
    + clear -Hd. remember (inject_Z reset) as b. clear Heqb. unfold float in *. lra.
    + apply next_minute_gt.
  - vm_compute. repeat split; reflexivity.
Qed.

(** C2 fails as stated: a read that enters at the very instant the previous
    window ends is still counted in that window, and the next read starts a
    new one.  After a read of weight 4 at 590 s, the reads of weights 5 and 9
    at 600 s and 601 s both enter in the minute from 600 s to 660 s and
    neither sleeps: 14 against a limit of 10. *)
Lemma boundary_instant_exceeds_limit :
  let s := final "https://api.example/depth" before_T throttled_10 in
  next_reset s.1 = Some 600 /\ used_limit s.1 = 4%N /\
  throttle_limit s.1 = Finite 10 /\
  same_minute 660 from_T /\
  in_order from_T /\
  map o_wait (outcomes "https://api.example/depth" from_T s) = [None; None] /\
  accepted (outcomes "https://api.example/depth" from_T s) = 14%N /\
  ~ (accepted (outcomes "https://api.example/depth" from_T s) <= 10)%N.
Proof.
  assert (accepted (outcomes "https://api.example/depth" from_T
                      (final "https://api.example/depth" before_T throttled_10)) = 14%N)
    as Hacc by (vm_compute; reflexivity).
  cbv zeta. rewrite Hacc. split; [by vm_compute|]. split; [by vm_compute|].
  split; [by vm_compute|]. split; [repeat constructor|].
  split; [cbn; repeat split; unfold Qle; cbn; lia|].
  split; [by vm_compute|]. split; [done|]. lia.
Qed.

(** ** The theorems at sample inputs *)

Lemma throttle_bounds_minute_witness :
  (accepted (outcomes "https://api.example/depth" scenario_B throttled_10) <= 10)%N.
Proof.
  refine (proj1 (throttle_bounds_minute "https://api.example/depth" 10 660 scenario_B
                   throttled_10.1 throttled_10.2 eq_refl I _ _ _)).
  - repeat constructor.
  - cbn. repeat split; unfold Qle; cbn; lia.
  - change (throttled_10.1, throttled_10.2) with throttled_10.
    assert (outcomes "https://api.example/depth" scenario_B throttled_10
            = [ {| o_weight := 4; o_wait := None; o_clock := at_second 601 |};
                {| o_weight := 4; o_wait := None; o_clock := at_second 602 |};
                {| o_weight := 4; o_wait := Some 57%Q;
                   o_clock := {| now := 603%Q; t_wait := 603%Q; t_wake := 660%Q;
                                 t_read := 660%Q |} |} ]) as ->
      by (vm_compute; reflexivity).
    constructor; [|constructor; [|constructor; [|constructor]]];
      intros d Hd; cbn in Hd; try discriminate Hd.
    injection Hd as <-. cbn. split; unfold Qle; cbn; lia.
Defined.

Lemma raw_data_before_status_error_witness :
  let res := HTTPAsyncConn.read "https://api.example/depth" false error_response 7%Q
               (closed_channel "rest.http.0", world0 true) in
  (res.1 = Raise HTTPError <-> 400 <= status error_response) /\
  exists pre,
    trace res.2.2 = trace (world0 true) ++ pre ++
      [RawData (Some (text error_response)) 7%Q "rest.http.0"
         (Endpoint "https://api.example/depth" None)].
Proof.
  exact (proj1 (raw_data_before_status_error (closed_channel "rest.http.0") (world0 true)
                  "https://api.example/depth" "" false false true None error_response 7%Q
                  1 (at_second 7) throttled_10.1 one_address
                  (fun _ => (error_response, 7%Q)) eq_refl)).
Defined.

Lemma closed_channel_access_witness :
  WSAsyncConn.read [("frame", 1%Q)] (closed_channel "hitbtc.ws.0", world0 false)
  = (Raise ConnectionClosed,
     (closed_channel "hitbtc.ws.0",
      with_trace (world0 false)
        (trace (world0 false) ++ [Log Error "connection closed in read()"]))).
Proof.
  refine (proj1 (closed_channel_access (closed_channel "hitbtc.ws.0") (world0 false)
                   "wss://api.hitbtc.com/api/2/ws" "{}" false ok_response 1%Q
                   [("frame", 1%Q)] 1 (at_second 1) throttled_10.1 one_address
                   (fun _ => (ok_response, 1%Q)) 0 eq_refl _)).
  discriminate.
Defined.

Lemma ids_follow_shared_counter_witness :
  construct_all [(Http, "a"); (Ws "wss://x", "b"); (Http, "c")] (world0 false) !! 2%nat
  = Some (Ok (id_at Http "c" (conn_count (world0 false) + N.of_nat 2))).
Proof.
  apply ids_follow_shared_counter.
  - repeat constructor.
  - reflexivity.
Defined.
End ConnectionProps.


(* ===================================================================== *)
(** * Further properties of the adapter *)
(* ===================================================================== *)

Module HitBTCMore.
Import Py HitBTC HitBTCSpec HitBTCProps PyProps.

(** ** Snapshots *)

Lemma snapshot_entry_decoded (E : env) (pair : string) (sd : side) (entry : json)
    (ps : Qc * Qc) (b : book) (st : t) :
  decode_entry E entry = Ok ps ->
  l2_book st !! pair = Some b ->
  snapshot_entry E pair sd entry tt st
  = (Ok tt,
     {| seq_no := seq_no st;
        l2_book := <[pair := set_levels sd (<[ps.1 := ps.2]> (levels sd b)) b]> (l2_book st);
        emitted := emitted st; log := log st |}).
Proof.
  unfold decode_entry, snapshot_entry. intros Hd Hb. munfold.
  destruct (getitem entry "price") as [p|]; [|done]. cbn.
  destruct (Decimal E p) as [price|]; [|done]. cbn.
  destruct (getitem entry "size") as [s|]; [|done]. cbn.
  destruct (Decimal E s) as [size|]; [|done]. cbn.
  injection Hd as <-. by rewrite Hb.
Qed.

Lemma snapshot_entries_decoded (E : env) (pair : string) (sd : side) (entries : list json)
    (pss : list (Qc * Qc)) :
  Forall2 (fun entry ps => decode_entry E entry = Ok ps) entries pss ->
  forall (b : book) (st : t),
  l2_book st !! pair = Some b ->
  for_each (snapshot_entry E pair sd) entries tt st
  = (Ok tt,
     {| seq_no := seq_no st;
        l2_book := <[pair := set_levels sd (store_levels pss (levels sd b)) b]> (l2_book st);
        emitted := emitted st; log := log st |}).
Proof.
  induction 1 as [|entry ps entries pss Hd _ IH]; intros b st Hb.
  - cbn. unfold ret. rewrite set_levels_levels, insert_id by done. by destruct st.
  - cbn [for_each]. unfold bind at 1.
    rewrite (snapshot_entry_decoded E pair sd entry ps b st Hd Hb).
    erewrite IH by (cbn; apply lookup_insert_eq). cbn.
    by rewrite insert_insert_eq, levels_set_levels, set_levels_set_levels.
Qed.

Lemma snapshot_side_decoded (E : env) (pair : string) (msg : json) (sd : side)
    (pss : list (Qc * Qc)) (b : book) (st : t) :
  side_decodes E msg sd pss ->
  l2_book st !! pair = Some b ->
  snapshot_side E pair msg sd tt st
  = (Ok tt,
     {| seq_no := seq_no st;
        l2_book := <[pair := set_levels sd (store_levels pss (levels sd b)) b]> (l2_book st);
        emitted := emitted st; log := log st |}).
Proof.
  intros (es & entries & Hes & Hit & Hall) Hb. unfold snapshot_side.
  rewrite (bind_lift_ok _ _ _ _ Hes), (bind_lift_ok _ _ _ _ Hit).
  by apply snapshot_entries_decoded.
Qed.

Lemma snapshot_frame_stored (E : env) (msg sym : json) (pair : string) (timestamp : float)
    (bs ask_s : list (Qc * Qc)) (st : t) :
  getitem msg "symbol" = Ok sym ->
  exchange_symbol_to_std_symbol E sym false = Ok pair ->
  side_decodes E msg BID bs ->
  side_decodes E msg ASK ask_s ->
  let b' := {| bids := store_levels bs ∅; asks := store_levels ask_s ∅ |} in
  _snapshot E msg timestamp st
  = (Ok tt,
     {| seq_no := seq_no st;
        l2_book := <[pair := b']> (l2_book st);
        emitted := emitted st ++ [BookUpdate b' pair true None timestamp timestamp];
        log := log st |}).
Proof.
  intros Hsym Hpair Hbid Hask b'. unfold _snapshot.
  rewrite (bind_lift_ok _ _ _ _ Hsym), (bind_lift_ok _ _ _ _ Hpair).
  unfold bind at 1, set_book at 1, modify at 1. cbn [for_each].
  unfold bind at 1. unfold bind at 1.
  erewrite (snapshot_side_decoded E pair msg BID bs empty_book)
    by (done || apply lookup_insert_eq).
  unfold bind at 1.
  erewrite (snapshot_side_decoded E pair msg ASK ask_s)
    by (done || (cbn; apply lookup_insert_eq)).
  unfold ret at 1. unfold bind, book_of, emit, modify. cbn.
  rewrite !insert_insert_eq, lookup_insert_eq. reflexivity.
Qed.

Lemma store_levels_lookup (pss : list (Qc * Qc)) :
  forall (m : gmap Qc Qc) (price : Qc),
  store_levels pss m !! price
  = match last_size price pss with Some s => Some s | None => m !! price end.
Proof.
  induction pss as [|ps pss IH]; intros m price; [done|].
  unfold store_levels in *. cbn [fold_left last_size]. rewrite IH.
  destruct (last_size price pss); [done|].
  case_bool_decide as Hp.
  - subst price. apply lookup_insert_eq.
  - by apply lookup_insert_ne.
Qed.

(** X1. A snapshot frame whose entries decode, for a symbol the table knows,
    replaces the symbol's book by the frame's levels alone: nothing of the
    book the symbol had before remains, sizes are stored as given, the last
    entry for a price wins, and one snapshot event without delta is emitted.
    Handling the same frame again leaves the same books. *)
Theorem snapshot_replaces_book (E : env) (msg sym : json) (pair : string)
    (timestamp : float) (bs ask_s : list (Qc * Qc)) (st : t) :
  getitem msg "symbol" = Ok sym ->
  exchange_symbol_to_std_symbol E sym false = Ok pair ->
  side_decodes E msg BID bs ->
  side_decodes E msg ASK ask_s ->
  let b' := {| bids := store_levels bs ∅; asks := store_levels ask_s ∅ |} in
  let res := _snapshot E msg timestamp st in
  res.1 = Ok tt /\
  l2_book res.2 = <[pair := b']> (l2_book st) /\
  emitted res.2 = emitted st ++ [BookUpdate b' pair true None timestamp timestamp] /\
  seq_no res.2 = seq_no st /\
  (forall price, bids b' !! price = last_size price bs) /\
  (forall price, asks b' !! price = last_size price ask_s) /\
  l2_book (_snapshot E msg timestamp res.2).2 = l2_book res.2.
Proof.
  intros Hsym Hpair Hbid Hask b' res. subst res.
  rewrite (snapshot_frame_stored E msg sym pair timestamp bs ask_s st) by done.
  cbn [fst snd l2_book emitted seq_no].
  do 4 (split; [reflexivity|]). split; [|split].
  - intros price. cbn. rewrite store_levels_lookup.
    by destruct (last_size price bs).
  - intros price. cbn. rewrite store_levels_lookup.
    by destruct (last_size price ask_s).
  - rewrite (snapshot_frame_stored E msg sym pair timestamp bs ask_s) by done.
    cbn. by rewrite insert_insert_eq.
Qed.

Lemma snapshot_replaces_book_witness :
  l2_book (_snapshot Sample.E (Sample.params 1 [Sample.level 100 1] [Sample.level 101 2])
             0%Q (message_handler Sample.E snapshot_zero 0%Q init).2).2
  = <["BTC-USD" := {| bids := store_levels [(dec 100, dec 1)] ∅;
                      asks := store_levels [(dec 101, dec 2)] ∅ |}]>
      (l2_book (message_handler Sample.E snapshot_zero 0%Q init).2).
Proof.
  refine (proj1 (proj2 (snapshot_replaces_book Sample.E
            (Sample.params 1 [Sample.level 100 1] [Sample.level 101 2]) (JStr "BTCUSD")
            "BTC-USD" 0%Q [(dec 100, dec 1)] [(dec 101, dec 2)]
            (message_handler Sample.E snapshot_zero 0%Q init).2 _ _ _ _))).
  - reflexivity.
  - reflexivity.
  - exists (JList [Sample.level 100 1]), [Sample.level 100 1].
    repeat split; [reflexivity.. | repeat constructor].
  - exists (JList [Sample.level 101 2]), [Sample.level 101 2].
    repeat split; [reflexivity.. | repeat constructor].
Defined.

(** ** Incremental frames *)

Lemma book_entry_no_book (E : env) (pair : string) (sd : side) (entry : json) (d : delta)
    (st : t) :
  l2_book st !! pair = None ->
  exists e, book_entry E pair sd entry d st = (Raise e, st).
Proof.
  intros Hb. unfold book_entry. munfold.
  destruct (getitem entry "price") as [p|]; cbn; [|by eexists].
  destruct (Decimal E p) as [price|]; cbn; [|by eexists].
  destruct (getitem entry "size") as [s|]; cbn; [|by eexists].
  destruct (Decimal E s) as [size|]; cbn; [|by eexists].
  case_bool_decide; rewrite Hb; by eexists.
Qed.

Lemma book_side_no_book (E : env) (pair : string) (msg : json) (sd : side) (d : delta)
    (st : t) :
  l2_book st !! pair = None ->
  (book_side E pair msg sd d st).2 = st.
Proof.
  intros Hb. unfold book_side. munfold.
  destruct (getitem msg (side_key sd)) as [es|]; [|done]. cbn.
  destruct (iter es) as [[|entry entries]|]; [done| |done]. cbn [for_each].
  destruct (book_entry_no_book E pair sd entry d st Hb) as [e He].
  unfold bind at 1. by rewrite He.
Qed.

(** X2. An incremental frame for a symbol that has no book yet (no snapshot
    was handled for it) never succeeds: [_book] raises, whatever the frame
    holds, and leaves the adapter exactly as it was; no event is emitted. *)
Theorem delta_before_snapshot_raises (E : env) (msg : json) (timestamp : float) (st : t) :
  (forall sym pair,
     getitem msg "symbol" = Ok sym ->
     exchange_symbol_to_std_symbol E sym true = Ok pair ->
     l2_book st !! pair = None) ->
  (exists e, (_book E msg timestamp st).1 = Raise e) /\
  (_book E msg timestamp st).2 = st.
Proof.
  intros Hnone.
  assert (exists e, _book E msg timestamp st = (Raise e, st)) as [e ->];
    [|by split; [exists e|]].
  unfold _book. unfold bind at 1, lift at 1.
  destruct (getitem msg "symbol") as [sym|] eqn:Hsym; [|by eexists].
  unfold bind at 1, lift at 1.
  destruct (exchange_symbol_to_std_symbol E sym true) as [pair|] eqn:Hpair; [|by eexists].
  specialize (Hnone sym pair eq_refl Hpair).
  cbn [for_each]. unfold bind at 1. unfold bind at 1.
  pose proof (book_side_no_book E pair msg BID empty_delta st Hnone) as H1.
  destruct (book_side E pair msg BID empty_delta st) as [[d1|e1] st1]; cbn in H1; subst st1;
    [|by eexists].
  unfold bind at 1.
  pose proof (book_side_no_book E pair msg ASK d1 st Hnone) as H2.
  destruct (book_side E pair msg ASK d1 st) as [[d2|e2] st2]; cbn in H2; subst st2;
    [|by eexists].
  unfold ret at 1. unfold bind, book_of. rewrite Hnone. by eexists.
Qed.

Lemma delta_before_snapshot_raises_witness :
  (_book Sample.E (Sample.params 2 [] [Sample.level 101 0]) 0%Q init).2 = init.
Proof.
  refine (proj2 (delta_before_snapshot_raises Sample.E
                   (Sample.params 2 [] [Sample.level 101 0]) 0%Q init _)).
  intros sym pair _ _. unfold init. cbn [l2_book]. apply lookup_empty.
Defined.





(** ** What a frame leaves alone *)

Lemma preserves_modify P (f : t -> t) :
  (forall st, P st -> P (f st)) -> preserves P (modify f).
Proof. intros Hf st Hst. by apply Hf. Qed.

Lemma preserves_book_of_plain P pair : preserves P (book_of pair).
Proof. intros st Hst. unfold book_of. by destruct (l2_book st !! pair). Qed.

Lemma preserves_bind_lift {A B} P (r : res A) (k : A -> M t B) :
  (forall a, r = Ok a -> preserves P (k a)) -> preserves P (bind (lift r) k).
Proof.
  intros Hk st Hst. unfold bind, lift. destruct r as [a|e]; [|done]. by apply Hk.
Qed.

(** Steps through a handler whose every write keeps [P]. *)
Ltac keeps :=
  repeat first
    [ apply preserves_ret
    | apply preserves_raise
    | apply preserves_lift
    | apply preserves_get
    | apply preserves_book_of_plain
    | apply preserves_bind; [|intros ?]
    | apply preserves_for_each; intros ? ? _
    | match goal with
      | |- preserves _ (if ?c then _ else _) => destruct c
      | |- preserves _ (match ?c with _ => _ end) => destruct c
      end
    | apply preserves_modify; intros ? ?; cbn; assumption ].

Lemma book_keeps_other_books E msg timestamp pair' v :
  (forall sym pair,
     getitem msg "symbol" = Ok sym ->
     exchange_symbol_to_std_symbol E sym true = Ok pair -> pair <> pair') ->
  preserves (fun st => l2_book st !! pair' = v) (_book E msg timestamp).
Proof.
  intros Hne. unfold _book.
  apply preserves_bind_lift. intros sym Hsym.
  apply preserves_bind_lift. intros pair Hpair.
  specialize (Hne sym pair Hsym Hpair).
  apply preserves_bind; [|intros d; unfold emit; keeps].
  apply preserves_for_each. intros sd d _. unfold book_side.
  apply preserves_bind; [apply preserves_lift | intros es].
  apply preserves_bind; [apply preserves_lift | intros entries].
  apply preserves_for_each. intros entry d' _. unfold book_entry, set_book.
  keeps; apply preserves_modify; intros st Hst; cbn; by rewrite lookup_insert_ne.
Qed.

Lemma snapshot_keeps_other_books E msg timestamp pair' v :
  (forall sym pair,
     getitem msg "symbol" = Ok sym ->
     exchange_symbol_to_std_symbol E sym false = Ok pair -> pair <> pair') ->
  preserves (fun st => l2_book st !! pair' = v) (_snapshot E msg timestamp).
Proof.
  intros Hne. unfold _snapshot.
  apply preserves_bind_lift. intros sym Hsym.
  apply preserves_bind_lift. intros pair Hpair.
  specialize (Hne sym pair Hsym Hpair).
  apply preserves_bind.
  { apply preserves_modify. intros st Hst. cbn. by rewrite lookup_insert_ne. }
  intros _. apply preserves_bind; [|intros _; unfold emit; keeps].
  apply preserves_for_each. intros sd [] _. unfold snapshot_side.
  apply preserves_bind; [apply preserves_lift | intros es].
  apply preserves_bind; [apply preserves_lift | intros entries].
  apply preserves_for_each. intros entry [] _. unfold snapshot_entry, set_book.
  keeps; apply preserves_modify; intros st Hst; cbn; by rewrite lookup_insert_ne.
Qed.

(** X4. A snapshot or incremental frame touches the book of its own symbol
    only: whatever the frame holds, and whether the handler returns or
    raises half-way, the book of every other symbol is as before. *)
Theorem book_frames_keep_other_books (E : env) (msg : json) (timestamp : float)
    (pair' : string) (st : t) :
  (forall sym allow_missing pair,
     getitem msg "symbol" = Ok sym ->
     exchange_symbol_to_std_symbol E sym allow_missing = Ok pair -> pair <> pair') ->
  l2_book (_book E msg timestamp st).2 !! pair' = l2_book st !! pair' /\
  l2_book (_snapshot E msg timestamp st).2 !! pair' = l2_book st !! pair'.
Proof.
  intros Hne. split.
  - apply (book_keeps_other_books E msg timestamp pair' (l2_book st !! pair')); [|done].
    intros sym pair. apply Hne.
  - apply (snapshot_keeps_other_books E msg timestamp pair' (l2_book st !! pair')); [|done].
    intros sym pair. apply Hne.
Qed.

Lemma book_frames_keep_other_books_witness :
  l2_book (_snapshot Sample.E (Sample.params 1 [Sample.level 100 1] [Sample.level 101 2])
             0%Q init).2 !! "ETH-USD"
  = l2_book init !! "ETH-USD".
Proof.
  refine (proj2 (book_frames_keep_other_books Sample.E
                   (Sample.params 1 [Sample.level 100 1] [Sample.level 101 2]) 0%Q
                   "ETH-USD" init _)).
  intros sym allow_missing pair Hsym. injection Hsym as <-.
  destruct allow_missing; intros H; injection H as <-; discriminate.
Defined.

Lemma dispatch_keeps_seq_no E msg timestamp m :
  preserves (fun st => seq_no st = m) (dispatch E msg timestamp).
Proof.
  unfold dispatch, _ticker, _snapshot, _book, _trades, book_side, snapshot_side,
    book_entry, snapshot_entry, trade_entry, emit, set_book, write_log.
  keeps.
Qed.



Lemma check_sequence_keeps_other k' v msg :
  (forall params sym,
     getitem msg "params" = Ok params ->
     getitem params "symbol" = Ok sym -> hash_key sym <> Ok k') ->
  preserves (fun st => seq_no st !! k' = v) (check_sequence msg).
Proof.
  intros Hne st Hst. unfold check_sequence. munfold.
  destruct (carries_sequence msg) as [[]|]; cbn; [|done..].
  destruct (getitem msg "params") as [params|] eqn:Hp; cbn; [|done].
  destruct (getitem params "symbol") as [pair|] eqn:Hsym; cbn; [|done].
  destruct (hash_key pair) as [k|] eqn:Hk; cbn; [|done].
  assert (k <> k') as Hkk by (intros ->; by eapply Hne).
  destruct (seq_no st !! k) as [last|]; cbn.
  - destruct (add1 last) as [next|]; cbn; [|done].
    destruct (getitem params "sequence") as [s|]; cbn; [|done].
    destruct (num_ne next s); cbn; [done|]. by rewrite lookup_insert_ne.
  - destruct (getitem params "sequence") as [s|]; cbn; [|done]. by rewrite lookup_insert_ne.
Qed.

(** X6. Sequence numbers are kept per symbol: whatever a frame holds and
    whatever its handling does, the number recorded for any symbol other
    than the frame's own is as before. *)
Theorem sequence_of_other_symbols_kept (E : env) (msg : json) (timestamp : float)
    (k' : hashable) (st : t) :
  (forall params sym,
     getitem msg "params" = Ok params ->
     getitem params "symbol" = Ok sym -> hash_key sym <> Ok k') ->
  seq_no (message_handler E msg timestamp st).2 !! k' = seq_no st !! k'.
Proof.
  intros Hne. unfold message_handler.
  pose proof (check_sequence_keeps_other k' (seq_no st !! k') msg Hne st eq_refl) as H1.
  unfold bind. destruct (check_sequence msg st) as [[[]|e] st1]; cbn in *; [|done].
  rewrite <- H1. f_equal.
  by apply (dispatch_keeps_seq_no E msg timestamp (seq_no st1)).
Qed.

Lemma sequence_of_other_symbols_kept_witness :
  seq_no (message_handler Sample.E delta_gap 0%Q
            (message_handler Sample.E snapshot_A 0%Q init).2).2 !! HStr "ETHUSD"
  = seq_no (message_handler Sample.E snapshot_A 0%Q init).2 !! HStr "ETHUSD".
Proof.
  apply sequence_of_other_symbols_kept.
  intros params sym Hp. injection Hp as <-. intros Hs. injection Hs as <-. discriminate.
Defined.

Lemma keeps_books_other (m : gmap string book) (st st' : t) :
  l2_book st' = l2_book st -> l2_book st = m -> l2_book st' = m.
Proof. congruence. Qed.

(** X7. Only the two order-book methods can change a book: a frame whose
    method is neither [snapshotOrderbook] nor [updateOrderbook] (ticker and
    trade frames, unknown methods, channel frames, result and error
    envelopes) leaves every book as it was, whether it is handled or raises. *)
Theorem only_book_frames_change_books (E : env) (msg : json) (timestamp : float) (st : t) :
  (forall m, getitem msg "method" = Ok m ->
             eq_str m "snapshotOrderbook" = false /\ eq_str m "updateOrderbook" = false) ->
  l2_book (message_handler E msg timestamp st).2 = l2_book st.
Proof.
  intros Hm.
  enough (preserves (fun st' => l2_book st' = l2_book st) (message_handler E msg timestamp))
    as H by (by apply H).
  unfold message_handler. apply preserves_bind.
  { intros st0 Hst0. rewrite <- Hst0. apply check_sequence_keeps_books. }
  intros _. unfold dispatch.
  apply preserves_bind; [apply preserves_lift | intros [|]].
  - apply preserves_bind_lift. intros m Hget. destruct (Hm m Hget) as [Hs Hu].
    rewrite Hs, Hu.
    destruct (eq_str m "ticker").
    { apply preserves_bind; [apply preserves_lift | intros params].
      apply ticker_keeps_books, keeps_books_other. }
    destruct (eq_str m "updateTrades" || eq_str m "snapshotTrades").
    { apply preserves_bind; [apply preserves_lift | intros params].
      apply trades_keeps_books, keeps_books_other. }
    apply preserves_write_log, keeps_books_other.
  - apply preserves_bind; [apply preserves_lift | intros [|]].
    + apply preserves_bind; [apply preserves_lift | intros c].
      destruct (eq_str c "ticker").
      * apply preserves_bind; [apply preserves_lift | intros data].
        apply ticker_keeps_books, keeps_books_other.
      * apply preserves_write_log, keeps_books_other.
    + apply preserves_bind; [apply preserves_lift | intros has_error].
      apply preserves_bind.
      * destruct has_error; [apply preserves_ret|].
        apply preserves_bind; [apply preserves_lift | intros; apply preserves_ret].
      * intros [|]; [apply preserves_write_log, keeps_books_other | apply preserves_ret].
Qed.

Lemma only_book_frames_change_books_witness :
  l2_book (message_handler Sample.E trades_frame 9%Q
             (message_handler Sample.E snapshot_A 0%Q init).2).2
  = l2_book (message_handler Sample.E snapshot_A 0%Q init).2.
Proof.
  apply only_book_frames_change_books.
  intros m Hm. injection Hm as <-. split; reflexivity.
Defined.

(** X8. A frame with no method, channel or error member is a result
    envelope.  When the sequence test is false (no [params] member, or one
    that does not hold [sequence]): with a truthy [result] the frame is
    accepted in silence (nothing logged, nothing changed); without a
    [result] member the lookup raises, and the frame is not dropped but
    fails the handler, the adapter still unchanged.  When [params] is null,
    a boolean or a number, the sequence test raises [TypeError] before
    [result] is looked at. *)
Theorem result_envelope (E : env) (msg : json) (timestamp : float) (st : t) :
  plain_envelope msg ->
  (no_sequence msg ->
   (forall r, getitem msg "result" = Ok r -> truthy r = true ->
              message_handler E msg timestamp st = (Ok tt, st)) /\
   (forall e, getitem msg "result" = Raise e ->
              message_handler E msg timestamp st = (Raise e, st))) /\
  (scalar_params msg ->
   message_handler E msg timestamp st = (Raise TypeError, st)).
Proof.
  intros (Hm & Hc & He). split.
  - intros Hseq%carries_sequence_false. split.
    + intros r Hr Ht. rewrite after_check, (check_sequence_absent _ _ Hseq). unfold dispatch.
      rewrite (bind_lift_ok _ _ _ _ Hm), (bind_lift_ok _ _ _ _ Hc),
        (bind_lift_ok _ _ _ _ He).
      unfold bind at 1. unfold bind at 1. unfold lift at 1. rewrite Hr.
      unfold ret at 1. by rewrite Ht.
    + intros e Hr. rewrite after_check, (check_sequence_absent _ _ Hseq). unfold dispatch.
      rewrite (bind_lift_ok _ _ _ _ Hm), (bind_lift_ok _ _ _ _ Hc),
        (bind_lift_ok _ _ _ _ He).
      unfold bind at 1. unfold bind at 1. unfold lift at 1. by rewrite Hr.
  - intros Hseq%carries_sequence_scalar.
    by rewrite after_check, (check_sequence_fails _ _ _ Hseq).
Qed.

Lemma result_envelope_witness :
  message_handler Sample.E ack_frame 0%Q init = (Ok tt, init).
Proof.
  refine (proj1 (proj1 (result_envelope Sample.E ack_frame 0%Q init _) _)
            (JBool true) eq_refl eq_refl).
  - repeat split; reflexivity.
  - by left.
Defined.

(** X9. A ticker frame whose members are present and convert is reported
    once the sequence check has returned: one ticker event that carries the
    normalized exchange time as [timestamp] and the local receipt time as
    [receipt_timestamp] is added to the state the check left (the state
    before the frame, when the frame carries no sequence number), and
    nothing else changes; when the check raises, no event is emitted.  The
    two wire shapes, method [ticker] with [params] and channel [ticker] with
    [data], give the same event. *)
Theorem ticker_reports_receipt_time (E : env) (p sym b a ts bid ask : json)
    (symbol : string) (t' timestamp : float) (st : t) :
  getitem p "symbol" = Ok sym ->
  exchange_symbol_to_std_symbol E sym true = Ok symbol ->
  getitem p "bid" = Ok b -> maybe_decimal E b = Ok bid ->
  getitem p "ask" = Ok a -> maybe_decimal E a = Ok ask ->
  getitem p "timestamp" = Ok ts -> timestamp_normalize E ts = Ok t' ->
  let report := fun st1 : t =>
    with_emitted st1 (emitted st1 ++ [Ticker symbol bid ask t' timestamp]) in
  let handled := fun msg : json =>
    message_handler E msg timestamp st
    = match check_sequence msg st with
      | (Ok _, st1) => (Ok tt, report st1)
      | (Raise e, st1) => (Raise e, st1)
      end /\
    (no_sequence msg -> message_handler E msg timestamp st = (Ok tt, report st)) in
  _ticker E p timestamp st = (Ok tt, report st) /\
  (forall msg,
     contains "method" msg = Ok true ->
     getitem msg "method" = Ok (JStr "ticker") ->
     getitem msg "params" = Ok p ->
     handled msg) /\
  (forall msg,
     contains "method" msg = Ok false ->
     contains "channel" msg = Ok true ->
     getitem msg "channel" = Ok (JStr "ticker") ->
     getitem msg "data" = Ok p ->
     handled msg).
Proof.
  intros Hsym Hstd Hb Hbid Ha Hask Hts Ht report handled.
  assert (forall st1, _ticker E p timestamp st1 = (Ok tt, report st1)) as Hticker.
  { intros st1. unfold _ticker.
    rewrite (bind_lift_ok _ _ _ _ Hsym), (bind_lift_ok _ _ _ _ Hstd),
      (bind_lift_ok _ _ _ _ Hb), (bind_lift_ok _ _ _ _ Hbid),
      (bind_lift_ok _ _ _ _ Ha), (bind_lift_ok _ _ _ _ Hask),
      (bind_lift_ok _ _ _ _ Hts), (bind_lift_ok _ _ _ _ Ht). reflexivity. }
  assert (forall msg,
            (forall st1, dispatch E msg timestamp st1 = _ticker E p timestamp st1) ->
            handled msg) as Hhandled.
  { intros msg Hd. subst handled. cbv beta. split.
    - rewrite after_check. destruct (check_sequence msg st) as [[[]|e] st1]; [|done].
      by rewrite Hd.
    - intros Hseq%carries_sequence_false.
      by rewrite after_check, (check_sequence_absent _ _ Hseq), Hd. }
  split; [done|]. split.
  - intros msg Hm Hget Hp. apply Hhandled. intros st1. unfold dispatch.
    rewrite (bind_lift_ok _ _ _ _ Hm), (bind_lift_ok _ _ _ _ Hget).
    cbn [eq_str]. rewrite String.eqb_refl. cbv iota.
    by rewrite (bind_lift_ok _ _ _ _ Hp).
  - intros msg Hm Hc Hget Hp. apply Hhandled. intros st1. unfold dispatch.
    rewrite (bind_lift_ok _ _ _ _ Hm), (bind_lift_ok _ _ _ _ Hc),
      (bind_lift_ok _ _ _ _ Hget).
    cbn [eq_str]. rewrite String.eqb_refl. cbv iota.
    by rewrite (bind_lift_ok _ _ _ _ Hp).
Qed.

Lemma ticker_reports_receipt_time_witness :
  message_handler Sample.E ticker_channel_frame 9%Q init
  = (Ok tt,
     with_emitted init
       (emitted init ++ [Ticker "BTC-USD" (JStr "100") (JStr "101") 5%Q 9%Q])).
Proof.
  refine (proj2 (proj2 (proj2 (ticker_reports_receipt_time Sample.E ticker_params
            (JStr "BTCUSD") (JStr "100") (JStr "101") (JNum (dec 5000)) (JStr "100")
            (JStr "101") "BTC-USD" 5%Q 9%Q init _ _ _ _ _ _ _ _))
            ticker_channel_frame _ _ _ _) _);
    try reflexivity.
  by left.
Defined.

(** ** Symbol data *)

Lemma str_take_drop (n : nat) (s : string) : str_take n s +:+ str_drop n s = s.
Proof.
  revert s. induction n as [|n IH]; intros [|c s]; cbn [str_take str_drop]; try done.
  change (String c (str_take n s +:+ str_drop n s) = String c s). by rewrite IH.
Qed.

Lemma length_append (s1 s2 : string) :
  String.length (s1 +:+ s2) = (String.length s1 + String.length s2)%nat.
Proof.
  induction s1 as [|c s1 IH]; [done|].
  change (S (String.length (s1 +:+ s2)) = S (String.length s1 + String.length s2)).
  by rewrite IH.
Qed.

Lemma normalized_length (n : nat) (s sep : string) :
  String.length (str_take n s +:+ sep +:+ str_drop n s)
  = (String.length s + String.length sep)%nat.
Proof.
  pose proof (f_equal String.length (str_take_drop n s)) as H.
  rewrite !length_append in *. lia.
Qed.

Lemma parse_symbol_ok (sep : string) (symbol : json) (acc acc' : symbols) :
  parse_symbol sep symbol tt acc = (Ok tt, acc') ->
  exists bc n s tick,
    getitem symbol "baseCurrency" = Ok bc /\ len bc = Ok n /\
    getitem symbol "id" = Ok (JStr s) /\ getitem symbol "tickSize" = Ok tick /\
    acc' = (<[str_take n s +:+ sep +:+ str_drop n s := s]> acc.1,
            <["tick_size" := <[str_take n s +:+ sep +:+ str_drop n s := tick]>
                               (default ∅ (acc.2 !! "tick_size"))]> acc.2).
Proof.
  unfold parse_symbol. munfold.
  destruct (getitem symbol "baseCurrency") as [bc|]; [|done]. cbn.
  destruct (len bc) as [n|] eqn:Hlen; [|done]. cbn.
  destruct (getitem symbol "id") as [[| | |s| |]|]; try done. cbn.
  destruct (getitem symbol "tickSize") as [tick|]; [|done]. cbn.
  intros H. inversion H. by exists bc, n, s, tick.
Qed.

Lemma parse_symbol_well_keyed (sep : string) (symbol : json) (acc acc' : symbols) :
  parse_symbol sep symbol tt acc = (Ok tt, acc') ->
  well_keyed sep acc -> well_keyed sep acc'.
Proof.
  intros Hrun (Hkey & Hdom & Hother).
  destruct (parse_symbol_ok sep symbol acc acc' Hrun)
    as (bc & n & s & tick & _ & _ & _ & _ & ->).
  set (norm := str_take n s +:+ sep +:+ str_drop n s). unfold well_keyed. cbn [fst snd].
  split; [|split].
  - intros k v. destruct (decide (norm = k)) as [<-|Hk].
    + rewrite lookup_insert_eq. intros [= <-]. by exists n.
    + rewrite lookup_insert_ne by done. apply Hkey.
  - intros k. rewrite lookup_insert_eq. destruct (decide (norm = k)) as [<-|Hk].
    + rewrite lookup_insert_eq. split; [|by eexists].
      intros _. eexists. split; [done|]. rewrite lookup_insert_eq. by eexists.
    + rewrite lookup_insert_ne by done. rewrite Hdom. split.
      * intros (ticks & Ht & Hin). eexists. split; [done|].
        rewrite lookup_insert_ne by done. by rewrite Ht.
      * intros (ticks & [= <-] & Hin). rewrite lookup_insert_ne in Hin by done.
        destruct (acc.2 !! "tick_size") as [ticks|] eqn:Ht; cbn in Hin.
        -- by exists ticks.
        -- rewrite lookup_empty in Hin. by destruct Hin.
  - intros k Hk. rewrite lookup_insert_ne by done. by apply Hother.
Qed.

Lemma parse_symbols_well_keyed (sep : string) (entries : list json) :
  forall acc acc',
  for_each (parse_symbol sep) entries tt acc = (Ok tt, acc') ->
  well_keyed sep acc -> well_keyed sep acc'.
Proof.
  induction entries as [|symbol entries IH]; intros acc acc' Hrun Hacc.
  - cbn in Hrun. by injection Hrun as <-.
  - cbn [for_each] in Hrun. unfold bind in Hrun.
    destruct (parse_symbol sep symbol tt acc) as [[[]|e] acc1] eqn:Hstep; [|done].
    eapply IH; [done|]. by eapply parse_symbol_well_keyed.
Qed.

Lemma parse_symbols_keys_grow (sep : string) (entries : list json) :
  forall acc acc' k,
  for_each (parse_symbol sep) entries tt acc = (Ok tt, acc') ->
  is_Some (acc.1 !! k) -> is_Some (acc'.1 !! k).
Proof.
  induction entries as [|symbol entries IH]; intros acc acc' k Hrun Hk.
  - cbn in Hrun. by injection Hrun as <-.
  - cbn [for_each] in Hrun. unfold bind in Hrun.
    destruct (parse_symbol sep symbol tt acc) as [[[]|e] acc1] eqn:Hstep; [|done].
    eapply IH; [done|].
    destruct (parse_symbol_ok sep symbol acc acc1 Hstep)
      as (bc & n & s & tick & _ & _ & _ & _ & ->).
    cbn [fst snd]. rewrite lookup_insert_is_Some. destruct (decide (str_take n s +:+ sep +:+ str_drop n s = k)); auto.
Qed.

Lemma parse_symbols_all_named (sep : string) (entries : list json) :
  forall acc acc',
  for_each (parse_symbol sep) entries tt acc = (Ok tt, acc') ->
  forall symbol bc n s,
    symbol ∈ entries ->
    getitem symbol "baseCurrency" = Ok bc -> len bc = Ok n ->
    getitem symbol "id" = Ok (JStr s) ->
    is_Some (acc'.1 !! (str_take n s +:+ sep +:+ str_drop n s)).
Proof.
  induction entries as [|x entries IH]; intros acc acc' Hrun symbol bc n s Hin Hbc Hn Hid.
  - by apply elem_of_nil in Hin.
  - cbn [for_each] in Hrun. unfold bind in Hrun.
    destruct (parse_symbol sep x tt acc) as [[[]|e] acc1] eqn:Hstep; [|done].
    apply elem_of_cons in Hin as [->|Hin].
    + eapply parse_symbols_keys_grow; [done|].
      destruct (parse_symbol_ok sep x acc acc1 Hstep)
        as (bc' & n' & s' & tick & Hbc' & Hn' & Hid' & _ & ->).
      rewrite Hbc in Hbc'. injection Hbc' as <-. rewrite Hn in Hn'. injection Hn' as <-.
      rewrite Hid in Hid'. injection Hid' as <-. cbn [fst snd].
      rewrite lookup_insert_eq. by eexists.
    + by eapply IH.
Qed.

(** X10. When [_parse_symbol_data] returns: every key of the symbol mapping
    is its exchange id with the separator inserted at some position (so the
    key is longer than the id by the separator, and with an empty separator
    the mapping is the identity on ids); every symbol of the data has its
    normalized name among the keys; the tick-size table has exactly the same
    keys; and [info] holds no entry but ['tick_size']. *)
Theorem parse_symbol_data_keys (data : json) (sep : string) (entries : list json)
    (ret : gmap string string) (info : gmap string (gmap string json)) :
  iter data = Ok entries ->
  _parse_symbol_data data sep = Ok (ret, info) ->
  (forall k v, ret !! k = Some v ->
     (exists n, k = str_take n v +:+ sep +:+ str_drop n v) /\
     String.length k = (String.length v + String.length sep)%nat /\
     (sep = "" -> k = v)) /\
  (forall symbol bc n s,
     symbol ∈ entries ->
     getitem symbol "baseCurrency" = Ok bc -> len bc = Ok n ->
     getitem symbol "id" = Ok (JStr s) ->
     is_Some (ret !! (str_take n s +:+ sep +:+ str_drop n s))) /\
  (forall k, is_Some (ret !! k) <->
     exists ticks, info !! "tick_size" = Some ticks /\ is_Some (ticks !! k)) /\
  (forall k, k <> "tick_size" -> info !! k = None).
Proof.
  intros Hiter. unfold _parse_symbol_data. rewrite Hiter.
  destruct (for_each (parse_symbol sep) entries tt (∅, ∅)) as [[[]|e] acc] eqn:Hrun; [|done].
  intros [= ->].
  assert (well_keyed sep (ret, info)) as (Hkey & Hdom & Hother).
  { eapply parse_symbols_well_keyed; [done|]. split; [|split]; cbn.
    - intros k v Hk. by rewrite lookup_empty in Hk.
    - intros k. rewrite !lookup_empty. split.
      + by intros [? ?].
      + by intros (ticks & ? & _).
    - intros k _. apply lookup_empty. }
  cbn in Hkey, Hdom, Hother. split; [|split; [|split]]; try done.
  - intros k v Hk. destruct (Hkey k v Hk) as [n ->]. split; [by exists n|]. split.
    + apply normalized_length.
    + intros ->. cbn. apply str_take_drop.
  - intros symbol bc n s. by apply (parse_symbols_all_named sep entries (∅, ∅) (ret, info)).
Qed.

Lemma parse_symbol_data_keys_witness :
  String.length "DOGE-BTC" = (String.length "DOGEBTC" + String.length "-")%nat.
Proof.
  refine (proj1 (proj2 (proj1 (parse_symbol_data_keys symbol_data "-" _
            (<["DOGE-BTC" := "DOGEBTC"]> (<["BTC-USD" := "BTCUSD"]> ∅))
            (<["tick_size" := <["DOGE-BTC" := JStr "0.0000000001"]>
                                (<["BTC-USD" := JStr "0.01"]> ∅)]> ∅)
            eq_refl _) "DOGE-BTC" "DOGEBTC" _))).
  - vm_compute. reflexivity.
  - vm_compute. reflexivity.
Defined.

(** ** Partial application *)

Lemma book_entry_undecoded (E : env) (pair : string) (sd : side) (entry : json) (d : delta)
    (e : exn) (st : t) :
  decode_entry E entry = Raise e ->
  book_entry E pair sd entry d st = (Raise e, st).
Proof.
  unfold decode_entry, book_entry. intros Hd. munfold.
  destruct (getitem entry "price") as [p|]; cbn; [|by injection Hd as ->].
  destruct (Decimal E p) as [price|]; cbn; [|by injection Hd as ->].
  destruct (getitem entry "size") as [s|]; cbn; [|by injection Hd as ->].
  destruct (Decimal E s) as [size|]; cbn; [done|by injection Hd as ->].
Qed.

(** X11. An incremental frame is not applied atomically: when an entry of
    its bid list cannot be decoded, [_book] raises what the decoding raised,
    the entries before that one stay applied to the stored book, the ask
    list is not looked at, and no book event is emitted for the change. *)
Theorem delta_is_not_atomic (E : env) (msg sym es : json) (pair : string)
    (timestamp : float) (good : list json) (bad : json) (rest : list json)
    (applied : list (Qc * Qc)) (e : exn) (b : book) (st : t) :
  getitem msg "symbol" = Ok sym ->
  exchange_symbol_to_std_symbol E sym true = Ok pair ->
  getitem msg (side_key BID) = Ok es ->
  iter es = Ok (good ++ bad :: rest) ->
  Forall2 (fun entry ps => decode_entry E entry = Ok ps) good applied ->
  decode_entry E bad = Raise e ->
  l2_book st !! pair = Some b ->
  let r := _book E msg timestamp st in
  r.1 = Raise e /\
  l2_book r.2
  = <[pair := {| bids := apply_levels applied (bids b); asks := asks b |}]> (l2_book st) /\
  emitted r.2 = emitted st /\ seq_no r.2 = seq_no st /\ log r.2 = log st.
Proof.
  intros Hsym Hpair Hes Hit Hgood Hbad Hb r. subst r.
  destruct (book_entries_decoded E pair BID good applied Hgood empty_delta b st Hb)
    as (st1 & Hrun & Hbook & Hseq & Hem & Hlog).
  assert (book_side E pair msg BID empty_delta st = (Raise e, st1)) as Hside.
  { unfold book_side.
    rewrite (bind_lift_ok _ _ _ _ Hes), (bind_lift_ok _ _ _ _ Hit).
    rewrite for_each_app, Hrun. cbn [for_each]. unfold bind.
    by rewrite (book_entry_undecoded _ _ _ _ _ _ _ Hbad). }
  assert (_book E msg timestamp st = (Raise e, st1)) as ->.
  { unfold _book. rewrite (bind_lift_ok _ _ _ _ Hsym), (bind_lift_ok _ _ _ _ Hpair).
    cbn [for_each]. unfold bind. by rewrite Hside. }
  cbn [fst snd]. by rewrite Hbook, Hseq, Hem, Hlog.
Qed.

Lemma delta_is_not_atomic_witness :
  let msg := JDict [("symbol", JStr "BTCUSD");
                    ("bid", JList [JDict [("price", JNum (dec 100)); ("size", JNum (dec 2))];
                                   JDict [("price", JNum (dec 99))]]);
                    ("ask", JList [])] in
  let st := {| seq_no := ∅; l2_book := {["BTC-USD" := empty_book]}; emitted := [];
               log := [] |} in
  let r := _book Sample.E msg 7%Q st in
  r.1 = Raise KeyError /\
  l2_book r.2
  = <["BTC-USD" := {| bids := apply_levels [(dec 100, dec 2)] (bids empty_book);
                      asks := asks empty_book |}]> (l2_book st) /\
  emitted r.2 = emitted st /\ seq_no r.2 = seq_no st /\ log r.2 = log st.
Proof.
  apply (delta_is_not_atomic Sample.E
           (JDict [("symbol", JStr "BTCUSD");
                   ("bid", JList [JDict [("price", JNum (dec 100)); ("size", JNum (dec 2))];
                                  JDict [("price", JNum (dec 99))]]);
                   ("ask", JList [])])
           (JStr "BTCUSD")
           (JList [JDict [("price", JNum (dec 100)); ("size", JNum (dec 2))];
                   JDict [("price", JNum (dec 99))]])
           "BTC-USD" 7%Q [JDict [("price", JNum (dec 100)); ("size", JNum (dec 2))]]
           (JDict [("price", JNum (dec 99))]) [] [(dec 100, dec 2)] KeyError empty_book).
  - reflexivity.
  - reflexivity.
  - reflexivity.
  - reflexivity.
  - repeat constructor.
  - reflexivity.
  - reflexivity.
Defined.

End HitBTCMore.

(* ===================================================================== *)
(** * Further properties of the channels *)
(* ===================================================================== *)

Module ConnectionMore.
Import Py Connection ConnectionSpec ConnectionProps PyProps.

(** ** Subscribing *)

Lemma ws_write_open (address data : string) (now : float) (self : AsyncConnection)
    (w : world) :
  is_open self = true ->
  WSAsyncConn.write address data now (self, w)
  = (Ok tt, (after_write self,
             with_trace w (trace w ++ ws_send_io w self address now data))).
Proof.
  intros H. destruct w as [cc [] nh tr];
    unfold WSAsyncConn.write, ws_send_io, sink, with_trace, after_write;
    cunfold; cbn; rewrite H; cbn; rewrite <- ?app_assoc; reflexivity.
Qed.

(** The frames of one channel of the subscription. *)
Lemma subscribe_channel (chan : string) (pairs : list string) (dumps : json -> string)
    (address : string) (now : float) (self : AsyncConnection) (w : world) :
  is_open self = true ->
  for_each (fun (pair : string) (_ : unit) =>
       let* s := get in
       WSAsyncConn.write address (dumps (HitBTC.subscription_frame chan pair (id s.1))) now)
    pairs tt (self, w)
  = (Ok tt,
     (set_sent (sent self + N.of_nat (length pairs)) self,
      with_trace w
        (trace w ++ flat_map (fun pair =>
             ws_send_io w self address now
               (dumps (HitBTC.subscription_frame chan pair (id self)))) pairs))).
Proof.
  revert self w. induction pairs as [|pair pairs IH]; intros self w H.
  - destruct self, w. cbn. unfold ret, set_sent, with_trace. cbn.
    by rewrite N.add_0_r, app_nil_r.
  - cbn [for_each]. unfold bind at 1. unfold bind at 1, get at 1. cbn [fst snd].
    rewrite (ws_write_open _ _ _ _ _ H). rewrite IH by done.
    unfold set_sent, after_write, with_trace. cbn [id sent received last_message conn
      conn_count raw_data_callback next_handle trace length flat_map].
    f_equal. f_equal.
    + f_equal. lia.
    + f_equal. rewrite <- app_assoc. reflexivity.
Qed.

Lemma subscribe_open (subscription : list (string * list string)) (dumps : json -> string)
    (address : string) (now : float) (self : AsyncConnection) (w : world) :
  is_open self = true ->
  HitBTC.subscribe subscription dumps address now (self, w)
  = (Ok tt,
     (set_sent (sent self + N.of_nat (length (HitBTCSpec.requests subscription))) self,
      with_trace w
        (trace w ++ flat_map (fun cp : string * string =>
             ws_send_io w self address now
               (dumps (HitBTC.subscription_frame cp.1 cp.2 (id self))))
           (HitBTCSpec.requests subscription)))).
Proof.
  unfold HitBTC.subscribe, HitBTCSpec.requests.
  revert self w. induction subscription as [|[chan pairs] subscription IH]; intros self w H.
  - destruct self, w. cbn. unfold ret, set_sent, with_trace. cbn.
    by rewrite N.add_0_r, app_nil_r.
  - cbn [for_each]. unfold bind at 1. cbn [fst snd].
    rewrite (subscribe_channel chan pairs dumps address now self w H).
    rewrite IH by done.
    unfold set_sent, with_trace. cbn [id sent received last_message conn
      conn_count raw_data_callback next_handle trace flat_map fst snd].
    f_equal. f_equal.
    + f_equal. rewrite length_app, length_map. lia.
    + f_equal. rewrite <- app_assoc. f_equal. rewrite flat_map_app. f_equal.
      induction pairs as [|pair pairs IHp]; [done|]. cbn. by rewrite IHp.
Qed.

Lemma yields_app (a b : list io) : yields (a ++ b) = yields a ++ yields b.
Proof. apply omap_app. Qed.

Lemma requested_app (a b : list io) : requested (a ++ b) = requested a ++ requested b.
Proof. apply omap_app. Qed.

Lemma frames_sent_app (a b : list io) : frames_sent (a ++ b) = frames_sent a ++ frames_sent b.
Proof. apply omap_app. Qed.

Lemma slept_app (a b : list io) : slept (a ++ b) = slept a ++ slept b.
Proof. apply omap_app. Qed.

Lemma frames_sent_flat_map {A} (w : world) (self : AsyncConnection) (address : string)
    (now : float) (f : A -> string) (xs : list A) :
  frames_sent (flat_map (fun x => ws_send_io w self address now (f x)) xs) = map f xs.
Proof.
  induction xs as [|x xs IH]; [done|]. cbn [flat_map map].
  rewrite frames_sent_app, IH. unfold ws_send_io, sink.
  by destruct (raw_data_callback w).
Qed.

(** X12.  [subscribe] on an open websocket sends one frame for every symbol
    of every channel of the subscription, in the order of the subscription,
    each carrying the channel as its method, the symbol, and the id of the
    connection; the raw-data callback, when set, is called before each send;
    [sent] grows by the number of frames and nothing else of the channel
    changes. *)
Theorem subscribe_sends_every_pair (subscription : list (string * list string))
    (dumps : json -> string) (address : string) (now : float) (self : AsyncConnection)
    (w : world) :
  is_open self = true ->
  let r := HitBTC.subscribe subscription dumps address now (self, w) in
  r.1 = Ok tt /\
  trace r.2.2
  = trace w ++ flat_map (fun cp : string * string =>
        ws_send_io w self address now
          (dumps (HitBTC.subscription_frame cp.1 cp.2 (id self))))
      (HitBTCSpec.requests subscription) /\
  frames_sent (trace r.2.2)
  = frames_sent (trace w)
    ++ map (fun cp : string * string => dumps (HitBTC.subscription_frame cp.1 cp.2 (id self)))
         (HitBTCSpec.requests subscription) /\
  sent r.2.1 = (sent self + N.of_nat (length (HitBTCSpec.requests subscription)))%N /\
  received r.2.1 = received self /\ conn r.2.1 = conn self /\ id r.2.1 = id self.
Proof.
  intros H r. subst r. rewrite (subscribe_open _ _ _ _ _ _ H). cbn [fst snd].
  split; [done|]. split; [done|]. split; [|done].
  cbn [with_trace trace]. by rewrite frames_sent_app, frames_sent_flat_map.
Qed.

Lemma subscribe_sends_every_pair_witness :
  is_open (busy_channel "hitbtc.ws.0") = true /\
  frames_sent (trace (HitBTC.subscribe [("subscribeTicker", ["BTCUSD"; "ETHBTC"]);
                                        ("subscribeTrades", ["BTCUSD"])]
                        (fun j => match j with
                                  | JDict (_ :: (_, JDict ((_, JStr p) :: _)) :: _) => p
                                  | _ => ""
                                  end)
                        "wss://api.hitbtc.com/api/2/ws" 101%Q
                        (busy_channel "hitbtc.ws.0", world0 true)).2.2)
  = ["BTCUSD"; "ETHBTC"; "BTCUSD"].
Proof.
  split; [reflexivity|].
  destruct (subscribe_sends_every_pair
              [("subscribeTicker", ["BTCUSD"; "ETHBTC"]); ("subscribeTrades", ["BTCUSD"])]
              (fun j => match j with
                        | JDict (_ :: (_, JDict ((_, JStr p) :: _)) :: _) => p
                        | _ => ""
                        end)
              "wss://api.hitbtc.com/api/2/ws" 101%Q
              (busy_channel "hitbtc.ws.0") (world0 true) eq_refl)
    as (_ & _ & Hf & _).
  rewrite Hf. reflexivity.
Defined.

(** X13.  [subscribe] on a channel that is not open raises [ConnectionClosed]
    at the first symbol it comes to, after one error record, with nothing
    sent and the channel as it was; a subscription without any symbol
    returns without touching anything. *)
Theorem subscribe_on_closed_channel (subscription : list (string * list string))
    (dumps : json -> string) (address : string) (now : float) (self : AsyncConnection)
    (w : world) :
  is_open self = false ->
  HitBTC.subscribe subscription dumps address now (self, w)
  = match HitBTCSpec.requests subscription with
    | [] => (Ok tt, (self, w))
    | _ :: _ =>
        (Raise ConnectionClosed,
         (self, with_trace w (trace w ++ [Log Error "connection closed in write()"])))
    end.
Proof.
  intros H. unfold HitBTC.subscribe, HitBTCSpec.requests.
  induction subscription as [|[chan pairs] subscription IH]; [done|].
  cbn [for_each flat_map fst snd]. destruct pairs as [|pair pairs].
  - cbn [for_each map app]. unfold bind at 1, ret at 1. exact IH.
  - cbn [for_each map app]. unfold bind at 1. unfold bind at 1. unfold bind at 1, get at 1.
    cbn [fst snd]. by rewrite (ws_write_closed _ _ _ _ _ H).
Qed.

Lemma subscribe_on_closed_channel_witness :
  (HitBTC.subscribe [("subscribeTicker", []); ("subscribeTrades", ["BTCUSD"])]
     (fun _ => "frame") "wss://api.hitbtc.com/api/2/ws" 101%Q
     (closed_channel "hitbtc.ws.0", world0 true)).1
  = Raise ConnectionClosed.
Proof.
  rewrite (subscribe_on_closed_channel
             [("subscribeTicker", []); ("subscribeTrades", ["BTCUSD"])]
             (fun _ => "frame") "wss://api.hitbtc.com/api/2/ws" 101%Q
             (closed_channel "hitbtc.ws.0") (world0 true) eq_refl).
  reflexivity.
Defined.

(** ** Construction *)

Lemma construct_rejected (k : kind) (conn_id : string) (w : world) :
  buildable k = false -> construct k conn_id w = Raise ValueError.
Proof.
  destruct k as [| | |address]; cbn; try done.
  intros Hb. unfold WSAsyncConn.init. by rewrite Hb.
Qed.

(** X14.  A websocket connection whose address does not begin with [wss://]
    is refused with [ValueError] before the shared counter is touched: the
    suffix of every connection that is built is the counter's starting value
    plus the number of connections built before it, refused ones not
    counted. *)
Theorem refused_address_takes_no_number (reqs : list (kind * string)) (w : world)
    (i : nat) (k : kind) (conn_id : string) :
  reqs !! i = Some (k, conn_id) ->
  construct_all reqs w !! i
  = Some (if buildable k
          then Ok (id_at k conn_id (conn_count w + N.of_nat (built (take i reqs))))
          else Raise ValueError).
Proof.
  revert w i. induction reqs as [|[k' c'] reqs IH]; intros w i Hi.
  - by rewrite lookup_nil in Hi.
  - cbn [construct_all]. rewrite lookup_cons in Hi. destruct (buildable k') eqn:Hb.
    + destruct (construct_buildable k' c' w Hb) as (self & w' & Hc & Hid & Hn).
      rewrite Hc. rewrite lookup_cons. destruct i as [|i].
      * injection Hi as -> ->. cbn. by rewrite Hb, Hid, N.add_0_r.
      * rewrite (IH w' i Hi), Hn.
        cbn [take built fst]. rewrite Hb. destruct (buildable k); [|done].
        do 3 f_equal. lia.
    + rewrite (construct_rejected k' c' w Hb). rewrite lookup_cons. destruct i as [|i].
      * injection Hi as -> ->. cbn. by rewrite Hb.
      * rewrite (IH w i Hi). cbn [take built fst]. by rewrite Hb.
Qed.

Lemma refused_address_takes_no_number_witness :
  construct_all [(Http, "a"); (Ws "ws://plain", "b"); (Ws "wss://x", "c")] (world0 false) !! 2%nat
  = Some (Ok "c.ws.1").
Proof.
  rewrite (refused_address_takes_no_number
             [(Http, "a"); (Ws "ws://plain", "b"); (Ws "wss://x", "c")] (world0 false)
             2 (Ws "wss://x") "c" eq_refl).
  vm_compute. reflexivity.
Defined.

(** ** Closing *)

Lemma close_when_open (self : AsyncConnection) (w : world) :
  is_open self = true ->
  close (self, w)
  = (Ok tt, (set_conn None self,
             with_trace w (trace w ++ [CloseSession (handle_of self);
                                       Log Info "closed connection"]))).
Proof.
  intros H. unfold close, with_trace. cunfold. cbn. rewrite H. cbn.
  by rewrite <- app_assoc.
Qed.

Lemma close_result (s : St) : (close s).1 = Ok tt /\ is_open (close s).2.1 = false.
Proof.
  destruct s as [self w]. destruct (is_open self) eqn:H.
  - by rewrite (close_when_open self w H).
  - by rewrite (close_when_closed self w H).
Qed.

(** X15.  [close] never raises and leaves the channel not open; on an open
    channel it drops the transport, closes it once and logs; the counters,
    the id and the time of the last message stay; a second [close] changes
    nothing. *)
Theorem close_is_idempotent (self : AsyncConnection) (w : world) :
  let r := close (self, w) in
  r.1 = Ok tt /\
  is_open r.2.1 = false /\
  trace r.2.2
  = trace w ++ (if is_open self
                then [CloseSession (handle_of self); Log Info "closed connection"] else []) /\
  (id r.2.1, received r.2.1, sent r.2.1, last_message r.2.1)
  = (id self, received self, sent self, last_message self) /\
  close r.2 = (Ok tt, r.2).
Proof.
  intros r. subst r. destruct (is_open self) eqn:H.
  - rewrite (close_when_open self w H). cbn [fst snd with_trace trace].
    repeat split; done.
  - rewrite (close_when_closed self w H). cbn [fst snd].
    repeat split; try done.
    + by rewrite app_nil_r.
    + by rewrite close_when_closed.
Qed.

(** X16.  The [connect] context manager: if [_open] raises, neither the body
    nor [close] runs; otherwise the body runs in the state [_open] left,
    its result or its exception is what [connect] gives, and the channel is
    not open afterwards, whatever the body did. *)
Theorem connect_always_closes {A} (_open : M St unit) (body : M St A) (s : St) :
  match _open s with
  | (Ok _, s1) =>
      (connect _open body s).1 = (body s1).1 /\
      (connect _open body s).2 = (close (body s1).2).2 /\
      is_open (connect _open body s).2.1 = false
  | (Raise e, s1) => connect _open body s = (Raise e, s1)
  end.
Proof.
  unfold connect, bind, try_finally.
  destruct (_open s) as [[[]|e] s1]; [|done].
  destruct (body s1) as [r s2]. cbn [fst snd].
  destruct (close_result s2) as [Hok Hclosed].
  destruct (close s2) as [[[]|e] s3]; [|done]. done.
Qed.

(** ** Reading a websocket *)

Lemma ws_receive_runs (frame : string * float) (self : AsyncConnection) (w : world) :
  WSAsyncConn.receive frame tt (self, w)
  = (Ok tt, (after_read frame.2 self,
             with_trace w (trace w ++ ws_receive_io w self frame))).
Proof.
  destruct w as [cc [] nh tr];
    unfold WSAsyncConn.receive, ws_receive_io, sink, with_trace, after_read;
    cunfold; cbn; rewrite <- ?app_assoc; reflexivity.
Qed.

Lemma ws_receive_all (frames : list (string * float)) (self : AsyncConnection) (w : world) :
  for_each WSAsyncConn.receive frames tt (self, w)
  = (Ok tt,
     (set_counters (received self + N.of_nat (length frames)) (sent self)
        (last_arrival frames (last_message self)) self,
      with_trace w (trace w ++ flat_map (ws_receive_io w self) frames))).
Proof.
  revert self w. induction frames as [|frame frames IH]; intros self w.
  - destruct self, w. cbn. unfold ret, set_counters, with_trace, last_arrival. cbn.
    by rewrite N.add_0_r, app_nil_r.
  - cbn [for_each]. unfold bind at 1. rewrite ws_receive_runs. rewrite IH.
    unfold set_counters, after_read, with_trace, last_arrival.
    cbn [id sent received last_message conn conn_count raw_data_callback next_handle
         trace length flat_map].
    rewrite last_cons. f_equal. f_equal.
    + f_equal; [lia|]. by destruct (last frames).
    + f_equal. by rewrite <- app_assoc.
Qed.

Lemma yields_receive (w : world) (self : AsyncConnection) (frames : list (string * float)) :
  yields (flat_map (ws_receive_io w self) frames) = map fst frames.
Proof.
  induction frames as [|frame frames IH]; [done|]. cbn [flat_map map].
  rewrite yields_app, IH. unfold ws_receive_io, sink.
  by destruct (raw_data_callback w).
Qed.

Lemma ws_read_open (frames : list (string * float)) (self : AsyncConnection) (w : world) :
  is_open self = true ->
  WSAsyncConn.read frames (self, w) = for_each WSAsyncConn.receive frames tt (self, w).
Proof. intros H. unfold WSAsyncConn.read, bind, get. cbn [fst snd]. by rewrite H. Qed.

(** X17.  Reading an open websocket yields every frame the socket delivers,
    in order and unchanged; [received] grows by their number and
    [last_message] is the arrival time of the last one; the raw-data
    callback, when set, sees each frame before it is yielded; nothing is
    sent and the transport stays. *)
Theorem ws_read_yields_every_frame (frames : list (string * float))
    (self : AsyncConnection) (w : world) :
  is_open self = true ->
  let r := WSAsyncConn.read frames (self, w) in
  r.1 = Ok tt /\
  trace r.2.2 = trace w ++ flat_map (ws_receive_io w self) frames /\
  yields (trace r.2.2) = yields (trace w) ++ map fst frames /\
  received r.2.1 = (received self + N.of_nat (length frames))%N /\
  last_message r.2.1 = last_arrival frames (last_message self) /\
  sent r.2.1 = sent self /\ conn r.2.1 = conn self /\ id r.2.1 = id self.
Proof.
  intros H r. subst r. rewrite (ws_read_open _ _ _ H), ws_receive_all. cbn [fst snd].
  split; [done|]. split; [done|]. split; [|done].
  cbn [with_trace trace]. by rewrite yields_app, yields_receive.
Qed.

Lemma ws_read_yields_every_frame_witness :
  is_open (busy_channel "hitbtc.ws.0") = true /\
  let r := WSAsyncConn.read [("a", 101%Q); ("b", 102%Q)]
             (busy_channel "hitbtc.ws.0", world0 true) in
  yields (trace r.2.2) = ["a"; "b"] /\ received r.2.1 = 7%N /\
  last_message r.2.1 = Some 102%Q.
Proof.
  split; [reflexivity|].
  destruct (ws_read_yields_every_frame [("a", 101%Q); ("b", 102%Q)]
              (busy_channel "hitbtc.ws.0") (world0 true) eq_refl)
    as (_ & _ & Hy & Hr & Hl & _).
  cbv zeta. rewrite Hy, Hr, Hl. repeat split; reflexivity.
Defined.

(** ** Polling *)

(** One round over addresses that all answer below 400. *)
Lemma poll_round (p : HTTPPoll.t) (serve : string -> response * float)
    (addrs : list string) (self : AsyncConnection) (w : world) :
  is_open self = true ->
  Forall (fun a => status (serve a).1 < 400) addrs ->
  exists self',
    for_each (HTTPPoll.poll p serve) addrs tt (self, w)
    = (Ok tt, (self', with_trace w (trace w ++ flat_map (poll_io p serve w self) addrs))) /\
    id self' = id self /\ conn self' = conn self /\ sent self' = sent self /\
    received self' = (received self + N.of_nat (length addrs))%N.
Proof.
  intros H Hall. revert self w H.
  induction Hall as [|addr addrs Hok _ IH]; intros self w H.
  - exists self. destruct w. cbn. unfold ret, with_trace. cbn.
    rewrite app_nil_r, N.add_0_r. done.
  - cbn [for_each]. unfold bind at 1. rewrite (poll_open p serve addr self w H).
    assert ((400 <=? status (serve addr).1) = false) as -> by (by apply Z.leb_gt).
    destruct (IH (after_read (serve addr).2 self)
                (with_trace w
                   (trace w ++ [Log Debug "polling"; Get (handle_of self) addr]
                      ++ sink w (RawData (Some (text (serve addr).1)) (serve addr).2
                                   (id self) (Endpoint addr None))
                      ++ [Yield (text (serve addr).1); Sleep (HTTPPoll.sleep p)]))
                H)
      as (self' & Hrun & Hid & Hconn & Hsent & Hrecv).
    exists self'. rewrite Hrun. cbn [after_read id conn sent received] in *.
    split; [|repeat split; try done; cbn [length]; lia].
    f_equal. f_equal. unfold with_trace. cbn [conn_count raw_data_callback next_handle trace].
    f_equal. cbn [flat_map]. rewrite <- app_assoc. reflexivity.
Qed.

Lemma yields_poll (p : HTTPPoll.t) (serve : string -> response * float) (w : world)
    (self : AsyncConnection) (addrs : list string) :
  yields (flat_map (poll_io p serve w self) addrs) = map (fun a => text (serve a).1) addrs.
Proof.
  induction addrs as [|a addrs IH]; [done|]. cbn [flat_map map].
  rewrite yields_app, IH. unfold poll_io, sink. by destruct (raw_data_callback w).
Qed.

Lemma requested_poll (p : HTTPPoll.t) (serve : string -> response * float) (w : world)
    (self : AsyncConnection) (addrs : list string) :
  requested (flat_map (poll_io p serve w self) addrs) = addrs.
Proof.
  induction addrs as [|a addrs IH]; [done|]. cbn [flat_map].
  rewrite requested_app, IH. unfold poll_io, sink. by destruct (raw_data_callback w).
Qed.

Lemma slept_poll (p : HTTPPoll.t) (serve : string -> response * float) (w : world)
    (self : AsyncConnection) (addrs : list string) :
  slept (flat_map (poll_io p serve w self) addrs)
  = replicate (length addrs) (HTTPPoll.sleep p).
Proof.
  induction addrs as [|a addrs IH]; [done|]. cbn [flat_map].
  rewrite slept_app, IH. unfold poll_io, sink. by destruct (raw_data_callback w).
Qed.

Lemma poll_read_step (p : HTTPPoll.t) (serve : string -> response * float) (n : nat)
    (self self1 : AsyncConnection) (w : world) (io : list io) :
  for_each (HTTPPoll.poll p serve) (HTTPPoll.address p) tt (self, w)
  = (Ok tt, (self1, with_trace w (trace w ++ io))) ->
  HTTPPoll.read p serve (S n) (self, w)
  = HTTPPoll.read p serve n
      (self1, with_trace w (trace w ++ io ++ [Sleep (HTTPPoll.delay p)])).
Proof.
  intros Hrun. cbn [HTTPPoll.read]. unfold bind at 1. rewrite Hrun.
  unfold bind at 1. unfold do_io at 1, modify at 1. cbn [fst snd with_trace trace
    conn_count raw_data_callback next_handle]. by rewrite <- app_assoc.
Qed.

(** X18.  On an open channel whose addresses all answer below 400, [n]
    rounds of the poll generator request every address once a round, in the
    order of the list, and yield the bodies in that order; the generator
    sleeps [sleep] after each address and [delay] after each round;
    [received] grows by one a request, and the session is kept. *)
Theorem poll_visits_every_address (p : HTTPPoll.t) (serve : string -> response * float)
    (n : nat) (self : AsyncConnection) (w : world) :
  is_open self = true ->
  Forall (fun a => status (serve a).1 < 400) (HTTPPoll.address p) ->
  let r := HTTPPoll.read p serve n (self, w) in
  r.1 = Ok tt /\
  requested (trace r.2.2)
  = requested (trace w) ++ concat (replicate n (HTTPPoll.address p)) /\
  yields (trace r.2.2)
  = yields (trace w)
    ++ concat (replicate n (map (fun a => text (serve a).1) (HTTPPoll.address p))) /\
  slept (trace r.2.2)
  = slept (trace w)
    ++ concat (replicate n (replicate (length (HTTPPoll.address p)) (HTTPPoll.sleep p)
                            ++ [HTTPPoll.delay p])) /\
  received r.2.1 = (received self + N.of_nat (n * length (HTTPPoll.address p)))%N /\
  sent r.2.1 = sent self /\ conn r.2.1 = conn self /\ id r.2.1 = id self.
Proof.
  intros H Hall. revert self w H. induction n as [|n IH]; intros self w H.
  - cbn. rewrite !app_nil_r, N.add_0_r. done.
  - destruct (poll_round p serve (HTTPPoll.address p) self w H Hall)
      as (self1 & Hrun & Hid & Hconn & Hsent & Hrecv).
    assert (is_open self1 = true) as H1 by (unfold is_open in *; by rewrite Hconn).
    cbn zeta. rewrite (poll_read_step p serve n self self1 w _ Hrun).
    destruct (IH self1
                (with_trace w
                   (trace w ++ flat_map (poll_io p serve w self) (HTTPPoll.address p)
                      ++ [Sleep (HTTPPoll.delay p)])) H1)
      as (Hr & Hq & Hy & Hs & Hc & Hse & Hco & Hi).
    split; [done|].
    rewrite Hq, Hy, Hs, Hc, Hse, Hco, Hi. cbn [trace with_trace].
    rewrite !requested_app, !yields_app, !slept_app.
    rewrite requested_poll, yields_poll, slept_poll.
    cbn [replicate concat requested yields slept omap].
    rewrite !app_nil_r, <- !app_assoc.
    repeat split; try done. rewrite Hrecv. lia.
Qed.

Lemma poll_visits_every_address_witness :
  is_open (busy_channel "hitbtc.http.0") = true /\
  yields (trace (HTTPPoll.read one_address (fun _ => (ok_response, 1%Q)) 2
                   (busy_channel "hitbtc.http.0", world0 true)).2.2)
  = ["{}"; "{}"].
Proof.
  split; [reflexivity|].
  destruct (poll_visits_every_address one_address (fun _ => (ok_response, 1%Q)) 2
              (busy_channel "hitbtc.http.0") (world0 true) eq_refl)
    as (_ & _ & Hy & _).
  - repeat constructor.
  - rewrite Hy. reflexivity.
Defined.

(** A round that comes to an address answering 400 or above. *)
Lemma poll_read_fails (p : HTTPPoll.t) (serve : string -> response * float) (n : nat)
    (good : list string) (bad : string) (rest : list string)
    (self : AsyncConnection) (w : world) :
  is_open self = true ->
  HTTPPoll.address p = good ++ bad :: rest ->
  Forall (fun a => status (serve a).1 < 400) good ->
  400 <= status (serve bad).1 ->
  exists self1,
    HTTPPoll.read p serve (S n) (self, w)
    = (Raise HTTPError,
       (after_read (serve bad).2 self1,
        with_trace w
          (trace w ++ flat_map (poll_io p serve w self) good
             ++ [Log Debug "polling"; Get (handle_of self) bad]
             ++ sink w (RawData (Some (text (serve bad).1)) (serve bad).2 (id self)
                          (Endpoint bad None))))) /\
    id self1 = id self /\ conn self1 = conn self /\ sent self1 = sent self /\
    received self1 = (received self + N.of_nat (length good))%N.
Proof.
  intros H Ha Hgood Hbad.
  destruct (poll_round p serve good self w H Hgood)
    as (self1 & Hrun & Hid & Hconn & Hsent & Hrecv).
  exists self1. split; [|done].
  assert (is_open self1 = true) as H1 by (unfold is_open in *; by rewrite Hconn).
  cbn [HTTPPoll.read]. unfold bind at 1. rewrite Ha, for_each_app, Hrun.
  cbn [for_each]. unfold bind at 1. rewrite (poll_open p serve bad self1 _ H1).
  assert ((400 <=? status (serve bad).1) = true) as -> by (by apply Z.leb_le).
  unfold with_trace, handle_of.
  cbn [conn_count raw_data_callback next_handle trace sink]. unfold sink.
  cbn [raw_data_callback]. rewrite Hid, Hconn, app_nil_r, <- !app_assoc. reflexivity.
Qed.

(** X19.  When an address answers 400 or above, the poll generator raises
    [HTTPError] in that round: the addresses before it were requested and
    their bodies yielded, the failing one was requested, counted and timed
    but not yielded, and the addresses after it are not requested; the
    session stays open. *)
Theorem poll_stops_at_failing_address (p : HTTPPoll.t) (serve : string -> response * float)
    (n : nat) (good : list string) (bad : string) (rest : list string)
    (self : AsyncConnection) (w : world) :
  is_open self = true ->
  HTTPPoll.address p = good ++ bad :: rest ->
  Forall (fun a => status (serve a).1 < 400) good ->
  400 <= status (serve bad).1 ->
  let r := HTTPPoll.read p serve (S n) (self, w) in
  r.1 = Raise HTTPError /\
  requested (trace r.2.2) = requested (trace w) ++ good ++ [bad] /\
  yields (trace r.2.2) = yields (trace w) ++ map (fun a => text (serve a).1) good /\
  received r.2.1 = (received self + N.of_nat (length good) + 1)%N /\
  last_message r.2.1 = Some (serve bad).2 /\
  is_open r.2.1 = true.
Proof.
  intros H Ha Hgood Hbad r. subst r.
  destruct (poll_read_fails p serve n good bad rest self w H Ha Hgood Hbad)
    as (self1 & -> & Hid & Hconn & Hsent & Hrecv).
  cbn [fst snd with_trace trace after_read received last_message].
  rewrite !requested_app, !yields_app, requested_poll, yields_poll.
  split; [done|]. split; [|split; [|split; [|split]]].
  - unfold sink. by destruct (raw_data_callback w).
  - unfold sink. destruct (raw_data_callback w); cbn; by rewrite app_nil_r.
  - by rewrite Hrecv.
  - done.
  - change (is_open self1 = true). unfold is_open in *. by rewrite Hconn.
Qed.

Lemma poll_stops_at_failing_address_witness :
  is_open (busy_channel "hitbtc.http.0") = true /\
  let r := HTTPPoll.read two_addresses serve_two 3
             (busy_channel "hitbtc.http.0", world0 true) in
  r.1 = Raise HTTPError /\ yields (trace r.2.2) = ["{}"] /\ received r.2.1 = 7%N.
Proof.
  split; [reflexivity|].
  destruct (poll_stops_at_failing_address two_addresses serve_two 2
              ["https://api.example/book"] "https://api.example/down" []
              (busy_channel "hitbtc.http.0") (world0 true) eq_refl eq_refl)
    as (Hr & _ & Hy & Hc & _).
  - repeat constructor.
  - vm_compute. discriminate.
  - cbv zeta. rewrite Hr, Hy, Hc. repeat split; reflexivity.
Defined.

(** X20.  A poll generator without any address makes no request and never
    raises, on an open channel as on a closed one: each round only sleeps
    for [delay]. *)
Theorem poll_without_address_only_sleeps (p : HTTPPoll.t)
    (serve : string -> response * float) (n : nat) (self : AsyncConnection) (w : world) :
  HTTPPoll.address p = [] ->
  HTTPPoll.read p serve n (self, w)
  = (Ok tt, (self, with_trace w (trace w ++ replicate n (Sleep (HTTPPoll.delay p))))).
Proof.
  intros Ha. revert w. induction n as [|n IH]; intros w.
  - destruct w. cbn. unfold ret, with_trace. cbn. by rewrite app_nil_r.
  - cbn [HTTPPoll.read]. rewrite Ha. cbn [for_each]. unfold bind at 1, ret at 1.
    unfold bind at 1. unfold do_io at 1, modify at 1. cbn [fst snd]. rewrite IH.
    unfold with_trace. cbn [conn_count raw_data_callback next_handle trace replicate].
    by rewrite <- app_assoc.
Qed.

Lemma poll_without_address_only_sleeps_witness :
  HTTPPoll.read no_address serve_two 2 (closed_channel "hitbtc.http.0", world0 true)
  = (Ok tt, (closed_channel "hitbtc.http.0",
             with_trace (world0 true) [Sleep 60%Q; Sleep 60%Q])).
Proof.
  rewrite (poll_without_address_only_sleeps no_address serve_two 2
             (closed_channel "hitbtc.http.0") (world0 true) eq_refl).
  reflexivity.
Defined.

(** ** Throttling *)

Lemma slept_weight_logs (r : response) : slept (weight_logs r) = [].
Proof.
  unfold weight_logs. cbn [flat_map].
  by destruct (has_header "x-mbx-used-weight" (headers r)),
    (has_header "x-mbx-used-weight-1m" (headers r)),
    (has_header "X-MBX-USED-WEIGHT-1M" (headers r)).
Qed.

(** A read of [HTTPAsyncConn] does not sleep. *)
Lemma http_read_no_sleep (address : string) (return_headers : bool) (r : response)
    (now : float) (s : St) :
  slept (trace (HTTPAsyncConn.read address return_headers r now s).2.2) = slept (trace s.2).
Proof.
  assert (forall s : St, is_open s.1 = true ->
            slept (trace (HTTPAsyncConn.read address return_headers r now s).2.2)
            = slept (trace s.2)) as Hopen.
  { intros s' H. rewrite (http_read_open_at _ _ _ _ _ H). cbn [fst snd with_trace trace].
    rewrite !slept_app, slept_weight_logs. unfold sink.
    destruct (raw_data_callback s'.2); cbn; by rewrite app_nil_r. }
  destruct s as [self w]. destruct (is_open self) eqn:H.
  - by apply Hopen.
  - rewrite (http_read_closed _ _ _ _ _ _ H), Hopen by apply is_open_opened.
    unfold opened. cbn [fst snd trace]. rewrite slept_app. cbn. by rewrite app_nil_r.
Qed.

(** With no limit, the admission control lets the read through. *)
Lemma admission_unlimited (weight : N) (clk : ThrottledHTTPAsyncConn.clock)
    (s : ThrottledHTTPAsyncConn.TSt) :
  ThrottledHTTPAsyncConn.throttle_limit s.1 = ThrottledHTTPAsyncConn.Infinity ->
  (ThrottledHTTPAsyncConn.admission weight clk s).1 = Ok None /\
  ThrottledHTTPAsyncConn.throttle_limit (ThrottledHTTPAsyncConn.admission weight clk s).2.1
  = ThrottledHTTPAsyncConn.Infinity /\
  slept (trace (ThrottledHTTPAsyncConn.admission weight clk s).2.2.2) = slept (trace s.2.2).
Proof.
  intros Hinf. destruct s as [[lim itv used reset] [self w]]. cbn in Hinf. subst lim.
  unfold ThrottledHTTPAsyncConn.admission, ThrottledHTTPAsyncConn.account,
    ThrottledHTTPAsyncConn.reset_value, ThrottledHTTPAsyncConn.tupdate,
    ThrottledHTTPAsyncConn.super.
  cunfold. cbn.
  destruct (ThrottledHTTPAsyncConn.unset reset) eqn:Hu; cbn.
  - destruct (ThrottledHTTPAsyncConn.Qltb _ _); cbn; rewrite ?slept_app; cbn;
      by rewrite ?app_nil_r.
  - destruct reset as [z|]; [|done]. cbn.
    destruct (ThrottledHTTPAsyncConn.Qltb _ _); cbn; rewrite ?slept_app; cbn;
      by rewrite ?app_nil_r.
Qed.

Lemma throttled_read_unlimited (address : string) (weight : N) (r : response)
    (clk : ThrottledHTTPAsyncConn.clock) (s : ThrottledHTTPAsyncConn.TSt) :
  ThrottledHTTPAsyncConn.throttle_limit s.1 = ThrottledHTTPAsyncConn.Infinity ->
  ThrottledHTTPAsyncConn.throttle_limit
    (ThrottledHTTPAsyncConn.read address false weight r clk s).2.1
  = ThrottledHTTPAsyncConn.Infinity /\
  slept (trace (ThrottledHTTPAsyncConn.read address false weight r clk s).2.2.2)
  = slept (trace s.2.2).
Proof.
  intros Hinf. destruct (admission_unlimited weight clk s Hinf) as (Hok & Hlim & Hsl).
  split; [by rewrite read_throttle_state|].
  unfold ThrottledHTTPAsyncConn.read, bind, ThrottledHTTPAsyncConn.super.
  destruct (ThrottledHTTPAsyncConn.admission weight clk s) as [[wait|e] s1]; [|done].
  cbn [fst snd] in *. rewrite <- Hsl.
  rewrite <- (http_read_no_sleep address false r (ThrottledHTTPAsyncConn.t_read clk) s1.2).
  by destruct (HTTPAsyncConn.read _ _ _ _ _).
Qed.

(** X21.  A throttled channel built without a limit ([float('inf')]) never
    sleeps: every read of a sequence goes through at once, whatever its
    weight and whenever it comes, so the weights let through add up to the
    total requested. *)
Theorem unlimited_never_sleeps (address : string) (calls : list call)
    (s : ThrottledHTTPAsyncConn.TSt) :
  ThrottledHTTPAsyncConn.throttle_limit s.1 = ThrottledHTTPAsyncConn.Infinity ->
  Forall (fun o => o_wait o = None) (outcomes address calls s) /\
  accepted (outcomes address calls s) = total_weight calls /\
  slept (trace (final address calls s).2.2) = slept (trace s.2.2).
Proof.
  revert s. induction calls as [|c calls IH]; intros s Hinf.
  - cbn. by split.
  - destruct (admission_unlimited (c_weight c) (c_clock c) s Hinf) as (Hok & _ & _).
    destruct (throttled_read_unlimited address (c_weight c) (c_response c) (c_clock c) s Hinf)
      as (Hlim & Hsl).
    destruct (IH _ Hlim) as (Hall & Hacc & Hfin).
    cbn [outcomes accepted final total_weight foldr o_wait o_weight].
    rewrite Hok. split; [by constructor|]. split.
    + rewrite Hacc. reflexivity.
    + by rewrite Hfin.
Qed.

Lemma unlimited_never_sleeps_witness :
  Forall (fun o => o_wait o = None)
    (outcomes "https://api.example/depth" scenario_B unthrottled) /\
  accepted (outcomes "https://api.example/depth" scenario_B unthrottled) = 12%N.
Proof.
  destruct (unlimited_never_sleeps "https://api.example/depth" scenario_B unthrottled eq_refl)
    as (Hall & Hacc & _).
  split; [exact Hall|]. rewrite Hacc. reflexivity.
Defined.

(** After the accounting the window does not end before the reading of the
    clock it was given. *)
Lemma account_window (weight : N) (now : float) (s : ThrottledHTTPAsyncConn.TSt) :
  exists reset,
    (ThrottledHTTPAsyncConn.account weight now s).1 = Ok tt /\
    ThrottledHTTPAsyncConn.next_reset (ThrottledHTTPAsyncConn.account weight now s).2.1
    = Some reset /\
    (now <= inject_Z reset)%Q.
Proof.
  destruct s as [[lim itv used reset] st].
  pose proof (next_minute_gt now) as Hgt. apply Qlt_le_weak in Hgt.
  unfold ThrottledHTTPAsyncConn.account, ThrottledHTTPAsyncConn.reset_value,
    ThrottledHTTPAsyncConn.tupdate, ThrottledHTTPAsyncConn.super.
  cunfold. cbn.
  destruct (ThrottledHTTPAsyncConn.unset reset) eqn:Hu; cbn.
  - destruct (ThrottledHTTPAsyncConn.Qltb _ _); cbn; by eexists.
  - destruct reset as [z|]; [|done]. cbn.
    destruct (ThrottledHTTPAsyncConn.Qltb (inject_Z z) now) eqn:Hlt; cbn.
    + by eexists.
    + exists z. split; [done|]. split; [done|].
      unfold ThrottledHTTPAsyncConn.Qltb in Hlt. apply negb_false_iff in Hlt.
      by apply Qle_bool_iff.
Qed.

(** X22.  When a throttled read sleeps, the time it asks for is the time
    from its second reading of the clock to the end of the window, and that
    end is not before its first reading: the request is negative only by
    the time that passed between the two readings. *)
Theorem sleep_reaches_window_end (weight : N) (clk : ThrottledHTTPAsyncConn.clock)
    (s : ThrottledHTTPAsyncConn.TSt) (d : float) :
  (ThrottledHTTPAsyncConn.admission weight clk s).1 = Ok (Some d) ->
  exists reset,
    ThrottledHTTPAsyncConn.next_reset
      (ThrottledHTTPAsyncConn.account weight (ThrottledHTTPAsyncConn.now clk) s).2.1
    = Some reset /\
    d = (inject_Z reset - ThrottledHTTPAsyncConn.t_wait clk)%Q /\
    (ThrottledHTTPAsyncConn.now clk <= inject_Z reset)%Q /\
    (ThrottledHTTPAsyncConn.now clk - ThrottledHTTPAsyncConn.t_wait clk <= d)%Q.
Proof.
  intros Hd.
  destruct (account_window weight (ThrottledHTTPAsyncConn.now clk) s)
    as (reset & Hok & Hreset & Hle).
  exists reset. split; [done|].
  destruct (ThrottledHTTPAsyncConn.limit_reached
              (ThrottledHTTPAsyncConn.used_limit
                 (ThrottledHTTPAsyncConn.account weight (ThrottledHTTPAsyncConn.now clk) s).2.1)
              (ThrottledHTTPAsyncConn.throttle_limit
                 (ThrottledHTTPAsyncConn.account weight (ThrottledHTTPAsyncConn.now clk) s).2.1))
    eqn:Hlim.
  - rewrite (admission_sleeps weight clk s reset Hok Hreset Hlim) in Hd.
    cbn [fst] in Hd. injection Hd as <-. split; [done|]. split; [done|].
    clear -Hle. remember (inject_Z reset) as b. clear Heqb.
    unfold float in *. lra.
  - rewrite (admission_passes weight clk s Hok Hlim) in Hd. done.
Qed.

Lemma sleep_reaches_window_end_witness :
  exists reset,
    ThrottledHTTPAsyncConn.next_reset
      (ThrottledHTTPAsyncConn.account 4 603%Q
         (final "https://api.example/depth" (take 2 scenario_B) throttled_10)).2.1
    = Some reset /\
    57%Q = (inject_Z reset - 603%Q)%Q /\
    (603%Q <= inject_Z reset)%Q /\
    (603%Q - 603%Q <= 57%Q)%Q.
Proof.
  apply (sleep_reaches_window_end 4
           {| ThrottledHTTPAsyncConn.now := 603%Q; ThrottledHTTPAsyncConn.t_wait := 603%Q;
              ThrottledHTTPAsyncConn.t_wake := 660%Q; ThrottledHTTPAsyncConn.t_read := 660%Q |}
           (final "https://api.example/depth" (take 2 scenario_B) throttled_10) 57%Q).
  vm_compute. reflexivity.
Defined.

(** ** Sessions *)

Lemma ws_open_when_closed (address : string) (now : float) (self : AsyncConnection)
    (w : world) :
  is_open self = false ->
  WSAsyncConn._open address now (self, w)
  = (Ok tt,
     (set_counters 0 0 (last_message self)
        (set_conn (Some {| handle := next_handle w; closed := false |}) self),
      {| conn_count := conn_count w; raw_data_callback := raw_data_callback w;
         next_handle := S (next_handle w);
         trace := trace w ++ ws_connect_io w self address now |})).
Proof.
  intros H. destruct w as [cc [] nh tr];
    unfold WSAsyncConn._open, ws_connect_io, sink, set_counters, set_conn;
    cunfold; cbn; rewrite H; cbn; rewrite <- ?app_assoc; reflexivity.
Qed.

(** X23.  A websocket session of the feed, from a channel that is not open:
    [connect] opens one socket (after the connect marker of the raw-data
    callback), [subscribe] sends its frames over that socket, and the socket
    is closed at the end of the block; the channel is left without a
    transport, with [sent] the number of frames and [received] 0. *)
Theorem ws_session_subscribes (subscription : list (string * list string))
    (dumps : json -> string) (address : string) (t0 now : float)
    (self : AsyncConnection) (w : world) :
  is_open self = false ->
  let socket := {| handle := next_handle w; closed := false |} in
  connect (WSAsyncConn._open address t0)
    (HitBTC.subscribe subscription dumps address now) (self, w)
  = (Ok tt,
     (set_counters 0 (N.of_nat (length (HitBTCSpec.requests subscription)))
        (last_message self) (set_conn None self),
      {| conn_count := conn_count w; raw_data_callback := raw_data_callback w;
         next_handle := S (next_handle w);
         trace := trace w ++ ws_connect_io w self address t0
                  ++ flat_map (fun cp : string * string =>
                         ws_send_io w (set_conn (Some socket) self) address now
                           (dumps (HitBTC.subscription_frame cp.1 cp.2 (id self))))
                       (HitBTCSpec.requests subscription)
                  ++ [CloseSession (next_handle w); Log Info "closed connection"] |})).
Proof.
  intros H socket. unfold connect, try_finally. unfold bind at 1.
  rewrite (ws_open_when_closed address t0 self w H).
  rewrite subscribe_open by done.
  rewrite close_when_open by done.
  unfold set_counters, set_conn, set_sent, with_trace, handle_of.
  cbn [id sent received last_message conn conn_count raw_data_callback next_handle trace
       handle].
  f_equal. f_equal. f_equal. rewrite <- !app_assoc. reflexivity.
Qed.

Lemma ws_session_subscribes_witness :
  (connect (WSAsyncConn._open "wss://api.hitbtc.com/api/2/ws" 100%Q)
     (HitBTC.subscribe [("subscribeTrades", ["BTCUSD"])] (fun _ => "frame")
        "wss://api.hitbtc.com/api/2/ws" 101%Q)
     (closed_channel "hitbtc.ws.0", world0 true)).2.2
  = {| conn_count := 0; raw_data_callback := true; next_handle := 1;
       trace := [Log Debug "connecting";
                 RawData None 100%Q "hitbtc.ws.0" (Connect "wss://api.hitbtc.com/api/2/ws");
                 WsConnect "wss://api.hitbtc.com/api/2/ws" 0;
                 RawData (Some "frame") 101%Q "hitbtc.ws.0"
                   (Send "wss://api.hitbtc.com/api/2/ws");
                 WsSend 0 "frame"; CloseSession 0; Log Info "closed connection"] |}.
Proof.
  rewrite (ws_session_subscribes [("subscribeTrades", ["BTCUSD"])] (fun _ => "frame")
             "wss://api.hitbtc.com/api/2/ws" 100%Q 101%Q
             (closed_channel "hitbtc.ws.0") (world0 true) eq_refl).
  reflexivity.
Defined.

(** X24.  A read or a write through a closed HTTP channel opens a session
    first, and that starts both counters again: afterwards the channel has
    counted this one message only.  Through an open channel the same call
    adds one to its counter and leaves the other. *)
Theorem reopening_restarts_counters (address msg : string) (return_headers : bool)
    (r : response) (now : float) (self : AsyncConnection) (w : world) :
  is_open self = false ->
  let rd := HTTPAsyncConn.read address return_headers r now (self, w) in
  let wr := HTTPAsyncConn.write address msg r now (self, w) in
  (received rd.2.1, sent rd.2.1, last_message rd.2.1) = (1%N, 0%N, Some now) /\
  (received wr.2.1, sent wr.2.1, last_message wr.2.1) = (0%N, 1%N, last_message self) /\
  (let rd' := HTTPAsyncConn.read address return_headers r now rd.2 in
   let wr' := HTTPAsyncConn.write address msg r now rd.2 in
   (received rd'.2.1, sent rd'.2.1) = (2%N, 0%N) /\
   (received wr'.2.1, sent wr'.2.1) = (1%N, 1%N) /\
   conn rd'.2.1 = conn rd.2.1 /\ conn wr'.2.1 = conn rd.2.1).
Proof.
  intros H rd wr.
  assert (is_open rd.2.1 = true) as Hopen.
  { subst rd. rewrite (http_read_closed _ _ _ _ _ _ H).
    by rewrite (http_read_open_at _ _ _ _ _ (is_open_opened self w)). }
  cbv zeta.
  rewrite (http_read_open_at address return_headers r now rd.2 Hopen).
  rewrite (http_write_open_at address msg r now rd.2 Hopen).
  subst rd wr.
  rewrite (http_read_closed _ _ _ _ _ _ H), (http_write_closed _ _ _ _ _ _ H).
  rewrite (http_read_open_at _ _ _ _ _ (is_open_opened self w)).
  rewrite (http_write_open_at _ _ _ _ _ (is_open_opened self w)).
  cbn. done.
Qed.

Lemma reopening_restarts_counters_witness :
  let rd := HTTPAsyncConn.read "https://api.example/book" false ok_response 101%Q
              ({| id := "hitbtc.http.0"; received := 5; sent := 3;
                  last_message := Some 100%Q; conn := None |}, world0 false) in
  (received rd.2.1, sent rd.2.1, last_message rd.2.1) = (1%N, 0%N, Some 101%Q).
Proof.
  exact (proj1 (reopening_restarts_counters "https://api.example/book" "" false
                  ok_response 101%Q
                  {| id := "hitbtc.http.0"; received := 5; sent := 3;
                     last_message := Some 100%Q; conn := None |} (world0 false) eq_refl)).
Defined.

(** ** Throttled and plain reads *)

Lemma requested_weight_logs (r : response) : requested (weight_logs r) = [].
Proof.
  unfold weight_logs. cbn [flat_map].
  by destruct (has_header "x-mbx-used-weight" (headers r)),
    (has_header "x-mbx-used-weight-1m" (headers r)),
    (has_header "X-MBX-USED-WEIGHT-1M" (headers r)).
Qed.

(** What a read of [HTTPAsyncConn] gives does not depend on what was logged
    before it. *)
Lemma http_read_after_logs (address : string) (return_headers : bool) (r : response)
    (now : float) (self : AsyncConnection) (w : world) (pre : list io) :
  requested pre = [] ->
  let logged := HTTPAsyncConn.read address return_headers r now
                  (self, with_trace w (trace w ++ pre)) in
  let plain := HTTPAsyncConn.read address return_headers r now (self, w) in
  logged.1 = plain.1 /\ logged.2.1 = plain.2.1 /\
  requested (trace logged.2.2) = requested (trace plain.2.2) /\
  next_handle logged.2.2 = next_handle plain.2.2 /\
  conn_count logged.2.2 = conn_count plain.2.2.
Proof.
  intros Hpre logged plain. subst logged plain. destruct (is_open self) eqn:H.
  - rewrite !(http_read_open _ _ _ _ _ _ H). cbn [fst snd with_trace trace next_handle
      conn_count raw_data_callback].
    repeat split. rewrite !requested_app, Hpre, app_nil_r. reflexivity.
  - rewrite !(http_read_closed _ _ _ _ _ _ H).
    rewrite !(http_read_open_at _ _ _ _ _ (is_open_opened _ _)).
    unfold opened. cbn [fst snd with_trace trace next_handle conn_count raw_data_callback
      id received sent last_message conn].
    repeat split. rewrite !requested_app, Hpre, app_nil_r. reflexivity.
Qed.

Lemma requested_logs (pre : list io) :
  Forall (fun e => match e with Log _ _ | Sleep _ => True | _ => False end) pre ->
  requested pre = [].
Proof.
  induction 1 as [|e pre He _ IH]; [done|]. destruct e; try done; exact IH.
Qed.

(** X25.  Throttling changes when a read happens, never what it gives: a
    throttled read returns or raises what the read of [HTTPAsyncConn] does
    for the same response at the time of the delegated read, leaves the
    channel with the same counters, time and transport, and makes the same
    one request. *)
Theorem throttle_delays_only (address : string) (return_headers : bool) (weight : N)
    (r : response) (clk : ThrottledHTTPAsyncConn.clock) (th : ThrottledHTTPAsyncConn.t)
    (self : AsyncConnection) (w : world) :
  let throttled :=
    ThrottledHTTPAsyncConn.read address return_headers weight r clk (th, (self, w)) in
  let plain :=
    HTTPAsyncConn.read address return_headers r (ThrottledHTTPAsyncConn.t_read clk) (self, w) in
  throttled.1 = plain.1 /\
  throttled.2.2.1 = plain.2.1 /\
  requested (trace throttled.2.2.2) = requested (trace plain.2.2) /\
  next_handle throttled.2.2.2 = next_handle plain.2.2 /\
  conn_count throttled.2.2.2 = conn_count plain.2.2.
Proof.
  intros throttled plain. subst throttled plain.
  destruct (throttled_read_runs address return_headers weight r clk th self w)
    as (th' & pre & Hpre & ->).
  cbn [fst snd]. by apply http_read_after_logs, requested_logs.
Qed.

End ConnectionMore.
